(** * node_manager services: the funds collector and the transaction monitor

    A shallow embedding of [node_manager/services/collector.py] and
    [node_manager/services/monitor.py].

    Both services are [async] Python: a method runs until it awaits an
    external collaborator (the node, the WebSocket transport, the event
    loop's timer), and other coroutines may run on the same object while it
    is suspended.  A method is therefore embedded as a finite tree of
    reads and writes of the object's fields and of awaited calls; the
    tree is run either to its next await ([advance]) or to its end against
    an environment that answers the calls ([run]).

    Conventions.
    - A Python [Exception] is represented by its message ([str(e)]).
      [BaseException]s that are not [Exception]s (task cancellation) are
      outside the model.
    - Amounts are Python floats: binary64 numbers with their rounding,
      their infinities and their NaN.  They are embedded as the primitive
      floats of [Floats], with the primitive operations and comparisons;
      [sum] adds from left to right, starting from [0].
    - Dictionaries with a fixed set of keys are records; a key read with
      [d.get(k, default)] is an [option] field, a key read with [d[k]] is a
      plain field.
    - Logging has no effect on the state or on the result and is left out. *)

From Stdlib Require Import QArith ZArith Lia Floats.
From stdpp Require Import base strings list gmap.

(* A decimal literal stands for the nearest binary64 number, as in Python. *)
Set Warnings "-inexact-float".

Local Open Scope Z_scope.

(** ** Coroutines *)

(** [str(e)] of a raised [Exception]. *)
Definition exn := string.

(** The calls a service awaits, and the type of what each one returns. *)
Record Sig : Type := MkSig { Call : Type; Resp : Call -> Type }.

Section Coroutine.
Context {St : Type} {Sg : Sig}.

(** A method body over an object with fields [St].  [Await c k] suspends
    the coroutine on the call [c]; it is resumed with the value the call
    returned or with the exception it raised. *)
Inductive Coro (R : Type) : Type :=
| Ret (r : R)
| Raise (e : exn)
| Get (k : St -> Coro R)
| Put (s : St) (k : Coro R)
| Await (c : Call Sg) (k : exn + Resp Sg c -> Coro R).

Global Arguments Ret {R} r.
Global Arguments Raise {R} e.
Global Arguments Get {R} k.
Global Arguments Put {R} s k.
Global Arguments Await {R} c k.

Fixpoint bind {A B : Type} (m : Coro A) (f : A -> Coro B) : Coro B :=
  match m with
  | Ret r => f r
  | Raise e => Raise e
  | Get k => Get (fun s => bind (k s) f)
  | Put s k => Put s (bind k f)
  | Await c k => Await c (fun r => bind (k r) f)
  end.

(** [try: body / except Exception as e: handler e] *)
Fixpoint try_except {A : Type} (body : Coro A) (handler : exn -> Coro A) : Coro A :=
  match body with
  | Ret r => Ret r
  | Raise e => handler e
  | Get k => Get (fun s => try_except (k s) handler)
  | Put s k => Put s (try_except k handler)
  | Await c k => Await c (fun r => try_except (k r) handler)
  end.

(** [try: body / finally: fin]: [fin] runs on every way out of [body],
    then the value is returned or the exception raised again. *)
Fixpoint try_finally {A : Type} (body : Coro A) (fin : Coro unit) : Coro A :=
  match body with
  | Ret r => bind fin (fun _ => Ret r)
  | Raise e => bind fin (fun _ => Raise e)
  | Get k => Get (fun s => try_finally (k s) fin)
  | Put s k => Put s (try_finally k fin)
  | Await c k => Await c (fun r => try_finally (k r) fin)
  end.

(** [await c]: the value, or the exception raised at the await. *)
Definition await (c : Call Sg) : Coro (Resp Sg c) :=
  Await c (fun r => match r with inl e => Raise e | inr v => Ret v end).

(** [self.f] *)
Definition read {A : Type} (f : St -> A) : Coro A := Get (fun s => Ret (f s)).

(** [self.f = v], as an update of the fields *)
Definition modify (f : St -> St) : Coro unit := Get (fun s => Put (f s) (Ret tt)).

(** *** Running to the next await *)

Inductive Status (R : Type) : Type :=
| Finished (r : exn + R) (s : St)
| Suspended (c : Call Sg) (k : exn + Resp Sg c -> Coro R) (s : St).

Global Arguments Finished {R} r s.
Global Arguments Suspended {R} c k s.

Fixpoint advance {R : Type} (m : Coro R) (s : St) : Status R :=
  match m with
  | Ret r => Finished (inr r) s
  | Raise e => Finished (inl e) s
  | Get k => advance (k s) s
  | Put s' k => advance k s'
  | Await c k => Suspended c k s
  end.

(** *** A suspended coroutine and the others

    While a coroutine is suspended the event loop runs other coroutines,
    which may write the fields; [rely s s'] bounds what they do between
    a suspension in [s] and the resumption in [s'].  [reaches rely m s st]:
    started in [s], the coroutine [m] gets to [st], finished or suspended. *)
Inductive reaches (rely : St -> St -> Prop) {R : Type}
  : Coro R -> St -> Status R -> Prop :=
| reaches_here (m : Coro R) (s : St) :
    reaches rely m s (advance m s)
| reaches_resume (m : Coro R) (s : St) (c : Call Sg) (k : exn + Resp Sg c -> Coro R)
                 (s1 s2 : St) (r : exn + Resp Sg c) (st : Status R) :
    advance m s = Suspended c k s1 ->
    rely s1 s2 ->
    reaches rely (k r) s2 st ->
    reaches rely m s st.

(** [guarantees rely P Q m s]: every suspension of [m] started in [s]
    happens with fields satisfying [P], and every end with a result and
    fields satisfying [Q]. *)
Fixpoint guarantees (rely : St -> St -> Prop) {R : Type}
         (P : St -> Prop) (Q : exn + R -> St -> Prop) (m : Coro R) (s : St) : Prop :=
  match m with
  | Ret r => Q (inr r) s
  | Raise e => Q (inl e) s
  | Get k => guarantees rely P Q (k s) s
  | Put s' k => guarantees rely P Q k s'
  | Await c k => P s /\ forall r s', rely s s' -> guarantees rely P Q (k r) s'
  end.

Definition holds_at {R : Type} (P : St -> Prop) (Q : exn + R -> St -> Prop)
           (st : Status R) : Prop :=
  match st with
  | Finished r s => Q r s
  | Suspended _ _ s => P s
  end.

(** *** Running to the end against an environment *)

(** One awaited call, and the exception it raised if it raised. *)
Record Event : Type := MkEvent { ev_call : Call Sg; ev_raised : option exn }.

Definition raised_of {T : Type} (r : exn + T) : option exn :=
  match r with inl e => Some e | inr _ => None end.

Record Outcome (W R : Type) : Type := MkOutcome {
  result : exn + R;      (* returned value, or the exception that escaped *)
  final : St;            (* the object's fields afterwards *)
  world : W;             (* the environment afterwards *)
  trace : list Event     (* the awaited calls, in order *)
}.

Global Arguments MkOutcome {W R}.
Global Arguments result {W R}.
Global Arguments final {W R}.
Global Arguments world {W R}.
Global Arguments trace {W R}.

Definition logged {W R : Type} (ev : Event) (o : Outcome W R) : Outcome W R :=
  MkOutcome (result o) (final o) (world o) (ev :: trace o).

(** [o], after the calls [t]. *)
Definition logged_all {W R : Type} (t : list Event) (o : Outcome W R) : Outcome W R :=
  MkOutcome (result o) (final o) (world o) (t ++ trace o).

(** [o], then what [f] does from where [o] ended. *)
Definition and_then {W A B : Type} (o : Outcome W A)
           (f : exn + A -> St -> W -> Outcome W B) : Outcome W B :=
  let o' := f (result o) (final o) (world o) in
  MkOutcome (result o') (final o') (world o') (trace o ++ trace o').

Section Run.
Context {W : Type} (env : forall c : Call Sg, W -> (exn + Resp Sg c) * W).

Fixpoint run {R : Type} (m : Coro R) (s : St) (w : W) : Outcome W R :=
  match m with
  | Ret r => MkOutcome (inr r) s w []
  | Raise e => MkOutcome (inl e) s w []
  | Get k => run (k s) s w
  | Put s' k => run k s' w
  | Await c k =>
      let a := env c w in
      logged (MkEvent c (raised_of (fst a))) (run (k (fst a)) s (snd a))
  end.
End Run.
End Coroutine.

Global Arguments Coro : clear implicits.
Global Arguments Status : clear implicits.
Global Arguments Event : clear implicits.
Global Arguments Outcome : clear implicits.

Global Instance coro_ret {St Sg} : MRet (Coro St Sg) := fun _ r => Ret r.
Global Instance coro_bind {St Sg} : MBind (Coro St Sg) := fun _ _ f m => bind m f.

(** The calls of a trace, without their outcomes. *)
Definition calls {Sg : Sig} (t : list (Event Sg)) : list (Call Sg) := map ev_call t.

(** ** The funds collector ([services/collector.py]) *)

Module Collector.

(** One entry of [node.get_address_utxos]: [u['txid']], [u['vout']],
    [u['amount']] and [u.get('confirmations', 0)]. *)
Record UTXO : Type := MkUTXO {
  txid : string;
  vout : Z;
  amount : float;
  confirmations : option Z
}.

(** [{'txid': u['txid'], 'vout': u['vout']}] *)
Record TxInput : Type := MkTxInput { in_txid : string; in_vout : Z }.

(** What [node.sign_raw_transaction] returns: [signed_tx['hex']] and
    [signed_tx.get('complete', False)]. *)
Record SignedTx : Type := MkSignedTx { hex : string; complete : option bool }.

Inductive NodeCall : Type :=
| GetAddressUtxos (address : string)
| CreateRawTransaction (inputs : list TxInput) (outputs : gmap string float)
| SignRawTransaction (raw_tx : string) (private_keys : list string)
| SendTransaction (raw_tx : string)
| Sleep (seconds : Z).

Definition NodeResp (c : NodeCall) : Type :=
  match c with
  | GetAddressUtxos _ => list UTXO
  | CreateRawTransaction _ _ => string
  | SignRawTransaction _ _ => SignedTx
  | SendTransaction _ => string
  | Sleep _ => unit
  end.

Definition NodeSig : Sig := MkSig NodeCall NodeResp.

(** The fields of a [FundsCollector]; [self.node] is the environment. *)
Record FundsCollector : Type := MkFundsCollector {
  master_address : string;
  collection_fee : float;
  min_collection_amount : float;
  is_processing : bool
}.

(** [FundsCollector.__init__(node, master_address, fee=0.0001)] *)
Definition init (master : string) (fee : float) : FundsCollector :=
  MkFundsCollector master fee 0.001%float false.

Definition default_fee : float := 0.0001%float.

Definition set_is_processing (b : bool) (self : FundsCollector) : FundsCollector :=
  MkFundsCollector (master_address self) (collection_fee self)
                   (min_collection_amount self) b.

(** The dictionary [collect_from_address] returns.  The success
    dictionary has every key but ['error']; the failure dictionary has
    only ['success'], ['error'] and ['from_address'].  The ['timestamp']
    key (a reading of the event loop's clock) is left out. *)
Record CollectionResult : Type := MkCollectionResult {
  success : bool;
  res_txid : option string;
  error : option string;
  from_address : string;
  to_address : option string;
  res_amount : option float;
  res_fee : option float;
  res_total : option float;
  utxo_count : option nat
}.

Definition success_result (tx source master : string) (amt fee total : float) (n : nat)
  : CollectionResult :=
  MkCollectionResult true (Some tx) None source (Some master)
                     (Some amt) (Some fee) (Some total) (Some n).

Definition failure_result (e : exn) (source : string) : CollectionResult :=
  MkCollectionResult false None (Some e) source None None None None None.

Abbreviation M := (Coro FundsCollector NodeSig).

(** The generic operations at the collector's fields and calls. *)
Definition self {A : Type} (f : FundsCollector -> A) : M A := read f.
Definition assign (f : FundsCollector -> FundsCollector) : M unit := modify f.
Definition call (c : NodeCall) : M (NodeResp c) := await (Sg:=NodeSig) c.

(** [u.get('confirmations', 0) >= 1] *)
Definition is_confirmed (u : UTXO) : bool := 1 <=? default 0 (confirmations u).

(** [sum(u['amount'] for u in confirmed_utxos)]: the amounts are added
    to [0] one after the other, each addition rounded. *)
Definition sum_amounts (us : list UTXO) : float :=
  fold_left PrimFloat.add (map amount us) 0%float.

(** Truth value of an optional string: [None] and [''] are false. *)
Definition truthy (k : option string) : bool :=
  match k with
  | Some s => negb (String.eqb s EmptyString)
  | None => false
  end.

Definition list_truthy {A : Type} (l : list A) : bool :=
  match l with [] => false | _ => true end.

(** Lines 46-109: the body of the [try]. *)
Definition collect_body (source_address : string) (private_key : option string)
  : M (option CollectionResult) :=
  utxos ← call (GetAddressUtxos source_address);
  if negb (list_truthy utxos) then mret None else
  let confirmed_utxos := List.filter is_confirmed utxos in
  if negb (list_truthy confirmed_utxos) then mret None else
  let total_amount := sum_amounts confirmed_utxos in
  min_amount ← self min_collection_amount;
  if (total_amount <? min_amount)%float then mret None else
  fee ← self collection_fee;
  let amount_to_send := (total_amount - fee)%float in
  if (amount_to_send <=? 0)%float then mret None else
  let inputs := map (fun u => MkTxInput (txid u) (vout u)) confirmed_utxos in
  master ← self master_address;
  let outputs : gmap string float := {[ master := amount_to_send ]} in
  raw_tx ← call (CreateRawTransaction inputs outputs);
  signed ←
    (if truthy private_key then
       signed_tx ← call (SignRawTransaction raw_tx [default EmptyString private_key]);
       if negb (default false (complete signed_tx)) then mret None
       else mret (Some (hex signed_tx))
     else mret (Some raw_tx));
  match signed with
  | None => mret None
  | Some raw_tx =>
      tx ← call (SendTransaction raw_tx);
      master ← self master_address;
      fee ← self collection_fee;
      mret (Some (success_result tx source_address master amount_to_send fee
                                 total_amount (length confirmed_utxos)))
  end.

(** [FundsCollector.collect_from_address] *)
Definition collect_from_address (source_address : string) (private_key : option string)
  : M (option CollectionResult) :=
  busy ← self is_processing;
  if (busy : bool) then mret None else
  (_ ← assign (set_is_processing true);
   try_finally
     (try_except (collect_body source_address private_key)
                 (fun e => mret (Some (failure_result e source_address))))
     (assign (set_is_processing false))).

(** The dictionary [collect_multiple] returns. *)
Record BatchResult : Type := MkBatchResult {
  total : nat;
  successful : nat;
  failed : nat;
  collections : list CollectionResult;
  total_collected : float;
  total_fees : float
}.

(** Lines 151-159: the counters and the list after one call returned
    [result].  A result dictionary is never empty, so [if result] tests
    for [None]. *)
Definition record_result (results : BatchResult) (result : option CollectionResult)
  : BatchResult :=
  match result with
  | Some r =>
      if success r then
        MkBatchResult (total results) (S (successful results)) (failed results)
                      (collections results ++ [r])
                      (total_collected results + default 0 (res_amount r))%float
                      (total_fees results + default 0 (res_fee r))%float
      else
        MkBatchResult (total results) (successful results) (S (failed results))
                      (collections results ++ [r])
                      (total_collected results) (total_fees results)
  | None =>
      MkBatchResult (total results) (successful results) (S (failed results))
                    (collections results)
                    (total_collected results) (total_fees results)
  end.

(** Lines 164-171: the [except] branch of the loop body. *)
Definition record_error (results : BatchResult) (address : string) (e : exn)
  : BatchResult :=
  MkBatchResult (total results) (successful results) (S (failed results))
                (collections results ++ [failure_result e address])
                (total_collected results) (total_fees results).

(** Lines 146-171: the [for] loop.  [results] is a local dictionary that is
    updated in place inside the [try]; the handler sees the updates made
    before the exception, which the two nested handlers spell out. *)
Fixpoint collect_loop (addresses : list string) (private_keys : gmap string string)
         (results : BatchResult) : M BatchResult :=
  match addresses with
  | [] => mret results
  | address :: rest =>
      results' ←
        try_except
          (result ← collect_from_address address (private_keys !! address);
           let results1 := record_result results result in
           try_except (_ ← call (Sleep 2); mret results1)
                      (fun e => mret (record_error results1 address e)))
          (fun e => mret (record_error results address e));
      collect_loop rest private_keys results'
  end.

(** [FundsCollector.collect_multiple] *)
Definition collect_multiple (addresses : list string)
           (private_keys : option (gmap string string)) : M BatchResult :=
  collect_loop addresses (default ∅ private_keys)
               (MkBatchResult (length addresses) 0 0 [] 0 0).

(** *** The node

    [self.node], an implementation of [BaseNode]: each method returns or
    raises, and may change the node's own state [W]. *)
Record Node (W : Type) : Type := MkNode {
  get_address_utxos : string -> W -> (exn + list UTXO) * W;
  create_raw_transaction : list TxInput -> gmap string float -> W -> (exn + string) * W;
  sign_raw_transaction : string -> list string -> W -> (exn + SignedTx) * W;
  send_transaction : string -> W -> (exn + string) * W
}.

Global Arguments get_address_utxos {W}.
Global Arguments create_raw_transaction {W}.
Global Arguments sign_raw_transaction {W}.
Global Arguments send_transaction {W}.

(** The environment of a collector: the node answers its four methods,
    [asyncio.sleep] returns. *)
Definition node_env {W : Type} (node : Node W) (c : NodeCall)
  : W -> (exn + NodeResp c) * W :=
  match c with
  | GetAddressUtxos a => get_address_utxos node a
  | CreateRawTransaction i o => create_raw_transaction node i o
  | SignRawTransaction r k => sign_raw_transaction node r k
  | SendTransaction r => send_transaction node r
  | Sleep _ => fun w => (inr tt, w)
  end.

Definition exec {W R : Type} (node : Node W) (m : M R) (s : FundsCollector) (w : W)
  : Outcome FundsCollector NodeSig W R :=
  run (Sg:=NodeSig) (node_env node) m s w.

(** *** Vocabulary of the properties *)

(** What [collect_from_address] makes of the outcome of its [try] body:
    the handler turns an exception into the failure dictionary, the
    [finally] clause clears the flag. *)
Definition wrapped {W : Type} (source : string)
           (o : Outcome FundsCollector NodeSig W (option CollectionResult))
  : Outcome FundsCollector NodeSig W (option CollectionResult) :=
  MkOutcome (match result o with
             | inl e => inr (Some (failure_result e source))
             | inr r => inr r
             end)
            (set_is_processing false (final o)) (world o) (trace o).

(** A node that builds, signs to completion and broadcasts whatever it
    is given. *)
Definition cooperative {W : Type} (node : Node W) : Prop :=
  (forall i o w, exists raw w', create_raw_transaction node i o w = (inr raw, w')) /\
  (forall r k w, exists sg w',
      sign_raw_transaction node r k w = (inr sg, w') /\
      default false (complete sg) = true) /\
  (forall r w, exists tx w', send_transaction node r w = (inr tx, w')).

(** A node whose [sign_raw_transaction] returns, never with
    [complete] true. *)
Definition signs_incomplete {W : Type} (node : Node W) : Prop :=
  forall raw keys w, exists sg w',
    sign_raw_transaction node raw keys w = (inr sg, w') /\
    default false (complete sg) = false.

(** The other coroutines leave the guard flag alone: a competing
    [collect_from_address] returns before it writes (see [rejects]), and
    no other method writes the flag. *)
Definition same_flag (s s' : FundsCollector) : Prop :=
  is_processing s' = is_processing s.

(** In [s], a call of [collect_from_address] ends at once with [None]:
    no await is reached and no field is written. *)
Definition rejects (s : FundsCollector) : Prop :=
  forall source key, advance (collect_from_address source key) s = Finished (inr None) s.

(** In [s], a call of [collect_from_address] takes the guard and gets to
    its first await, the fetch of the UTXOs. *)
Definition admits (s : FundsCollector) : Prop :=
  forall source key, exists k,
    advance (collect_from_address source key) s
    = Suspended (Sg:=NodeSig) (GetAddressUtxos source) k (set_is_processing true s).

(** What the guard promises of a job, where it is suspended and where
    it has ended. *)
Definition guarded (st : Status FundsCollector NodeSig (option CollectionResult)) : Prop :=
  match st with
  | Suspended _ _ s => is_processing s = true /\ rejects s
  | Finished r s => is_processing s = false /\ (exists v, r = inr v) /\ admits s
  end.

(** The outcomes of the successive calls of [collect_from_address] that
    the loop of [collect_multiple] makes, each started where the one
    before it ended. *)
Fixpoint jobs {W : Type} (node : Node W) (private_keys : gmap string string)
         (addresses : list string) (s : FundsCollector) (w : W)
  : list (Outcome FundsCollector NodeSig W (option CollectionResult)) :=
  match addresses with
  | [] => []
  | address :: rest =>
      let o := exec node (collect_from_address address (private_keys !! address)) s w in
      o :: jobs node private_keys rest (final o) (world o)
  end.

(** What a call returned ([None] also stands for an escaped exception,
    which [collect_from_address] never has). *)
Definition returned {W : Type}
           (o : Outcome FundsCollector NodeSig W (option CollectionResult))
  : option CollectionResult :=
  match result o with
  | inr r => r
  | inl _ => None
  end.

Definition is_success (r : option CollectionResult) : bool :=
  match r with
  | Some res => success res
  | None => false
  end.

Definition is_null (r : option CollectionResult) : bool :=
  match r with
  | Some _ => false
  | None => true
  end.

Definition count {A : Type} (f : A -> bool) (l : list A) : nat := length (List.filter f l).

(** The calls of the loop: for each address those of its job, then the
    two seconds of sleep. *)
Definition loop_calls {W : Type}
           (js : list (Outcome FundsCollector NodeSig W (option CollectionResult)))
  : list NodeCall :=
  concat (map (fun j => calls (Sg:=NodeSig) (trace j) ++ [Sleep 2]) js).

(** No UTXO on any address. *)
Definition empty_chain : string -> exn + list UTXO := fun _ => inr [].

(** *** Scenarios *)

Definition utxo_of (a : float) (conf : Z) : UTXO := MkUTXO "t1" 0 a (Some conf).

(** A node without state: [fetch] answers [get_address_utxos], the raw
    transaction is ["raw"], signing returns ["signed"] with
    [complete = done], the broadcast returns [tx]. *)
Definition scripted (fetch : string -> exn + list UTXO) (done : bool) (tx : string)
  : Node unit :=
  MkNode unit
         (fun a w => (fetch a, w))
         (fun _ _ w => (inr "raw"%string, w))
         (fun _ _ w => (inr (MkSignedTx "signed" (Some done)), w))
         (fun _ w => (inr tx, w)).

(** One confirmed UTXO of 0.005 on every address. *)
Definition funded : string -> exn + list UTXO := fun _ => inr [utxo_of 0.005 3].

(** One confirmed UTXO of 0.0005 on every address: above the default fee,
    below the default minimum. *)
Definition dust : string -> exn + list UTXO := fun _ => inr [utxo_of 0.0005 3].

(** Address ["A"] fails with an RPC error, the others are funded. *)
Definition a_fails : string -> exn + list UTXO :=
  fun a => if String.eqb a "A" then inl "RPC error"%string else funded a.

Definition collector0 : FundsCollector := init "M" default_fee.

End Collector.

(** ** The transaction monitor ([services/monitor.py], [api/websocket.py]) *)

Module Monitor.

(** The dictionary that [_send_subscription] and [_send_unsubscription]
    pass to [json.dumps]. *)
Record Message : Type := MkMessage {
  id : string;
  method : string;
  addresses : list string
}.

Definition subscription (address : string) : Message :=
  MkMessage (String.append "sub_" address) "subscribeAddresses" [address].

Definition unsubscription (address : string) : Message :=
  MkMessage (String.append "unsub_" address) "unsubscribeAddresses" [address].

(** The fields of a [WebSocketClient]; [ws_socket] tells whether
    [self.websocket] holds a connection. *)
Record WebSocketClient : Type := MkWebSocketClient {
  ws_url : string;
  ws_socket : bool;
  ws_connected : bool
}.

(** The fields of a [TransactionMonitor].  [node_ws_url] is the URL that
    lines 76-81 compute from the node's configuration. *)
Record TransactionMonitor : Type := MkTransactionMonitor {
  node_ws_url : string;
  websocket : option WebSocketClient;
  connected : bool;
  subscribed_addresses : gset string;
  _running : bool;
  _reconnect_delay : Z;
  _max_reconnect_attempts : Z;
  _reconnect_attempts : Z
}.

(** [TransactionMonitor.__init__] *)
Definition init (url : string) : TransactionMonitor :=
  MkTransactionMonitor url None false ∅ false 5 10 0.

Definition set_websocket (v : option WebSocketClient) (m : TransactionMonitor) :=
  MkTransactionMonitor (node_ws_url m) v (connected m) (subscribed_addresses m)
    (_running m) (_reconnect_delay m) (_max_reconnect_attempts m) (_reconnect_attempts m).
Definition set_connected (v : bool) (m : TransactionMonitor) :=
  MkTransactionMonitor (node_ws_url m) (websocket m) v (subscribed_addresses m)
    (_running m) (_reconnect_delay m) (_max_reconnect_attempts m) (_reconnect_attempts m).
Definition set_subscribed_addresses (v : gset string) (m : TransactionMonitor) :=
  MkTransactionMonitor (node_ws_url m) (websocket m) (connected m) v
    (_running m) (_reconnect_delay m) (_max_reconnect_attempts m) (_reconnect_attempts m).
Definition set_running (v : bool) (m : TransactionMonitor) :=
  MkTransactionMonitor (node_ws_url m) (websocket m) (connected m) (subscribed_addresses m)
    v (_reconnect_delay m) (_max_reconnect_attempts m) (_reconnect_attempts m).
Definition set_reconnect_attempts (v : Z) (m : TransactionMonitor) :=
  MkTransactionMonitor (node_ws_url m) (websocket m) (connected m) (subscribed_addresses m)
    (_running m) (_reconnect_delay m) (_max_reconnect_attempts m) v.

(** A write to a field of the client object [self.websocket] refers to. *)
Definition update_client (f : WebSocketClient -> WebSocketClient) (m : TransactionMonitor) :=
  set_websocket (f <$> websocket m) m.

Inductive TransportCall : Type :=
| WsConnect (url : string)          (* websockets.connect(url) *)
| WsSend (message : Message)        (* connection.send(json.dumps(message)) *)
| WsClose                           (* connection.close() *)
| WsListen                          (* the messages of the connection, until it ends *)
| HandleMessage (message : string)  (* _handle_message(message): decoding, lookup, callback *)
| Sleep (seconds : Z).              (* asyncio.sleep(seconds) *)

(** [WsListen] answers with the messages received and, when the stream
    ended with an exception, that exception. *)
Definition TransportResp (c : TransportCall) : Type :=
  match c with
  | WsListen => (list string * option exn)%type
  | _ => unit
  end.

Definition TransportSig : Sig := MkSig TransportCall TransportResp.

Abbreviation M := (Coro TransactionMonitor TransportSig).

Definition self {A : Type} (f : TransactionMonitor -> A) : M A := read f.
Definition assign (f : TransactionMonitor -> TransactionMonitor) : M unit := modify f.
Definition call (c : TransportCall) : M (TransportResp c) := await (Sg:=TransportSig) c.

(** [WebSocketClient.send] *)
Definition client_send (client : WebSocketClient) (message : Message) : M unit :=
  if ws_connected client && ws_socket client then call (WsSend message) else mret tt.

(** [TransactionMonitor._send_subscription] *)
Definition _send_subscription (address : string) : M unit :=
  ws ← self websocket;
  match ws with
  | None => mret tt
  | Some client => client_send client (subscription address)
  end.

(** [TransactionMonitor._send_unsubscription] *)
Definition _send_unsubscription (address : string) : M unit :=
  ws ← self websocket;
  match ws with
  | None => mret tt
  | Some client => client_send client (unsubscription address)
  end.

Definition has_transport (m : TransactionMonitor) : bool :=
  connected m && bool_decide (is_Some (websocket m)).

(** [TransactionMonitor.subscribe_address] *)
Definition subscribe_address (address : string) : M unit :=
  _ ← assign (fun m => set_subscribed_addresses ({[address]} ∪ subscribed_addresses m) m);
  up ← self has_transport;
  if (up : bool) then _send_subscription address else mret tt.

(** [TransactionMonitor.unsubscribe_address] *)
Definition unsubscribe_address (address : string) : M unit :=
  _ ← assign (fun m =>
               if bool_decide (address ∈ subscribed_addresses m)
               then set_subscribed_addresses (subscribed_addresses m ∖ {[address]}) m
               else m);
  up ← self has_transport;
  if (up : bool) then _send_unsubscription address else mret tt.

(** Lines 91-92: the replay of the tracked addresses. *)
Fixpoint send_subscriptions (l : list string) : M unit :=
  match l with
  | [] => mret tt
  | address :: rest => _ ← _send_subscription address; send_subscriptions rest
  end.

(** [TransactionMonitor._connect]; [WebSocketClient.connect] sets the
    client's two fields when [websockets.connect] returns and raises again
    what it raises. *)
Definition _connect : M unit :=
  try_except
    (url ← self node_ws_url;
     _ ← assign (set_websocket (Some (MkWebSocketClient url false false)));
     _ ← call (WsConnect url);
     _ ← assign (update_client (fun c => MkWebSocketClient (ws_url c) true true));
     _ ← assign (set_connected true);
     _ ← assign (set_reconnect_attempts 0);
     tracked ← self subscribed_addresses;
     send_subscriptions (elements tracked))
    (fun e => _ ← assign (set_connected false); Raise e).

(** [TransactionMonitor._disconnect] with [WebSocketClient.disconnect] *)
Definition _disconnect : M unit :=
  ws ← self websocket;
  match ws with
  | None => mret tt
  | Some client =>
      _ ← (if ws_socket client then
             _ ← call WsClose;
             assign (update_client (fun c => MkWebSocketClient (ws_url c) (ws_socket c) false))
           else mret tt);
      _ ← assign (set_websocket None);
      assign (set_connected false)
  end.

(** Lines 112-119: the loop over the received messages; the result tells
    whether the loop was left by [break]. *)
Fixpoint handle_messages (messages : list string) : M bool :=
  match messages with
  | [] => mret false
  | message :: rest =>
      running ← self _running;
      if negb running then mret true else
      _ ← try_except (call (HandleMessage message)) (fun _ => mret tt);
      handle_messages rest
  end.

(** [TransactionMonitor._listen] with [WebSocketClient.listen], which
    catches what the connection raises and marks the client
    disconnected. *)
Definition _listen : M unit :=
  ws ← self websocket;
  match ws with
  | None => mret tt
  | Some client =>
      if negb (ws_connected client) || negb (ws_socket client) then mret tt else
      stream ← try_except (call WsListen) (fun e => mret ([], Some e));
      broke ← handle_messages (fst stream);
      match broke, snd stream with
      | false, Some _ =>
          assign (update_client (fun c => MkWebSocketClient (ws_url c) (ws_socket c) false))
      | _, _ => mret tt
      end
  end.

(** Line 203 *)
Definition backoff_delay (m : TransactionMonitor) : Z :=
  Z.min (_reconnect_delay m * 2 ^ _reconnect_attempts m) 300.

(** [TransactionMonitor._handle_error] *)
Definition _handle_error (error : exn) : M unit :=
  _ ← _disconnect;
  m ← self (fun m => m);
  if _reconnect_attempts m <? _max_reconnect_attempts m then
    _ ← assign (fun m => set_reconnect_attempts (_reconnect_attempts m + 1) m);
    delay ← self backoff_delay;
    call (Sleep delay)
  else
    assign (set_running false).

(** [TransactionMonitor._run]: [fuel] bounds the number of iterations of
    the [while] loop; [None] is returned when it is used up. *)
Fixpoint _run (fuel : nat) : M (option unit) :=
  match fuel with
  | O => mret None
  | S fuel' =>
      running ← self _running;
      if (running : bool) then
        _ ← try_except (_ ← _connect; _listen) (fun e => _handle_error e);
        _run fuel'
      else mret (Some tt)
  end.

(** [TransactionMonitor.start]; the result tells whether the task running
    [_run] was created. *)
Definition start : M bool :=
  running ← self _running;
  if (running : bool) then mret false else
  _ ← assign (set_running true);
  mret true.

(** [TransactionMonitor.stop] *)
Definition stop : M unit :=
  _ ← assign (set_running false);
  _disconnect.

(** [TransactionMonitor.is_running] *)
Definition is_running : M bool := self _running.

(** [TransactionMonitor.get_subscribed_addresses] *)
Definition get_subscribed_addresses : M (list string) :=
  self (fun m => elements (subscribed_addresses m)).

(** *** The transport *)
Record Transport (W : Type) : Type := MkTransport {
  ws_connect : string -> W -> (exn + unit) * W;
  ws_send : Message -> W -> (exn + unit) * W;
  ws_close : W -> (exn + unit) * W;
  ws_listen : W -> (exn + list string * option exn) * W;
  handle_message : string -> W -> (exn + unit) * W
}.

Global Arguments ws_connect {W}.
Global Arguments ws_send {W}.
Global Arguments ws_close {W}.
Global Arguments ws_listen {W}.
Global Arguments handle_message {W}.

Definition transport_env {W : Type} (tr : Transport W) (c : TransportCall)
  : W -> (exn + TransportResp c) * W :=
  match c with
  | WsConnect url => ws_connect tr url
  | WsSend message => ws_send tr message
  | WsClose => ws_close tr
  | WsListen => ws_listen tr
  | HandleMessage message => handle_message tr message
  | Sleep _ => fun w => (inr tt, w)
  end.

Definition exec {W R : Type} (tr : Transport W) (m : M R) (s : TransactionMonitor) (w : W)
  : Outcome TransactionMonitor TransportSig W R :=
  run (Sg:=TransportSig) (transport_env tr) m s w.

(** The calls of the public interface that change the tracked set. *)
Inductive Request : Type :=
| Subscribe (address : string)
| Unsubscribe (address : string).

Definition serve (r : Request) : M unit :=
  match r with
  | Subscribe a => subscribe_address a
  | Unsubscribe a => unsubscribe_address a
  end.

Fixpoint serve_all (rs : list Request) : M unit :=
  match rs with
  | [] => mret tt
  | r :: rest => _ ← serve r; serve_all rest
  end.

Definition delays (t : list (Event TransportSig)) : list Z :=
  omap (fun c => match c with Sleep d => Some d | _ => None end) (calls t).

Definition connects (t : list (Event TransportSig)) : nat :=
  length (List.filter (fun c => match c with WsConnect _ => true | _ => false end) (calls t)).

Definition sent (t : list (Event TransportSig)) : list Message :=
  omap (fun c => match c with WsSend m => Some m | _ => None end) (calls t).

(** *** Vocabulary of the properties *)

(** The two constants that [__init__] sets and no method writes. *)
Definition configured (m : TransactionMonitor) : Prop :=
  _reconnect_delay m = 5 /\ _max_reconnect_attempts m = 10.

(** A transport on which every [websockets.connect] raises. *)
Definition refuses {W : Type} (tr : Transport W) : Prop :=
  forall url w, exists e w', ws_connect tr url w = (inl e, w').

(** A transport on which closing a connection returns. *)
Definition closes {W : Type} (tr : Transport W) : Prop :=
  forall w, exists w', ws_close tr w = (inr tt, w').

(** Lines 47 and 54-55: what one request does to the tracked set. *)
Definition track (r : Request) (tracked : gset string) : gset string :=
  match r with
  | Subscribe a => {[a]} ∪ tracked
  | Unsubscribe a => if bool_decide (a ∈ tracked) then tracked ∖ {[a]} else tracked
  end.

Definition track_all (rs : list Request) (tracked : gset string) : gset string :=
  fold_left (fun t r => track r t) rs tracked.



(** The client object [_connect] creates (line 83), and the fields after
    lines 83-87, when [websockets.connect] has returned. *)
Definition fresh_client (m : TransactionMonitor) : WebSocketClient :=
  MkWebSocketClient (node_ws_url m) false false.

Definition connecting (m : TransactionMonitor) : TransactionMonitor :=
  set_websocket (Some (fresh_client m)) m.

Definition connected_fields (m : TransactionMonitor) : TransactionMonitor :=
  set_reconnect_attempts 0
    (set_connected true
       (update_client (fun c => MkWebSocketClient (ws_url c) true true) (connecting m))).

(** The fields after [_disconnect]: untouched when there is no client. *)
Definition disconnected_fields (m : TransactionMonitor) : TransactionMonitor :=
  match websocket m with
  | Some _ => set_connected false (set_websocket None m)
  | None => m
  end.

(** The client the monitor refers to, if any, holds no connection. *)
Definition no_socket (m : TransactionMonitor) : Prop :=
  forall c, websocket m = Some c -> ws_socket c = false.

(** What the [except] clause of [_connect] makes of an outcome. *)
Definition connect_handled {W : Type}
           (r : exn + unit) (s : TransactionMonitor) (w : W)
  : Outcome TransactionMonitor TransportSig W unit :=
  match r with
  | inl e => MkOutcome (inl e) (set_connected false s) w []
  | inr v => MkOutcome (inr v) s w []
  end.

(** *** Scenarios *)

(** Transports without state: one that refuses every connection, one
    that accepts it and delivers what is sent. *)
Definition dead : Transport unit :=
  MkTransport unit
              (fun _ w => (inl "refused"%string, w))
              (fun _ w => (inr tt, w))
              (fun w => (inr tt, w))
              (fun w => (inr ([], None), w))
              (fun _ w => (inr tt, w)).


Definition monitor0 : TransactionMonitor := init "wss://book/wss/key".

End Monitor.


(** ** The collector's other methods ([services/collector.py], lines 175-240) *)

Module CollectorPolicy.
Import Collector.

Definition set_collection_fee (v : float) (s : FundsCollector) : FundsCollector :=
  MkFundsCollector (master_address s) v (min_collection_amount s) (is_processing s).

Definition set_min_collection_amount (v : float) (s : FundsCollector) : FundsCollector :=
  MkFundsCollector (master_address s) (collection_fee s) v (is_processing s).

(** [FundsCollector.set_fee] *)
Definition set_fee (fee : float) : M unit :=
  if (fee <? 0)%float then Raise "Fee cannot be negative"
  else assign (set_collection_fee fee).

(** [FundsCollector.set_min_amount] *)
Definition set_min_amount (min_amount : float) : M unit :=
  if (min_amount <? 0)%float then Raise "Minimum amount cannot be negative"
  else assign (set_min_collection_amount min_amount).

(** The dictionary [estimate_collection] returns; which keys it has
    depends on the branch. *)
Record Estimate : Type := MkEstimate {
  can_collect : bool;
  est_address : string;
  reason : option string;
  est_error : option string;
  est_total_amount : option float;
  amount_to_send : option float;
  est_fee : option float;
  est_utxo_count : option nat;
  est_min_amount : option float
}.

Definition cannot_collect (why : string) (address : string) : Estimate :=
  MkEstimate false address (Some why) None None None None None None.

Definition estimate_failed (e : exn) (address : string) : Estimate :=
  MkEstimate false address None (Some e) None None None None None.

(** [FundsCollector.estimate_collection] *)
Definition estimate_collection (address : string) : M Estimate :=
  try_except
    (utxos ← call (GetAddressUtxos address);
     if negb (list_truthy utxos) then mret (cannot_collect "No UTXOs" address) else
     let confirmed_utxos := List.filter is_confirmed utxos in
     if negb (list_truthy confirmed_utxos)
     then mret (cannot_collect "No confirmed UTXOs" address) else
     let total_amount := sum_amounts confirmed_utxos in
     fee ← self collection_fee;
     let to_send := (total_amount - fee)%float in
     min_amount ← self min_collection_amount;
     let can := (0 <? to_send)%float && (min_amount <=? total_amount)%float in
     fee' ← self collection_fee;
     min_amount' ← self min_collection_amount;
     mret (MkEstimate can address
                      (Some (if can then "Sufficient funds" else "Insufficient funds")%string)
                      None
                      (Some total_amount)
                      (Some (if can then to_send else 0%float))
                      (Some fee')
                      (Some (length confirmed_utxos))
                      (Some min_amount')))
    (fun e => mret (estimate_failed e address)).

(** The methods of a collector, as a caller invokes them; their results
    are dropped. *)
Inductive Operation : Type :=
| Collect (source_address : string) (private_key : option string)
| CollectMultiple (addresses : list string) (private_keys : option (gmap string string))
| Estimate_ (address : string)
| SetFee (fee : float)
| SetMinAmount (min_amount : float).

Definition perform (op : Operation) : M unit :=
  match op with
  | Collect a k => _ ← collect_from_address a k; mret tt
  | CollectMultiple l ks => _ ← collect_multiple l ks; mret tt
  | Estimate_ a => _ ← estimate_collection a; mret tt
  | SetFee f => set_fee f
  | SetMinAmount v => set_min_amount v
  end.

Fixpoint perform_all (ops : list Operation) : M unit :=
  match ops with
  | [] => mret tt
  | op :: rest => _ ← try_except (perform op) (fun _ => mret tt); perform_all rest
  end.

(** Neither the fee nor the minimum is negative, by the test of the
    setters: neither is [< 0].  A NaN is not [< 0]. *)
Definition policy_ok (s : FundsCollector) : Prop :=
  (collection_fee s <? 0)%float = false /\ (min_collection_amount s <? 0)%float = false.

(** What a setter does with a value: it raises [message] and writes
    nothing when the value is [< 0], and writes the value otherwise. *)
Definition setter_outcome {W : Type} (o : Outcome FundsCollector NodeSig W unit)
           (value : float) (message : exn) (s written : FundsCollector) (w : W) : Prop :=
  o = if (value <? 0)%float
      then MkOutcome (inl message) s w []
      else MkOutcome (inr tt) written w [].

(** None of the minimum, the confirmed total and the amount to send is a
    NaN: the comparisons of the collector and of the estimate are then
    complementary. *)
Definition numbers (s : FundsCollector) (utxos : list UTXO) : Prop :=
  let total := sum_amounts (List.filter is_confirmed utxos) in
  is_nan (min_collection_amount s) = false /\
  is_nan total = false /\
  is_nan (total - collection_fee s) = false.

(** [{'txid': u['txid'], 'vout': u['vout']}] for each UTXO (line 79). *)
Definition inputs_of (us : list UTXO) : list TxInput :=
  map (fun u => MkTxInput (txid u) (vout u)) us.

(** The sum of [f] over the successes of a list of results, added to [0]
    in the order of the list. *)
Definition sum_successes (f : CollectionResult -> option float) (rs : list CollectionResult)
  : float :=
  fold_left PrimFloat.add (map (fun r => default 0%float (f r)) (List.filter success rs))
            0%float.

(** The totals of a batch are the sums over the successes it lists. *)
Definition books_agree (b : BatchResult) : Prop :=
  total_collected b = sum_successes res_amount (collections b) /\
  total_fees b = sum_successes res_fee (collections b).

End CollectorPolicy.

(** ** The monitor: vocabulary of further properties *)

Module MonitorScenes.
Import Monitor.

(** [start()], then the task it creates, if it creates one. *)
Definition start_and_run (fuel : nat) : M (option unit) :=
  spawned ← start;
  if (spawned : bool) then _run fuel else mret (Some tt).

(** A transport on which every [websockets.connect] returns. *)
Definition accepts {W : Type} (tr : Transport W) : Prop :=
  forall url w, exists w', ws_connect tr url w = (inr tt, w').

(** A transport on which every send raises. *)
Definition drops_sends {W : Type} (tr : Transport W) : Prop :=
  forall message w, exists e w', ws_send tr message w = (inl e, w').

(** A transport on which every send returns. *)
Definition delivers {W : Type} (tr : Transport W) : Prop :=
  forall message w, exists w', ws_send tr message w = (inr tt, w').

(** The monitor is connected through a client that holds an open
    connection. *)
Definition online (m : TransactionMonitor) : Prop :=
  connected m = true /\
  exists url, websocket m = Some (MkWebSocketClient url true true).

(** Line 52 of [api/websocket.py]: the client is marked disconnected. *)
Definition client_lost (m : TransactionMonitor) : TransactionMonitor :=
  update_client (fun c => MkWebSocketClient (ws_url c) (ws_socket c) false) m.

Definition closings (t : list (Event TransportSig)) : nat :=
  length (List.filter (fun c => match c with WsClose => true | _ => false end) (calls t)).

Definition handled (t : list (Event TransportSig)) : list string :=
  omap (fun c => match c with HandleMessage m => Some m | _ => None end) (calls t).

(** A transport that accepts every connection and on which every send
    raises. *)
Definition deaf : Transport unit :=
  MkTransport unit
              (fun _ w => (inr tt, w))
              (fun _ w => (inl "send failed"%string, w))
              (fun w => (inr tt, w))
              (fun w => (inr ([], None), w))
              (fun _ w => (inr tt, w)).

(** A transport that delivers two messages on every connection and then
    ends the stream with an exception; the handler of the first raises. *)
Definition chatty : Transport unit :=
  MkTransport unit
              (fun _ w => (inr tt, w))
              (fun _ w => (inr tt, w))
              (fun w => (inr tt, w))
              (fun w => (inr (["m1"; "m2"]%string, Some "closed"%string), w))
              (fun m w => if String.eqb m "m1" then (inl "bad message"%string, w)
                          else (inr tt, w)).

(** The initial monitor, started, tracking one address. *)
Definition watching : TransactionMonitor :=
  set_running true (set_subscribed_addresses {[ "a"%string ]} monitor0).

(** [watching] after a connection was made. *)
Definition watching_online : TransactionMonitor := connected_fields watching.

End MonitorScenes.

(** ** The handling of one message ([services/monitor.py], lines 121-155
    and 189-195)

    [HandleMessage] above stands for all of [_handle_message]; here the
    method is embedded itself.  The decoder [json.loads], the node's
    [get_transaction] and the registered callback are the environment. *)

Module MessageHandling.

(** A decoded JSON value.  An object is the list of the items of a Python
    dictionary, so its keys are distinct. *)
#[warnings="-register-all"]
Inductive json : Type :=
| JNull
| JBool (b : bool)
| JNum (q : Q)
| JStr (s : string)
| JArr (items : list json)
| JObj (fields : list (string * json)).

(** Python's truth value of a decoded value. *)
Definition truth (j : json) : bool :=
  match j with
  | JNull => false
  | JBool b => b
  | JNum q => negb (Qeq_bool q 0)
  | JStr s => negb (String.eqb s EmptyString)
  | JArr items => match items with [] => false | _ => true end
  | JObj fields => match fields with [] => false | _ => true end
  end.

Fixpoint assoc (key : string) (fields : list (string * json)) : option json :=
  match fields with
  | [] => None
  | (k, v) :: rest => if String.eqb k key then Some v else assoc key rest
  end.

(** The [AttributeError] of [.get] on a value that is not a dictionary;
    its message is only logged. *)
Definition no_get : exn := "object has no attribute 'get'".

(** [d.get(key, fallback)] *)
Definition get (d : json) (key : string) (fallback : json) : exn + json :=
  match d with
  | JObj fields => inr (default fallback (assoc key fields))
  | _ => inl no_get
  end.

(** [j == s] for a string [s] *)
Definition is_str (j : json) (s : string) : bool :=
  match j with
  | JStr s' => String.eqb s' s
  | _ => false
  end.

(** The dictionary handed to the callback: ['type'] is
    ['address_transaction'] or ['new_block']. *)
Inductive InboundEvent : Type :=
| AddressTransaction (address : json) (transaction : json)
| NewBlock (block : json).

Inductive HandlerCall : Type :=
| JsonLoads (message : string)       (* json.loads(message) *)
| GetTransaction (txid : json)       (* self.node.get_transaction(txid) *)
| OnTransaction (event : InboundEvent). (* self.on_transaction(event) *)

Definition HandlerResp (c : HandlerCall) : Type :=
  match c with
  | JsonLoads _ => json
  | GetTransaction _ => json
  | OnTransaction _ => unit
  end.

Definition HandlerSig : Sig := MkSig HandlerCall HandlerResp.

(** The field of the monitor that the method reads: whether
    [self.on_transaction] holds a callback. *)
Record Listener : Type := MkListener { on_transaction : bool }.

Abbreviation M := (Coro Listener HandlerSig).

Definition self {A : Type} (f : Listener -> A) : M A := read f.
Definition call (c : HandlerCall) : M (HandlerResp c) := await (Sg:=HandlerSig) c.

(** A value, or the exception raised in computing it. *)
Definition lift {A : Type} (r : exn + A) : M A :=
  match r with
  | inl e => Raise e
  | inr v => Ret v
  end.

(** [TransactionMonitor._get_transaction_details] *)
Definition _get_transaction_details (txid : json) : M json :=
  try_except (call (GetTransaction txid)) (fun _ => mret JNull).

(** [TransactionMonitor._handle_message]; both [except] clauses only
    log. *)
Definition _handle_message (message : string) : M unit :=
  try_except
    (data ← call (JsonLoads message);
     method ← lift (get data "method" JNull);
     if is_str method "subscribeAddresses" then
       address_data ← lift (get data "data" (JObj []));
       address ← lift (get address_data "address" JNull);
       tx ← lift (get address_data "tx" (JObj []));
       callback ← self on_transaction;
       if truth address && truth tx && callback then
         txid ← lift (get tx "txid" JNull);
         tx_info ← _get_transaction_details txid;
         if truth tx_info
         then call (OnTransaction (AddressTransaction address tx_info))
         else mret tt
       else mret tt
     else if is_str method "subscribeNewBlock" then
       block_data ← lift (get data "data" (JObj []));
       callback ← self on_transaction;
       if truth block_data && callback
       then call (OnTransaction (NewBlock block_data))
       else mret tt
     else mret tt)
    (fun _ => mret tt).

(** The decoder, the node and the callback. *)
Record Handlers (W : Type) : Type := MkHandlers {
  json_loads : string -> exn + json;
  get_transaction : json -> W -> (exn + json) * W;
  callback : InboundEvent -> W -> (exn + unit) * W
}.

Global Arguments json_loads {W}.
Global Arguments get_transaction {W}.
Global Arguments callback {W}.

Definition handlers_env {W : Type} (h : Handlers W) (c : HandlerCall)
  : W -> (exn + HandlerResp c) * W :=
  match c with
  | JsonLoads message => fun w => (json_loads h message, w)
  | GetTransaction txid => get_transaction h txid
  | OnTransaction event => callback h event
  end.

Definition exec {W R : Type} (h : Handlers W) (m : M R) (s : Listener) (w : W)
  : Outcome Listener HandlerSig W R :=
  run (Sg:=HandlerSig) (handlers_env h) m s w.

Definition deliveries (t : list (Event HandlerSig)) : list InboundEvent :=
  omap (fun c => match c with OnTransaction ev => Some ev | _ => None end) (calls t).

Definition lookups (t : list (Event HandlerSig)) : list json :=
  omap (fun c => match c with GetTransaction txid => Some txid | _ => None end) (calls t).

(** A decoded address message: [{"method": "subscribeAddresses",
    "data": {"address": a, "tx": {"txid": t}}}], with further keys after
    them. *)
Definition address_message (a t : json) (more : list (string * json)) : json :=
  JObj [("method", JStr "subscribeAddresses");
        ("data", JObj [("address", a); ("tx", JObj (("txid", t) :: more))])]%string.

(** A decoded block message. *)
Definition block_message (block : json) : json :=
  JObj [("method", JStr "subscribeNewBlock"); ("data", block)]%string.

(** Scenario: the decoder knows one address message, the lookup returns
    a transaction, the callback is called. *)
Definition tx_detail : json := JObj [("txid", JStr "t1")]%string.

Definition scripted_handlers : Handlers unit :=
  MkHandlers unit
             (fun message =>
                if String.eqb message "addr"
                then inr (address_message (JStr "a1") (JStr "t1") [])
                else inl "Expecting value"%string)
             (fun _ w => (inr tx_detail, w))
             (fun _ w => (inr tt, w)).

End MessageHandling.

(** ** The node factory ([core/node_factory.py]) *)

Module Factory.

(** A value of a configuration dictionary. *)
Inductive value : Type :=
| VStr (s : string)
| VInt (z : Z).

(** A configuration dictionary; it is passed on as keyword arguments, so
    the order of its keys does not matter. *)
Abbreviation Config := (gmap string value).

(** The node classes: the three of the package and those a caller
    registers. *)
Inductive NodeClass : Type :=
| LitecoinNode
| DogecoinNode
| BitcoinNode
| Custom (name : string).

(** A dictionary whose order of keys is observed ([_node_classes], whose
    keys are joined into an error message): the list of its items.
    [dict_set] is [d[k] = v]: a present key keeps its place, a new key goes
    to the end. *)
Fixpoint dict_get {A : Type} (k : string) (d : list (string * A)) : option A :=
  match d with
  | [] => None
  | (k', v) :: rest => if String.eqb k' k then Some v else dict_get k rest
  end.

Fixpoint dict_set {A : Type} (k : string) (v : A) (d : list (string * A))
  : list (string * A) :=
  match d with
  | [] => [(k, v)]
  | (k', v') :: rest =>
      if String.eqb k' k then (k, v) :: rest else (k', v') :: dict_set k v rest
  end.

Definition keys {A : Type} (d : list (string * A)) : list string := map fst d.

(** The two class attributes of [NodeFactory]. *)
Record Registry : Type := MkRegistry {
  _node_classes : list (string * NodeClass);
  _default_configs : gmap string Config
}.

Definition default_config (blockbook rpc symbol name : string) : Config :=
  {[ "blockbook_url"%string := VStr blockbook;
     "rpc_url"%string := VStr rpc;
     "network"%string := VStr "mainnet";
     "decimals"%string := VInt 8;
     "coin_symbol"%string := VStr symbol;
     "coin_name"%string := VStr name ]}.

(** Lines 19-51 *)
Definition initial : Registry :=
  MkRegistry
    [("LTC", LitecoinNode); ("DOGE", DogecoinNode); ("BTC", BitcoinNode)]%string
    {[ "LTC"%string := default_config "https://ltcbook.nownodes.io"
                                      "https://ltc.nownodes.io" "LTC" "Litecoin";
       "DOGE"%string := default_config "https://dogebook.nownodes.io"
                                       "https://doge.nownodes.io" "DOGE" "Dogecoin";
       "BTC"%string := default_config "https://btcbook.nownodes.io"
                                      "https://btc.nownodes.io" "BTC" "Bitcoin" ]}.

(** Truth value of an optional string and of an optional dictionary. *)
Definition str_truthy (k : option string) : bool :=
  match k with
  | Some s => negb (String.eqb s EmptyString)
  | None => false
  end.

Definition config_truthy (c : option Config) : bool :=
  match c with
  | Some c => negb (bool_decide (c = ∅))
  | None => false
  end.

Section Upper.
(** [str.upper] *)
Variable upper : string -> string.

(** [NodeFactory.register_coin] *)
Definition register_coin (coin_symbol : string) (node_class : NodeClass)
           (config : option Config) (r : Registry) : Registry :=
  let coin_symbol := upper coin_symbol in
  MkRegistry (dict_set coin_symbol node_class (_node_classes r))
             (if config_truthy config
              then <[coin_symbol := default ∅ config]> (_default_configs r)
              else _default_configs r).

Definition unsupported (coin_type : string) (r : Registry) : exn :=
  String.append "Unsupported coin type: "
    (String.append coin_type
       (String.append ". Supported: " (String.concat ", " (keys (_node_classes r))))).

Definition no_api_key : exn :=
  "API key is required. Provide via api_key parameter or config.".

(** Lines 89-121 of [NodeFactory.create]: the class and the keyword
    arguments of the constructor call of line 122, or the [ValueError]
    raised before it.  [d.update(e)] is [e ∪ d]. *)
Definition create_arguments (r : Registry) (coin_type : string) (api_key : option string)
           (config : option Config) (kwargs : Config)
  : exn + NodeClass * Config :=
  let coin_type := upper coin_type in
  match dict_get coin_type (_node_classes r) with
  | None => inl (unsupported coin_type r)
  | Some node_class =>
      let final_config : Config := ∅ in
      let final_config :=
        match _default_configs r !! coin_type with
        | Some d => d ∪ final_config
        | None => final_config
        end in
      let final_config :=
        if config_truthy config then default ∅ config ∪ final_config else final_config in
      let with_key : exn + Config :=
        if str_truthy api_key
        then inr (<["api_key"%string := VStr (default EmptyString api_key)]> final_config)
        else if bool_decide ("api_key"%string ∈ dom final_config)
             then inr final_config
             else inl no_api_key in
      match with_key with
      | inl e => inl e
      | inr final_config =>
          let final_config := kwargs ∪ final_config in
          let final_config := <["coin_type"%string := VStr coin_type]> final_config in
          inr (node_class, final_config)
      end
  end.

(** The constructor call of line 122, the class applied to the keyword
    arguments [final_config]: it returns the
    instance or raises. *)
Context {Instance : Type}.
Variable construct : NodeClass -> Config -> exn + Instance.

(** [NodeFactory.create] *)
Definition create (r : Registry) (coin_type : string) (api_key : option string)
           (config : option Config) (kwargs : Config) : exn + Instance :=
  match create_arguments r coin_type api_key config kwargs with
  | inl e => inl e
  | inr (node_class, final_config) => construct node_class final_config
  end.

(** [NodeFactory.get_supported_coins] *)
Definition get_supported_coins (r : Registry) : list string := keys (_node_classes r).

(** [NodeFactory.get_coin_config] *)
Definition get_coin_config (r : Registry) (coin_type : string) : Config :=
  default ∅ (_default_configs r !! upper coin_type).
End Upper.

(** The keyword arguments of [create] are never named after one of its
    parameters: Python binds such a keyword to the parameter. *)
Definition keyword_arguments (kwargs : Config) : Prop :=
  kwargs !! "coin_type"%string = None /\
  kwargs !! "api_key"%string = None /\
  kwargs !! "config"%string = None.

(** What the sources of a configuration say about a key, by precedence:
    the first of the dictionaries that has the key. *)
Fixpoint by_precedence (k : string) (sources : list Config) : option value :=
  match sources with
  | [] => None
  | c :: rest =>
      match c !! k with
      | Some v => Some v
      | None => by_precedence k rest
      end
  end.

(** [str.upper] on the letters [a]-[z]; scenarios use it on ASCII words,
    where it is [str.upper]. *)
Definition upper_char (c : Ascii.ascii) : Ascii.ascii :=
  let n := Ascii.nat_of_ascii c in
  if (97 <=? n)%nat && (n <=? 122)%nat then Ascii.ascii_of_nat (n - 32) else c.

(** A constructor for the scenarios, after [BlockbookClient.__init__],
    which calls [rstrip] on the URL: it raises when [blockbook_url] is not
    a string, and returns the class with its arguments otherwise. *)
Definition strict_constructor (node_class : NodeClass) (cfg : Config)
  : exn + NodeClass * Config :=
  match cfg !! "blockbook_url"%string with
  | Some (VInt _) => inl "'int' object has no attribute 'rstrip'"%string
  | _ => inr (node_class, cfg)
  end.

Fixpoint ascii_upper (s : string) : string :=
  match s with
  | EmptyString => EmptyString
  | String c rest => String (upper_char c) (ascii_upper rest)
  end.

End Factory.

(** ** The RPC client and the node's calls through it ([api/rpc.py],
    [core/litecoin.py])

    [RPCClient.call] posts a JSON-RPC request and turns every failure into
    a dictionary with the key [error]; [LitecoinNode.send_transaction] and
    [LitecoinNode.sign_raw_transaction] await it and raise when the answer
    has that key.  The HTTP session is the environment of the client, and
    the client is the environment of the node. *)

From Stdlib Require DecimalString.

Module Rpc.
Import MessageHandling.

(** What the Python runtime puts into the text of a message: [str] of an
    integer and of a decoded value, the messages of the [TypeError] of
    [key in v] and of [v[key]] and of the [AttributeError] of [v.get] on a
    value [v] that does not support the operation, and [str] of the
    [asyncio.TimeoutError] of a request. *)
Record Runtime : Type := MkRuntime {
  str_int : Z -> string;
  str_json : json -> string;
  not_container : json -> exn;
  not_subscriptable : json -> exn;
  no_attribute_get : json -> exn;
  str_timeout : exn
}.

(** An awaited HTTP operation returns, raises [asyncio.TimeoutError], or
    raises another [Exception]; [call] tells the timeout apart, so it is
    an answer of its own here and [inl] stands for the other exceptions. *)
Inductive Reply (A : Type) : Type :=
| TimedOut
| Replied (a : A).

Arguments TimedOut {A}.
Arguments Replied {A} a.

Inductive HttpCall : Type :=
| Post (url : string) (headers : list (string * string)) (payload : json)
    (* async with self.session.post(url, headers=..., json=payload, timeout=...) *)
| ResponseJson    (* await response.json() *)
| ResponseText.   (* await response.text() *)

Definition HttpResp (c : HttpCall) : Type :=
  match c with
  | Post _ _ _ => Reply Z     (* response.status *)
  | ResponseJson => Reply json
  | ResponseText => Reply string
  end.

Definition HttpSig : Sig := MkSig HttpCall HttpResp.

Record RPCClient : Type := MkRPCClient {
  rpc_url : string;
  headers : list (string * string);
  session : bool            (* whether [self.session] holds a session *)
}.

Definition open_session (c : RPCClient) : RPCClient :=
  MkRPCClient (rpc_url c) (headers c) true.

Definition lift {St : Type} {Sg : Sig} {A : Type} (r : exn + A) : Coro St Sg A :=
  match r with
  | inl e => Raise e
  | inr v => Ret v
  end.

(** [{'error': v}] *)
Definition error_dict (v : json) : json := JObj [("error"%string, v)].

Definition is_none (j : json) : bool :=
  match j with
  | JNull => true
  | _ => false
  end.

(** The request of [call]. *)
Definition payload_of (method : string) (params : list json) : json :=
  JObj [("jsonrpc", JStr "1.0"); ("id", JStr "node_manager");
        ("method", JStr method); ("params", JArr params)]%string.

Section Python.
Variable py : Runtime.

(** [key in v] *)
Definition contains (key : string) (v : json) : exn + bool :=
  match v with
  | JObj fields => inr (bool_decide (is_Some (assoc key fields)))
  | JArr items => inr (existsb (fun j => is_str j key) items)
  | JStr s => inr (bool_decide (is_Some (String.index 0 key s)))
  | _ => inl (not_container py v)
  end.

(** [v[key]] for a string [key]; the [KeyError] of a dictionary has the
    [repr] of the key as its text. *)
Definition item (v : json) (key : string) : exn + json :=
  match v with
  | JObj fields =>
      match assoc key fields with
      | Some x => inr x
      | None => inl (String.append "'" (String.append key "'"))
      end
  | _ => inl (not_subscriptable py v)
  end.

(** [v.get(key, fallback)] *)
Definition get_or (v : json) (key : string) (fallback : json) : exn + json :=
  match v with
  | JObj fields => inr (default fallback (assoc key fields))
  | _ => inl (no_attribute_get py v)
  end.

(** [RPCClient.call] (lines 21-71).  Leaving the [async with] block
    releases the response, which nothing here observes. *)
Definition call (method : string) (params : option (list json))
  : Coro RPCClient HttpSig json :=
  let params := default [] params in
  let payload := payload_of method params in
  let timed_out := Ret (error_dict (JStr "Request timeout")) in
  try_except
    (has_session ← read session;
     _ ← (if negb has_session then modify open_session else Ret tt);
     url ← read rpc_url;
     hs ← read headers;
     response ← await (Sg:=HttpSig) (Post url hs payload);
     match response with
     | TimedOut => timed_out
     | Replied status =>
         if (status =? 200)%Z then
           body ← await (Sg:=HttpSig) ResponseJson;
           match body with
           | TimedOut => timed_out
           | Replied result =>
               has_error ← lift (contains "error" result);
               if (has_error : bool) then
                 err ← lift (item result "error");
                 if is_none err then Ret result else Ret (error_dict err)
               else Ret result
           end
         else
           text ← await (Sg:=HttpSig) ResponseText;
           match text with
           | TimedOut => timed_out
           | Replied error_text =>
               Ret (error_dict
                      (JStr (String.append "HTTP "
                               (String.append (str_int py status)
                                  (String.append ": " error_text)))))
           end
     end)
    (fun e => Ret (error_dict (JStr e))).

(** The requests of [batch_call], numbered from [i] (lines 86-93). *)
Fixpoint build_payload (i : nat) (calls : list json) : exn + list json :=
  match calls with
  | [] => inr []
  | c :: rest =>
      match item c "method" with
      | inl e => inl e
      | inr method =>
          match get_or c "params" (JArr []) with
          | inl e => inl e
          | inr params =>
              match build_payload (S i) rest with
              | inl e => inl e
              | inr requests =>
                  inr (JObj [("jsonrpc", JStr "1.0");
                             ("id", JNum (inject_Z (Z.of_nat i)));
                             ("method", method); ("params", params)]%string
                       :: requests)
              end
          end
      end
  end.

(** [[{'error': v} for _ in calls]] *)
Definition errors_for (calls : list json) (v : json) : json :=
  JArr (map (fun _ => error_dict v) calls).

(** [RPCClient.batch_call] (lines 73-115); the requests are built before
    the [try], and a timeout is one of the exceptions of its [except]. *)
Definition batch_call (calls : list json) : Coro RPCClient HttpSig json :=
  match calls with
  | [] => Ret (JArr [])
  | _ =>
      payload ← lift (build_payload 0 calls);
      try_except
        (has_session ← read session;
         _ ← (if negb has_session then modify open_session else Ret tt);
         url ← read rpc_url;
         hs ← read headers;
         response ← await (Sg:=HttpSig) (Post url hs (JArr payload));
         match response with
         | TimedOut => Raise (str_timeout py)
         | Replied status =>
             if (status =? 200)%Z then
               body ← await (Sg:=HttpSig) ResponseJson;
               match body with
               | TimedOut => Raise (str_timeout py)
               | Replied results => Ret results
               end
             else
               text ← await (Sg:=HttpSig) ResponseText;
               match text with
               | TimedOut => Raise (str_timeout py)
               | Replied _ =>
                   Ret (errors_for calls
                          (JStr (String.append "HTTP " (str_int py status))))
               end
         end)
        (fun e => Ret (errors_for calls (JStr e)))
  end.

(** *** The node *)

Inductive NodeCall : Type :=
| RpcCall (method : string) (params : option (list json)).
    (* await self.rpc_client.call(method, params) *)

Definition NodeResp (c : NodeCall) : Type := json.

Definition NodeSig : Sig := MkSig NodeCall NodeResp.

(** The fields of the node that the methods read: whether
    [self.rpc_client] holds a client, and [self.network]. *)
Record LitecoinNode : Type := MkLitecoinNode { rpc_client : bool; network : string }.

Definition no_client : exn := "RPC client not available".

Definition rpc_error (v : json) : exn := String.append "RPC error: " (str_json py v).

(** [LitecoinNode.send_transaction] (lines 178-195); the [except] clause
    logs and raises again. *)
Definition send_transaction (raw_tx_hex : json) : Coro LitecoinNode NodeSig json :=
  try_except
    (has_client ← read rpc_client;
     if negb has_client then Raise no_client
     else
       result ← await (Sg:=NodeSig) (RpcCall "sendrawtransaction" (Some [raw_tx_hex]));
       has_error ← lift (contains "error" result);
       if (has_error : bool) then
         err ← lift (item result "error");
         Raise (rpc_error err)
       else
         lift (get_or result "result" JNull))
    (fun e => Raise e).

(** The dictionary that [sign_raw_transaction] returns. *)
Record Signed : Type := MkSigned {
  signed_hex : json;
  signed_complete : json;
  signed_errors : json
}.

(** [LitecoinNode.sign_raw_transaction] (lines 221-246) *)
Definition sign_raw_transaction (raw_tx_hex : json) (private_keys : option (list json))
  : Coro LitecoinNode NodeSig Signed :=
  try_except
    (has_client ← read rpc_client;
     if negb has_client then Raise no_client
     else
       let private_keys := default [] private_keys in
       result ← await (Sg:=NodeSig)
                  (RpcCall "signrawtransactionwithkey"
                           (Some [raw_tx_hex; JArr private_keys]));
       has_error ← lift (contains "error" result);
       if (has_error : bool) then
         err ← lift (item result "error");
         Raise (rpc_error err)
       else
         signed_data ← lift (get_or result "result" (JObj []));
         hex ← lift (get_or signed_data "hex" (JStr ""));
         complete ← lift (get_or signed_data "complete" (JBool false));
         errors ← lift (get_or signed_data "errors" (JArr []));
         Ret (MkSigned hex complete errors))
    (fun e => Raise e).

(** The dictionary [get_blockchain_info] returns when it has nothing
    from the client. *)
Definition no_blockchain_info (chain : string) : json :=
  JObj [("chain", JStr chain); ("blocks", JNum 0); ("headers", JNum 0);
        ("difficulty", JNum 0); ("size_on_disk", JNum 0)]%string.

(** [BaseNode.get_blockchain_info] ([core/base_node.py], lines 180-199),
    which [LitecoinNode] inherits. *)
Definition get_blockchain_info : Coro LitecoinNode NodeSig json :=
  let fallback : Coro LitecoinNode NodeSig json :=
    chain ← read network; Ret (no_blockchain_info chain) in
  try_except
    (has_client ← read rpc_client;
     if (has_client : bool) then
       result ← await (Sg:=NodeSig) (RpcCall "getblockchaininfo" (Some []));
       has_error ← lift (contains "error" result);
       if negb has_error then lift (get_or result "result" (JObj []))
       else fallback
     else fallback)
    (fun e => Ret (error_dict (JStr e))).

(** *** Environments *)

(** A method of the node run against what answers its client's calls. *)
Definition the_node {W R : Type} (rpc : forall c : NodeCall, W -> (exn + NodeResp c) * W)
           (m : Coro LitecoinNode NodeSig R) (s : LitecoinNode) (w : W)
  : Outcome LitecoinNode NodeSig W R :=
  run (Sg:=NodeSig) rpc m s w.

Section Http.
Context {W : Type}.
Variable http : forall c : HttpCall, W -> (exn + HttpResp c) * W.

(** [call] run against the HTTP session. *)
Definition the_call (method : string) (params : option (list json))
           (c : RPCClient) (w : W) : Outcome RPCClient HttpSig W json :=
  run (Sg:=HttpSig) http (call method params) c w.

(** The node's environment when its client talks to [http]: an awaited
    [call] runs to its end on the client. *)
Definition client_env (c : NodeCall) (cw : RPCClient * W)
  : (exn + NodeResp c) * (RPCClient * W) :=
  match c with
  | RpcCall method params =>
      let o := the_call method params (fst cw) (snd cw) in
      (result o, (final o, world o))
  end.

(** The HTTP exchange behind an answer: the request was answered with
    status 200 and the body decoded to [body]. *)
Definition answered (url : string) (hs : list (string * string)) (payload : json)
           (w : W) (body : json) : Prop :=
  exists w1 w2,
    http (Post url hs payload) w = (inr (Replied 200%Z), w1) /\
    http ResponseJson w1 = (inr (Replied body), w2).
End Http.
End Python.

(** A server of one exchange: status and body. *)
Definition one_exchange (status : Z) (body : json) (text : string) (c : HttpCall) (w : unit)
  : (exn + HttpResp c) * unit :=
  match c with
  | Post _ _ _ => (inr (Replied status), tt)
  | ResponseJson => (inr (Replied body), tt)
  | ResponseText => (inr (Replied text), tt)
  end.

(** A runtime for the scenarios: [str] of the decoded values that the
    scenarios format ([None], booleans and strings), and one text for each
    kind of error. *)
Definition plain_runtime : Runtime :=
  MkRuntime (fun n => DecimalString.NilZero.string_of_int (Z.to_int n))
            (fun v => match v with
                      | JNull => "None"
                      | JBool true => "True"
                      | JBool false => "False"
                      | JStr s => s
                      | _ => "..."
                      end%string)
            (fun _ => "argument is not iterable"%string)
            (fun _ => "object is not subscriptable"%string)
            (fun _ => "object has no attribute 'get'"%string)
            EmptyString.

Definition client0 : RPCClient :=
  MkRPCClient "https://ltc.nownodes.io" [("api-key", "k")]%string false.

End Rpc.

(** ** The node's helpers over its own methods ([core/base_node.py])

    [batch_get_balances] and [get_transaction_history] are written in
    [BaseNode] over the abstract [get_balance] and [get_address_info],
    which are the environment here. *)

Module BaseNode.
Import MessageHandling Factory.

Inductive BaseCall : Type :=
| GetBalance (address : string)        (* await self.get_balance(address) *)
| GetAddressInfo (address : string).   (* await self.get_address_info(address) *)

Definition BaseResp (c : BaseCall) : Type := json.

Definition BaseSig : Sig := MkSig BaseCall BaseResp.

(** The methods read and write no field of the node themselves. *)
Abbreviation M := (Coro unit BaseSig).

Definition call (c : BaseCall) : M (BaseResp c) := await (Sg:=BaseSig) c.

Definition lift {A : Type} (r : exn + A) : M A :=
  match r with
  | inl e => Raise e
  | inr v => Ret v
  end.

(** [{'error': str(e)}] *)
Definition error_entry (e : exn) : json := JObj [("error"%string, JStr e)].

(** The loop of [batch_get_balances] over the addresses still to do;
    [results] is the dictionary so far, in insertion order. *)
Fixpoint balances_loop (addresses : list string) (results : list (string * json))
  : M (list (string * json)) :=
  match addresses with
  | [] => Ret results
  | address :: rest =>
      bind (try_except
              (bind (call (GetBalance address))
                    (fun balance => Ret (dict_set address balance results)))
              (fun e => Ret (dict_set address (error_entry e) results)))
           (fun results => balances_loop rest results)
  end.

(** [BaseNode.batch_get_balances] (lines 234-245) *)
Definition batch_get_balances (addresses : list string) : M (list (string * json)) :=
  balances_loop addresses [].

(** [xs[:limit]] *)
Definition slice_to {A : Type} (limit : Z) (xs : list A) : list A :=
  if (0 <=? limit)%Z
  then take (Z.to_nat limit) xs
  else take (length xs - Z.to_nat (- limit)) xs.

(** [v[:limit]]: lists and strings can be sliced; the text of the error
    is only logged. *)
Definition slice (v : json) (limit : Z) : exn + json :=
  match v with
  | JArr items => inr (JArr (slice_to limit items))
  | JStr s => inr (JStr (String.string_of_list_ascii (slice_to limit (String.list_ascii_of_string s))))
  | _ => inl "object is not subscriptable"%string
  end.

(** [BaseNode.get_transaction_history] (lines 247-255); the [except]
    clause logs and returns the empty list. *)
Definition get_transaction_history (address : string) (limit : Z) : M json :=
  try_except
    (bind (call (GetAddressInfo address)) (fun info =>
     bind (lift (get info "transactions" (JArr []))) (fun transactions =>
     lift (slice transactions limit))))
    (fun _ => Ret (JArr [])).

Section Node.
Context {W : Type}.
Variable node : forall c : BaseCall, W -> (exn + BaseResp c) * W.

Definition exec {R : Type} (m : M R) (w : W) : Outcome unit BaseSig W R :=
  run (Sg:=BaseSig) node m tt w.

(** The entries that the successive calls of [get_balance] give, one for
    each address of the list, in order: the balance, or the error. *)
Fixpoint answers (addresses : list string) (w : W) : list (string * json) :=
  match addresses with
  | [] => []
  | address :: rest =>
      let a := node (GetBalance address) w in
      (address, match fst a with
                | inr balance => balance
                | inl e => error_entry e
                end) :: answers rest (snd a)
  end.
End Node.

(** The entry of the last call about an address. *)
Definition last_answer (address : string) (entries : list (string * json)) : option json :=
  dict_get address (reverse entries).

End BaseNode.

(** * Properties *)

(** ** Coroutines *)

Section CoroutineFacts.
Context {St : Type} {Sg : Sig}.

Lemma guarantees_advance (rely : St -> St -> Prop) {R : Type}
      (P : St -> Prop) (Q : exn + R -> St -> Prop) (m : Coro St Sg R) (s : St) :
  guarantees rely P Q m s ->
  match advance m s with
  | Finished r s' => Q r s'
  | Suspended c k s1 => P s1 /\ forall r s2, rely s1 s2 -> guarantees rely P Q (k r) s2
  end.
Proof.
  revert s. induction m as [r|e|k IH|s' k IH|c k IH]; intros s Hg; cbn in *;
    first [exact Hg | by apply IH].
Qed.

Lemma guarantees_reaches (rely : St -> St -> Prop) {R : Type}
      (P : St -> Prop) (Q : exn + R -> St -> Prop) (m : Coro St Sg R) (s : St)
      (st : Status St Sg R) :
  guarantees rely P Q m s -> reaches rely m s st -> holds_at P Q st.
Proof.
  intros Hg Hr. induction Hr as [m s|m s c k s1 s2 r st Hadv Hrely Hr IH].
  - apply (guarantees_advance rely) in Hg. destruct (advance m s); cbn; tauto.
  - apply IH. apply (guarantees_advance rely) in Hg. rewrite Hadv in Hg.
    destruct Hg as [_ Hg]. by apply Hg.
Qed.

Section RunFacts.
Context {W : Type} (env : forall c : Call Sg, W -> (exn + Resp Sg c) * W).

Lemma logged_and_then {A B : Type} (ev : Event Sg) (o : Outcome St Sg W A)
      (f : exn + A -> St -> W -> Outcome St Sg W B) :
  logged ev (and_then o f) = and_then (logged ev o) f.
Proof. reflexivity. Qed.

Lemma and_then_pure {A B : Type} (r : exn + A) (s : St) (w : W)
      (f : exn + A -> St -> W -> Outcome St Sg W B) :
  and_then (MkOutcome r s w []) f = f r s w.
Proof. unfold and_then; cbn. by destruct (f r s w). Qed.

Lemma run_bind {A B : Type} (m : Coro St Sg A) (f : A -> Coro St Sg B) (s : St) (w : W) :
  run env (bind m f) s w =
  and_then (run env m s w)
           (fun r s' w' => match r with
                           | inl e => MkOutcome (inl e) s' w' []
                           | inr a => run env (f a) s' w'
                           end).
Proof.
  revert s w. induction m as [r|e|k IH|s' k IH|c k IH]; intros s w; cbn.
  - by rewrite and_then_pure.
  - by rewrite and_then_pure.
  - apply IH.
  - apply IH.
  - by rewrite IH, logged_and_then.
Qed.

Lemma run_try_except {A : Type} (m : Coro St Sg A) (h : exn -> Coro St Sg A)
      (s : St) (w : W) :
  run env (try_except m h) s w =
  and_then (run env m s w)
           (fun r s' w' => match r with
                           | inl e => run env (h e) s' w'
                           | inr a => MkOutcome (inr a) s' w' []
                           end).
Proof.
  revert s w. induction m as [r|e|k IH|s' k IH|c k IH]; intros s w; cbn.
  - by rewrite and_then_pure.
  - by rewrite and_then_pure.
  - apply IH.
  - apply IH.
  - by rewrite IH, logged_and_then.
Qed.

Lemma run_try_finally {A : Type} (m : Coro St Sg A) (fin : Coro St Sg unit)
      (s : St) (w : W) :
  run env (try_finally m fin) s w =
  and_then (run env m s w)
           (fun r s' w' => run env (bind fin (fun _ => match r with
                                                       | inl e => Raise e
                                                       | inr a => Ret a
                                                       end)) s' w').
Proof.
  revert s w. induction m as [r|e|k IH|s' k IH|c k IH]; intros s w; cbn.
  - by rewrite and_then_pure.
  - by rewrite and_then_pure.
  - apply IH.
  - apply IH.
  - by rewrite IH, logged_and_then.
Qed.
End RunFacts.
End CoroutineFacts.

(** ** The funds collector *)

Module CollectorFacts.
Import Collector.

(** *** Comparisons of floats

    What the properties use of binary64 arithmetic, from the
    specification of the primitive operations: [<] and [<=] exclude each
    other, they are complementary on numbers, and adding to the initial
    [0] of a sum changes at most the sign of a zero. *)

Lemma SFcompare_antisym (x y : spec_float) :
  SFcompare y x = option_map CompOpp (SFcompare x y).
Proof.
  destruct x as [[]|[]| |[] m1 e1], y as [[]|[]| |[] m2 e2]; cbn; try reflexivity.
  all: rewrite (Z.compare_antisym e1 e2); destruct (e1 ?= e2)%Z; cbn; try reflexivity.
  all: pose proof (Pos.compare_cont_antisym m1 m2 Eq) as Ha; cbn in Ha; rewrite <- Ha.
  all: by destruct (Pos.compare_cont Eq m1 m2).
Qed.

Lemma SFcompare_None (x y : spec_float) :
  SFcompare x y = None -> x = S754_nan \/ y = S754_nan.
Proof. destruct x as [?|?| |? ? ?], y as [?|?| |? ? ?]; cbn; try discriminate; auto. Qed.

Lemma ltb_leb (x y : float) : (x <? y)%float = true -> (y <=? x)%float = false.
Proof.
  rewrite ltb_spec, leb_spec. unfold SFltb, SFleb.
  rewrite (SFcompare_antisym (Prim2SF x) (Prim2SF y)).
  by destruct (SFcompare (Prim2SF x) (Prim2SF y)) as [[]|].
Qed.

Lemma leb_ltb (x y : float) : (x <=? y)%float = true -> (y <? x)%float = false.
Proof.
  rewrite ltb_spec, leb_spec. unfold SFltb, SFleb.
  rewrite (SFcompare_antisym (Prim2SF x) (Prim2SF y)).
  by destruct (SFcompare (Prim2SF x) (Prim2SF y)) as [[]|].
Qed.

Lemma not_nan (x : float) : is_nan x = false -> Prim2SF x <> S754_nan.
Proof.
  unfold is_nan. rewrite FloatAxioms.eqb_spec. unfold SFeqb.
  destruct (SFcompare (Prim2SF x) (Prim2SF x)) as [[]|] eqn:H; try discriminate.
  intros _ Hx. rewrite Hx in H. discriminate.
Qed.

Lemma ltb_total (x y : float) :
  is_nan x = false -> is_nan y = false -> (x <? y)%float = negb (y <=? x)%float.
Proof.
  intros Hx%not_nan Hy%not_nan. rewrite ltb_spec, leb_spec. unfold SFltb, SFleb.
  rewrite (SFcompare_antisym (Prim2SF x) (Prim2SF y)).
  destruct (SFcompare (Prim2SF x) (Prim2SF y)) as [[]|] eqn:H; try done.
  by apply SFcompare_None in H as [?|?].
Qed.

Lemma Prim2SF_zero : Prim2SF 0 = S754_zero false.
Proof. reflexivity. Qed.

Lemma zero_add_ltb (x m : float) : (0 + x <? m)%float = (x <? m)%float.
Proof.
  rewrite !ltb_spec, add_spec, Prim2SF_zero. unfold SFltb, SF64add.
  by destruct (Prim2SF x) as [[]|[]| |[] ? ?].
Qed.

Lemma zero_add_sub (x f : float) :
  (0 <? x - f)%float = true -> (0 + x - f)%float = (x - f)%float.
Proof.
  rewrite ltb_spec, sub_spec, Prim2SF_zero. intros H.
  apply Prim2SF_inj. rewrite !sub_spec, add_spec, Prim2SF_zero.
  unfold SF64sub, SF64add in *.
  destruct (Prim2SF x) as [[]|[]| |[] ? ?]; try reflexivity.
  destruct (Prim2SF f) as [[]|[]| |[] ? ?]; try reflexivity; cbn in H; discriminate.
Qed.

(** The arithmetic is the program's.  A sum is rounded after each
    addition: 0.1 and 0.2 add up to 0.30000000000000004, which is not
    below a minimum of 0.30000000000000004, and the collection goes
    through.  A NaN is neither [< 0] nor [<= 0]. *)
Example rounded_sum_passes_the_minimum :
  let s := MkFundsCollector "M" 0.0001 0.30000000000000004 false in
  let node := scripted (fun _ => inr [utxo_of 0.1 1; utxo_of 0.2 1]) true "txid" in
  sum_amounts [utxo_of 0.1 1; utxo_of 0.2 1] = 0.30000000000000004%float /\
  result (exec node (collect_from_address "B" None) s tt)
  = inr (Some (success_result "txid" "B" "M" (0.30000000000000004 - 0.0001)%float
                              0.0001%float 0.30000000000000004%float 2)).
Proof. cbv zeta. split; vm_compute; reflexivity. Qed.

Example nan_passes_the_comparisons :
  (nan <? 0)%float = false /\ (nan <=? 0)%float = false /\ (0 <? nan)%float = false.
Proof. repeat split. Qed.

Local Arguments collect_body : simpl never.
Local Arguments collect_from_address : simpl never.
Local Arguments exec : simpl never.

Ltac unfold_ops :=
  unfold self, assign, call, read, modify, await, mbind, coro_bind, mret, coro_ret in *.

Section Node.
Context {W : Type} (node : Node W).

Lemma collect_busy (s : FundsCollector) (w : W) (source : string) (key : option string) :
  is_processing s = true ->
  exec node (collect_from_address source key) s w = MkOutcome (inr None) s w [].
Proof.
  intros Hbusy. unfold exec, collect_from_address. unfold_ops. cbn.
  by rewrite Hbusy.
Qed.

Lemma collect_free (s : FundsCollector) (w : W) (source : string) (key : option string) :
  is_processing s = false ->
  exec node (collect_from_address source key) s w =
  wrapped source (exec node (collect_body source key) (set_is_processing true s) w).
Proof.
  intros Hfree. unfold exec, collect_from_address. unfold_ops. cbn.
  rewrite Hfree. cbn. rewrite run_try_finally, run_try_except.
  unfold and_then, wrapped. cbn.
  destruct (run (Sg:=NodeSig) (node_env node) (collect_body source key)
                (set_is_processing true s) w)
    as [[e|r] s' w' t]; cbn; by rewrite ?app_nil_r.
Qed.

(** One step of a case analysis along [collect_body]: the next answer
    of the node, or the next test. *)
Ltac body_step :=
  cbn in *;
  match goal with
  | |- context [get_address_utxos ?n ?a ?w0] =>
      destruct (get_address_utxos n a w0) as [[?e|?utxos] ?w] eqn:?Hfetch
  | |- context [create_raw_transaction ?n ?i ?o ?w0] =>
      destruct (create_raw_transaction n i o w0) as [[?e|?raw] ?w] eqn:?Hcreate
  | |- context [sign_raw_transaction ?n ?r ?k ?w0] =>
      destruct (sign_raw_transaction n r k w0) as [[?e|?signed] ?w] eqn:?Hsign
  | |- context [send_transaction ?n ?r ?w0] =>
      destruct (send_transaction n r w0) as [[?e|?tx] ?w] eqn:?Hsend
  | |- context [if ?b then _ else _] => destruct b eqn:?Htest
  end;
  cbn in *.

Ltac body_cases := unfold exec, collect_body; unfold_ops; repeat body_step.

Lemma collect_body_final (s : FundsCollector) (w : W) (source : string)
      (key : option string) :
  final (exec node (collect_body source key) s w) = s.
Proof. body_cases; reflexivity. Qed.

Ltac in_list H :=
  repeat (apply elem_of_cons in H as [H|H]; [try discriminate H|]);
  try (by apply elem_of_nil in H).


(** An exception at any await leaves the body as that exception. *)
Lemma collect_body_raised (s : FundsCollector) (w : W) (source : string)
      (key : option string) (ev : Event NodeSig) (e : exn) :
  let o := exec node (collect_body source key) s w in
  ev ∈ trace o -> ev_raised ev = Some e -> result o = inl e.
Proof.
  body_cases; intros Hin Hev; in_list Hin; subst ev; cbn in Hev; congruence.
Qed.

(** A result of the body is a success that carries what the broadcast
    returned. *)
Lemma collect_body_result (s : FundsCollector) (w : W) (source : string)
      (key : option string) (res : CollectionResult) :
  let o := exec node (collect_body source key) s w in
  result o = inr (Some res) ->
  success res = true /\ from_address res = source /\ error res = None /\
  exists raw w1 w2 tx,
    send_transaction node raw w1 = (inr tx, w2) /\ res_txid res = Some tx /\
    SendTransaction raw ∈ calls (trace o).
Proof.
  body_cases; intros Hres; try discriminate; injection Hres as <-; cbn;
    repeat split; eexists _, _, _, _; (split; [eassumption|]); split; try reflexivity;
    set_solver.
Qed.

(** With a key and a node whose signing never completes, nothing is
    sent, and the body ends with [None] once signing was reached. *)
Lemma collect_body_unsigned (s : FundsCollector) (w : W) (source : string)
      (key : option string) :
  truthy key = true ->
  (forall raw keys w1, exists sg w2,
      sign_raw_transaction node raw keys w1 = (inr sg, w2) /\
      default false (complete sg) = false) ->
  let o := exec node (collect_body source key) s w in
  (forall raw, SendTransaction raw ∉ calls (trace o)) /\
  (forall res, result o <> inr (Some res)) /\
  ((exists raw keys, SignRawTransaction raw keys ∈ calls (trace o)) ->
   result o = inr None).
Proof.
  intros Hkey Hsg. unfold exec, collect_body; unfold_ops. rewrite Hkey.
  repeat body_step.
  all: try match goal with
         | Hs : sign_raw_transaction _ ?r ?k ?w0 = _ |- _ =>
             destruct (Hsg r k w0) as (? & ? & Heq & Hinc);
             rewrite Heq in Hs; inversion Hs; subst; clear Hs
         end.
  all: try (rewrite Hinc in *; cbn in *; discriminate).
  all: split; [intros raw' Hin; in_list Hin|split; [intros res' Hres; discriminate Hres|]].
  all: try reflexivity.
  all: intros (raw' & keys & Hin); in_list Hin.
Qed.

Lemma collect_body_single (s : FundsCollector) (w w1 : W) (source : string)
      (key : option string) (utxos : list UTXO) (u : UTXO) :
  get_address_utxos node source w = (inr utxos, w1) ->
  List.filter is_confirmed utxos = [u] ->
  (0 <? amount u - collection_fee s)%float = true ->
  (min_collection_amount s <=? amount u)%float = true ->
  cooperative node ->
  exists res,
    result (exec node (collect_body source key) s w) = inr (Some res) /\
    success res = true /\
    res_amount res = Some (amount u - collection_fee s)%float /\
    utxo_count res = Some 1%nat.
Proof.
  intros Hf Hu Hfee Hmin (Hcreate & Hsign & Hsend).
  unfold exec, collect_body; unfold_ops. cbn. rewrite Hf. cbn. rewrite Hu.
  unfold sum_amounts. cbn.
  destruct utxos as [|u0 utxos]; [discriminate|]. cbn.
  rewrite zero_add_ltb, (leb_ltb _ _ Hmin). cbn.
  rewrite (zero_add_sub _ _ Hfee), (ltb_leb _ _ Hfee). cbn.
  match goal with
  | |- context [create_raw_transaction node ?i ?o ?w0] =>
      destruct (Hcreate i o w0) as (raw & w2 & ->)
  end.
  cbn. destruct (truthy key); cbn.
  - match goal with
    | |- context [sign_raw_transaction node ?r ?k ?w0] =>
        destruct (Hsign r k w0) as (sg & w3 & -> & Hc)
    end.
    cbn. rewrite Hc. cbn.
    match goal with
    | |- context [send_transaction node ?r ?w0] =>
        destruct (Hsend r w0) as (tx & w4 & ->)
    end.
    cbn. eexists. split; [reflexivity|]. cbn. by repeat split.
  - match goal with
    | |- context [send_transaction node ?r ?w0] =>
        destruct (Hsend r w0) as (tx & w4 & ->)
    end.
    cbn. eexists. split; [reflexivity|]. cbn. by repeat split.
Qed.

(** A call never lets an exception out. *)
Lemma collect_returns (s : FundsCollector) (w : W) (source : string)
      (key : option string) :
  exists r, result (exec node (collect_from_address source key) s w) = inr r.
Proof.
  destruct (is_processing s) eqn:Hp.
  - rewrite collect_busy by done. by eexists.
  - rewrite collect_free by done. unfold wrapped. cbn.
    destruct (result _); by eexists.
Qed.

(** The guard flag after a call is what it was before it. *)
Lemma collect_flag (s : FundsCollector) (w : W) (source : string)
      (key : option string) :
  is_processing (final (exec node (collect_from_address source key) s w))
  = is_processing s.
Proof.
  destruct (is_processing s) eqn:Hp.
  - by rewrite collect_busy.
  - by rewrite collect_free.
Qed.


(** The guarantee of one job under [same_flag]: suspended with the flag
    set, ended with the flag cleared and without an exception. *)
Lemma collect_guarantees (s : FundsCollector) (source : string) (key : option string) :
  is_processing s = false ->
  guarantees same_flag (fun s' => is_processing s' = true)
             (fun r s' => is_processing s' = false /\ exists v, r = inr v)
             (collect_from_address source key) s.
Proof.
  intros Hfree. unfold collect_from_address, collect_body; unfold_ops. cbn.
  rewrite Hfree. cbn.
  repeat first
    [ progress cbn
    | match goal with
      | |- _ /\ _ => split
      | |- forall _, _ => intro
      | |- exists _, inr _ = inr _ => eexists; reflexivity
      | |- _ = _ => reflexivity
      | |- context [match ?r with inl _ => _ | inr _ => _ end] => is_var r; destruct r
      | |- context [if ?b then _ else _] => destruct b
      | H : same_flag _ _ |- _ => unfold same_flag in H; cbn in H
      | |- is_processing _ = _ => congruence
      end ].
Qed.

Lemma rejects_busy (s : FundsCollector) : is_processing s = true -> rejects s.
Proof.
  intros Hbusy source key. unfold collect_from_address; unfold_ops. cbn.
  by rewrite Hbusy.
Qed.

Lemma admits_free (s : FundsCollector) : is_processing s = false -> admits s.
Proof.
  intros Hfree source key. unfold collect_from_address, collect_body; unfold_ops. cbn.
  rewrite Hfree. cbn. by eexists.
Qed.
End Node.

(** *** Signing that does not complete *)

(** C1, as the code has it.  With a signing key and a node whose signing
    reports [complete = false], [collect_from_address] never calls the
    broadcast and never returns a success; once signing was reached it
    returns [None], the outcome of "nothing to collect", and not a failure
    dictionary. *)
Theorem incomplete_signature_not_broadcast
        {W : Type} (node : Node W) (s : FundsCollector) (w : W)
        (source : string) (key : option string) :
  truthy key = true ->
  signs_incomplete node ->
  let o := exec node (collect_from_address source key) s w in
  (forall raw, SendTransaction raw ∉ calls (trace o)) /\
  (forall res, result o = inr (Some res) -> success res = false) /\
  ((exists raw keys, SignRawTransaction raw keys ∈ calls (trace o)) ->
   result o = inr None).
Proof.
  intros Hkey Hsg. destruct (is_processing s) eqn:Hp.
  - rewrite collect_busy by done. cbn. repeat split.
    + intros raw Hin. by apply elem_of_nil in Hin.
    + discriminate.
  - rewrite collect_free by done. unfold wrapped. cbn.
    destruct (collect_body_unsigned node (set_is_processing true s) w source key Hkey Hsg)
      as (Hsend & Hres & Hnone).
    repeat split; [exact Hsend| |].
    + intros res. destruct (result _) as [e|[r|]] eqn:Hr; intros Heq.
      * by injection Heq as <-.
      * by destruct (Hres r).
      * discriminate.
    + intros Hin. by rewrite (Hnone Hin).
Qed.

Lemma incomplete_signature_not_broadcast_witness :
  let o := exec (scripted funded false "txid")
                (collect_from_address "B" (Some "key"%string)) collector0 tt in
  (forall raw, SendTransaction raw ∉ calls (trace o)) /\
  (forall res, result o = inr (Some res) -> success res = false) /\
  ((exists raw keys, SignRawTransaction raw keys ∈ calls (trace o)) ->
   result o = inr None).
Proof.
  apply (incomplete_signature_not_broadcast (scripted funded false "txid")).
  - reflexivity.
  - intros raw keys w. exists (MkSignedTx "signed" (Some false)), w. split; reflexivity.
Defined.

(** C1 as stated fails: signing is reached and reports
    [complete = false], and the call returns [None] where the claim has
    a failure result. *)
Lemma incomplete_signature_returns_null :
  let o := exec (scripted funded false "txid")
                (collect_from_address "B" (Some "key"%string)) collector0 tt in
  signs_incomplete (scripted funded false "txid") /\
  SignRawTransaction "raw" ["key"%string] ∈ calls (trace o) /\
  result o = inr None /\
  ~ (exists res, result o = inr (Some res) /\ success res = false).
Proof.
  cbv zeta. split; [|split; [|split]].
  - intros raw keys w. exists (MkSignedTx "signed" (Some false)), w. split; reflexivity.
  - vm_compute. do 2 apply list_elem_of_further. apply list_elem_of_here.
  - vm_compute. reflexivity.
  - intros (res & Hres & _). vm_compute in Hres. discriminate.
Qed.

(** *** One confirmed UTXO *)

(** C2, as the code has it.  One confirmed UTXO of amount [X] with
    [X - fee > 0] and [X >= min_collection_amount], both as the floats
    compare, a free guard and a node that builds, signs and broadcasts:
    the call returns a success whose [amount] is the float [X - fee], with
    [utxo_count = 1].  ([X - fee > 0] is how the code tests [X > fee].) *)
Theorem single_utxo_collected
        {W : Type} (node : Node W) (s : FundsCollector) (w w1 : W)
        (source : string) (key : option string) (utxos : list UTXO) (u : UTXO) :
  is_processing s = false ->
  get_address_utxos node source w = (inr utxos, w1) ->
  List.filter is_confirmed utxos = [u] ->
  (0 <? amount u - collection_fee s)%float = true ->
  (min_collection_amount s <=? amount u)%float = true ->
  cooperative node ->
  exists res,
    result (exec node (collect_from_address source key) s w) = inr (Some res) /\
    success res = true /\
    res_amount res = Some (amount u - collection_fee s)%float /\
    utxo_count res = Some 1%nat.
Proof.
  intros Hfree Hf Hu Hfee Hmin Hnode. rewrite collect_free by done.
  destruct (collect_body_single node (set_is_processing true s) w w1 source key utxos u)
    as (res & Hres & Hrest); try done.
  exists res. unfold wrapped. cbn. by rewrite Hres.
Qed.

Lemma single_utxo_collected_witness :
  exists res,
    result (exec (scripted funded true "txid")
                 (collect_from_address "B" None) collector0 tt) = inr (Some res) /\
    success res = true /\
    res_amount res = Some (amount (utxo_of 0.005 3) - collection_fee collector0)%float /\
    utxo_count res = Some 1%nat.
Proof.
  apply (single_utxo_collected (scripted funded true "txid") collector0 tt tt "B" None
                               [utxo_of 0.005 3] (utxo_of 0.005 3)).
  - reflexivity.
  - reflexivity.
  - reflexivity.
  - reflexivity.
  - reflexivity.
  - split; [|split].
    + intros i o w. exists "raw"%string, w. reflexivity.
    + intros r k w. exists (MkSignedTx "signed" (Some true)), w. split; reflexivity.
    + intros r w. exists "txid"%string, w. reflexivity.
Defined.

(** C2 as stated fails: one confirmed UTXO of 0.0005, above the fee
    0.0001 and below the minimum 0.001, and the call returns [None]. *)
Lemma single_utxo_below_minimum :
  let o := exec (scripted dust true "txid") (collect_from_address "B" None) collector0 tt in
  List.filter is_confirmed [utxo_of 0.0005 3] = [utxo_of 0.0005 3] /\
  (collection_fee collector0 <? amount (utxo_of 0.0005 3))%float = true /\
  result o = inr None /\
  ~ (exists res, result o = inr (Some res) /\ success res = true).
Proof.
  cbv zeta. split; [|split; [|split]].
  - reflexivity.
  - reflexivity.
  - vm_compute. reflexivity.
  - intros (res & Hres & _). vm_compute in Hres. discriminate.
Qed.

(** *** Nothing to collect *)



(** *** Exceptions *)

(** C4, as the code has it.  [collect_from_address] never lets an
    exception out; an exception raised at any await makes the result the
    failure dictionary with [success = false], the message and the source
    address; a failure carries no txid; a success carries the txid that
    [send_transaction] returned, whatever it is. *)
Theorem exceptions_become_failures
        {W : Type} (node : Node W) (s : FundsCollector) (w : W)
        (source : string) (key : option string) :
  let o := exec node (collect_from_address source key) s w in
  (exists r, result o = inr r) /\
  (forall ev e, ev ∈ trace o -> ev_raised ev = Some e ->
                result o = inr (Some (failure_result e source))) /\
  (forall res, result o = inr (Some res) -> success res = false ->
               res_txid res = None /\ is_Some (error res) /\ from_address res = source) /\
  (forall res, result o = inr (Some res) -> success res = true ->
               exists raw w1 w2 tx,
                 send_transaction node raw w1 = (inr tx, w2) /\ res_txid res = Some tx).
Proof.
  cbv zeta. split; [apply collect_returns|].
  destruct (is_processing s) eqn:Hp.
  - rewrite collect_busy by done. cbn. repeat split; try discriminate.
    intros ev e Hin. by apply elem_of_nil in Hin.
  - rewrite collect_free by done. unfold wrapped. cbn.
    pose proof (collect_body_raised node (set_is_processing true s) w source key) as Hraised.
    pose proof (collect_body_result node (set_is_processing true s) w source key) as Hresult.
    cbv zeta in *.
    destruct (result (exec node (collect_body source key) (set_is_processing true s) w))
      as [e0|[r|]] eqn:Hr.
    + split; [|split].
      * intros ev e Hin Hev. specialize (Hraised ev e Hin Hev). congruence.
      * intros res Hres _. injection Hres as <-. cbn. repeat split. by eexists.
      * intros res Hres. injection Hres as <-. discriminate.
    + destruct (Hresult r eq_refl) as (Hs & Hfrom & Herr & raw & w1 & w2 & tx & Hsend & Htx & _).
      split; [|split].
      * intros ev e Hin Hev. specialize (Hraised ev e Hin Hev). congruence.
      * intros res Hres. injection Hres as <-. congruence.
      * intros res Hres _. injection Hres as <-. by exists raw, w1, w2, tx.
    + split; [|split]; try discriminate.
      intros ev e Hin Hev. specialize (Hraised ev e Hin Hev). congruence.
Qed.

(** C4 as stated fails in its txid part: the node returns the empty
    string from the broadcast and the result is a success with the empty
    txid. *)
Lemma success_with_empty_txid :
  let o := exec (scripted funded true EmptyString) (collect_from_address "B" None) collector0 tt in
  (exists res, result o = inr (Some res) /\ success res = true /\
               res_txid res = Some EmptyString) /\
  ~ (forall res, result o = inr (Some res) -> success res = true ->
                 exists t, res_txid res = Some t /\ t <> EmptyString).
Proof.
  cbv zeta.
  assert (result (exec (scripted funded true EmptyString) (collect_from_address "B" None)
                       collector0 tt)
          = inr (Some (success_result EmptyString "B" "M" (0 + 0.005 - 0.0001)%float
                                      0.0001%float (0 + 0.005)%float 1))) as Hres
      by (vm_compute; reflexivity).
  split.
  - eexists. split; [exact Hres|]. split; reflexivity.
  - intros Hclaim. destruct (Hclaim _ Hres eq_refl) as (t & Ht & Hne).
    cbn in Ht. injection Ht as <-. by apply Hne.
Qed.

(** *** The guard *)

(** C5.  Started with the guard free, a job is suspended only with the
    flag set, and in such a state a further [collect_from_address]
    returns [None] at once: it reaches no await and writes no field.  The
    job ends, on every path, with the flag cleared and without an
    exception, and in that state a new call takes the guard. *)
Theorem in_flight_guard
        (s0 : FundsCollector) (source : string) (key : option string)
        (st : Status FundsCollector NodeSig (option CollectionResult)) :
  is_processing s0 = false ->
  reaches same_flag (collect_from_address source key) s0 st ->
  guarded st.
Proof.
  intros Hfree Hreach.
  pose proof (guarantees_reaches same_flag _ _ _ _ st
                (collect_guarantees s0 source key Hfree) Hreach) as Hst.
  destruct st as [r s|c k s]; cbn in *.
  - destruct Hst as [Hs Hr]. repeat split; [done|done|by apply admits_free].
  - split; [done|by apply rejects_busy].
Qed.

Lemma in_flight_guard_witness :
  guarded (Finished (inr None) collector0).
Proof.
  apply (in_flight_guard collector0 "A" None (Finished (inr None) collector0) eq_refl).
  eapply (reaches_resume (Sg:=NodeSig) same_flag _ _ (GetAddressUtxos "A") _ _
                         (set_is_processing true collector0) (inr ([] : list UTXO))).
  - reflexivity.
  - reflexivity.
  - exact (reaches_here same_flag _ _).
Defined.

(** *** Batches *)

Section Batch.
Context {W : Type} (node : Node W) (keys : gmap string string).

Lemma collect_loop_cons (address : string) (rest : list string) (results : BatchResult)
      (s : FundsCollector) (w : W) :
  let j := exec node (collect_from_address address (keys !! address)) s w in
  exec node (collect_loop (address :: rest) keys results) s w =
  logged_all (trace j ++ [MkEvent (Sg:=NodeSig) (Sleep 2) None])
             (exec node (collect_loop rest keys (record_result results (returned j)))
                   (final j) (world j)).
Proof.
  cbv zeta. unfold exec at 1. cbn [collect_loop]. unfold_ops.
  rewrite run_bind, run_try_except, run_bind.
  fold (exec node (collect_from_address address (keys !! address)) s w).
  destruct (collect_returns node s w address (keys !! address)) as [r Hr].
  unfold returned. 
  destruct (exec node (collect_from_address address (keys !! address)) s w)
    as [res s' w' t]. cbn in Hr. subst res. 
  unfold and_then, logged_all. cbn.
  rewrite !app_nil_r. unfold exec. by rewrite <- !app_assoc.
Qed.

Lemma collect_loop_run (addresses : list string) :
  forall (results : BatchResult) (s : FundsCollector) (w : W),
    let o := exec node (collect_loop addresses keys results) s w in
    result o = inr (fold_left record_result
                              (map returned (jobs node keys addresses s w)) results)
    /\ calls (trace o) = loop_calls (jobs node keys addresses s w).
Proof.
  induction addresses as [|address rest IH]; intros results s w.
  - split; reflexivity.
  - cbv zeta. rewrite collect_loop_cons. cbv zeta.
    destruct (IH (record_result results
                    (returned (exec node (collect_from_address address (keys !! address)) s w)))
                 (final (exec node (collect_from_address address (keys !! address)) s w))
                 (world (exec node (collect_from_address address (keys !! address)) s w)))
      as [Hres Hcalls].
    split.
    + cbn [result logged_all jobs map fold_left]. exact Hres.
    + unfold logged_all, calls, loop_calls in *. cbn [trace jobs map concat].
      rewrite !map_app, Hcalls. cbn. by rewrite <- !app_assoc.
Qed.

Lemma jobs_length (addresses : list string) :
  forall (s : FundsCollector) (w : W),
    length (jobs node keys addresses s w) = length addresses.
Proof.
  induction addresses as [|address rest IH]; intros s w; cbn; [done|by rewrite IH].
Qed.

Lemma collect_body_fetches (s : FundsCollector) (w : W) (source : string)
      (key : option string) :
  GetAddressUtxos source ∈ calls (trace (exec node (collect_body source key) s w)).
Proof.
  unfold exec, collect_body; unfold_ops. cbn. apply list_elem_of_here.
Qed.

Lemma jobs_fetch (addresses : list string) :
  forall (s : FundsCollector) (w : W) (a : string),
    is_processing s = false ->
    a ∈ addresses ->
    GetAddressUtxos a ∈ loop_calls (jobs node keys addresses s w).
Proof.
  induction addresses as [|address rest IH]; intros s w a Hfree Hin.
  - by apply elem_of_nil in Hin.
  - unfold loop_calls. cbn [jobs map concat]. apply elem_of_app.
    apply elem_of_cons in Hin as [->|Hin].
    + left. apply elem_of_app. left. rewrite collect_free by done.
      apply collect_body_fetches.
    + right. apply IH; [|done]. by rewrite collect_flag.
Qed.
End Batch.

(** The counters and the list after the results [rs] were recorded. *)
Lemma record_all (rs : list (option CollectionResult)) :
  forall b : BatchResult,
    let b' := fold_left record_result rs b in
    total b' = total b /\
    successful b' = (successful b + count is_success rs)%nat /\
    failed b' = (failed b + count (fun r => negb (is_success r)) rs)%nat /\
    collections b' = collections b ++ omap id rs.
Proof.
  unfold count. induction rs as [|r rs IH]; intros b; cbn.
  - by rewrite !Nat.add_0_r, app_nil_r.
  - destruct (IH (record_result b r)) as (Ht & Hs & Hf & Hc).
    rewrite Ht, Hs, Hf, Hc. clear.
    destruct r as [res|]; cbn; [destruct (success res) eqn:Hs; cbn|].
    all: rewrite <- ?app_assoc; cbn; repeat split; lia.
Qed.

Lemma count_split {A : Type} (f : A -> bool) (l : list A) :
  (count f l + count (fun x => negb (f x)) l = length l)%nat.
Proof.
  unfold count. induction l as [|x l IH]; cbn; [done|].
  destruct (f x); cbn; lia.
Qed.

Lemma count_null (rs : list (option CollectionResult)) :
  (length (omap id rs) + count is_null rs = length rs)%nat.
Proof.
  unfold count. induction rs as [|[r|] rs IH]; cbn; lia.
Qed.

Lemma count_null_failed (rs : list (option CollectionResult)) :
  (count is_null rs <= count (fun r => negb (is_success r)) rs)%nat.
Proof.
  unfold count. induction rs as [|[r|] rs IH]; cbn; [lia| |lia].
  destruct (success r); cbn; lia.
Qed.

(** C6.  [collect_multiple] returns, without an exception, a dictionary
    with [total] the number of addresses and
    [successful + failed = total]; the loop makes one call of
    [collect_from_address] per address, each followed by the sleep, so
    that with a free guard the UTXOs of every address are fetched,
    whatever happened to the addresses before it.  For ["A"] failing
    with an RPC error and ["B"] funded the result is [total = 2],
    [successful = 1], [failed = 1], with the failure of ["A"] and the
    success of ["B"] in [collections]. *)
Theorem batch_is_complete
        {W : Type} (node : Node W) (s : FundsCollector) (w : W)
        (addresses : list string) (private_keys : option (gmap string string)) :
  let o := exec node (collect_multiple addresses private_keys) s w in
  let js := jobs node (default ∅ private_keys) addresses s w in
  (exists b, result o = inr b /\
             total b = length addresses /\
             (successful b + failed b)%nat = total b) /\
  (length js = length addresses /\ calls (trace o) = loop_calls js) /\
  (is_processing s = false ->
   forall a, a ∈ addresses -> GetAddressUtxos a ∈ calls (trace o)) /\
  (let o2 := exec (scripted a_fails true "txid")
                  (collect_multiple ["A"; "B"]%string None) collector0 tt in
   exists b ok,
     result o2 = inr b /\
     total b = 2%nat /\ successful b = 1%nat /\ failed b = 1%nat /\
     collections b = [failure_result "RPC error" "A"; ok] /\
     success ok = true /\ from_address ok = "B"%string).
Proof.
  cbv zeta. unfold collect_multiple.
  destruct (collect_loop_run node (default ∅ private_keys) addresses
              (MkBatchResult (length addresses) 0 0 [] 0 0) s w) as [Hres Hcalls].
  split; [|split; [|split]].
  - eexists. split; [exact Hres|].
    destruct (record_all
                (map returned (jobs node (default ∅ private_keys) addresses s w))
                (MkBatchResult (length addresses) 0 0 [] 0 0)) as (Ht & Hs & Hf & _).
    split; [exact Ht|]. rewrite Ht, Hs, Hf. cbn.
    rewrite count_split, length_map. apply jobs_length.
  - split; [apply jobs_length|exact Hcalls].
  - intros Hfree a Hin.
    exact (eq_ind_r (fun l => GetAddressUtxos a ∈ l)
                    (jobs_fetch node _ addresses s w a Hfree Hin) Hcalls).
  - eexists _, _. vm_compute. repeat split.
Qed.

Lemma batch_is_complete_witness :
  GetAddressUtxos "B"
  ∈ calls (trace (exec (scripted a_fails true "txid")
                       (collect_multiple ["A"; "B"]%string None) collector0 tt)).
Proof.
  refine (proj1 (proj2 (proj2 (batch_is_complete (scripted a_fails true "txid") collector0 tt
                                                 ["A"; "B"]%string None))) _ "B"%string _).
  - reflexivity.
  - apply list_elem_of_further, list_elem_of_here.
Defined.

(** C10.  Writing [rs] for what the successive calls of
    [collect_from_address] return: recording a [None] adds one to [failed]
    and nothing to [collections]; [failed] counts the results that are not
    successes, the [None]s among them, and [collections] holds the results
    that are not [None], so its length is [total] less the number of
    [None]s.  Against a node that finds no UTXO the one address is counted
    as failed and [collections] is empty. *)
Theorem null_results_counted_not_listed
        {W : Type} (node : Node W) (s : FundsCollector) (w : W)
        (addresses : list string) (private_keys : option (gmap string string)) :
  let o := exec node (collect_multiple addresses private_keys) s w in
  let rs := map returned (jobs node (default ∅ private_keys) addresses s w) in
  (forall b, failed (record_result b None) = S (failed b) /\
             collections (record_result b None) = collections b) /\
  (exists b, result o = inr b /\
             failed b = count (fun r => negb (is_success r)) rs /\
             (count is_null rs <= failed b)%nat /\
             collections b = omap id rs /\
             (length (collections b) + count is_null rs)%nat = total b) /\
  (exists b, result (exec (scripted empty_chain true "txid")
                          (collect_multiple ["A"%string] None) collector0 tt) = inr b /\
             total b = 1%nat /\ failed b = 1%nat /\ collections b = []).
Proof.
  cbv zeta. unfold collect_multiple. split; [|split].
  - intros b. split; reflexivity.
  - destruct (collect_loop_run node (default ∅ private_keys) addresses
                (MkBatchResult (length addresses) 0 0 [] 0 0) s w) as [Hres _].
    eexists. split; [exact Hres|].
    destruct (record_all
                (map returned (jobs node (default ∅ private_keys) addresses s w))
                (MkBatchResult (length addresses) 0 0 [] 0 0)) as (Ht & _ & Hf & Hc).
    rewrite Ht, Hf, Hc. cbn [failed collections total app Nat.add].
    split; [reflexivity|split; [|split; [reflexivity|]]].
    + apply count_null_failed.
    + rewrite count_null, length_map. apply jobs_length.
  - eexists. vm_compute. repeat split.
Qed.

End CollectorFacts.

(** ** The transaction monitor *)

Module MonitorFacts.
Import Monitor.

Local Arguments exec : simpl never.

Ltac unfold_ops :=
  unfold self, assign, call, read, modify, await, mbind, coro_bind, mret, coro_ret in *.




Section Transport.
Context {W : Type} (tr : Transport W).

(** A request made while disconnected changes the tracked set and
    sends nothing. *)
Lemma serve_disconnected (r : Request) (m : TransactionMonitor) (w : W) :
  connected m = false ->
  exec tr (serve r) m w
  = MkOutcome (inr tt) (set_subscribed_addresses (track r (subscribed_addresses m)) m) w [].
Proof.
  intros Hdis. unfold exec.
  destruct r as [a|a]; unfold serve, subscribe_address, unsubscribe_address; unfold_ops;
    cbn; unfold has_transport; cbn; rewrite ?Hdis; cbn; try reflexivity.
  case_bool_decide; cbn; rewrite ?Hdis; cbn; [reflexivity|].
  by destruct m.
Qed.

Lemma serve_all_disconnected (rs : list Request) :
  forall (m : TransactionMonitor) (w : W),
    connected m = false ->
    exec tr (serve_all rs) m w
    = MkOutcome (inr tt)
                (set_subscribed_addresses (track_all rs (subscribed_addresses m)) m) w [].
Proof.
  induction rs as [|r rs IH]; intros m w Hdis.
  - unfold exec. cbn. by destruct m.
  - unfold exec. cbn [serve_all]. unfold_ops. rewrite run_bind.
    fold (exec tr (serve r) m w). rewrite serve_disconnected by done.
    unfold and_then. cbn [result final world trace app].
    fold (exec tr (serve_all rs)
               (set_subscribed_addresses (track r (subscribed_addresses m)) m) w).
    rewrite IH by done. reflexivity.
Qed.

Lemma send_subscriptions_cons (a : string) (l : list string) :
  send_subscriptions (a :: l)
  = bind (_send_subscription a) (fun _ => send_subscriptions l).
Proof. reflexivity. Qed.

Lemma run_loop_step (fuel : nat) :
  _run (S fuel)
  = bind (read _running)
         (fun running : bool =>
            if running then
              bind (try_except (bind _connect (fun _ => _listen))
                               (fun e => _handle_error e))
                   (fun _ => _run fuel)
            else Ret (Some tt)).
Proof. reflexivity. Qed.

Local Arguments send_subscriptions : simpl never.
Local Arguments _connect : simpl never.
Local Arguments _listen : simpl never.
Local Arguments _handle_error : simpl never.
Local Arguments _disconnect : simpl never.
Local Arguments _run : simpl never.
Local Arguments Z.pow : simpl never.
Local Arguments Z.mul : simpl never.
Local Arguments Z.add : simpl never.
Local Arguments Z.min : simpl never.
Local Arguments Z.ltb : simpl never.

Lemma connects_app (t1 t2 : list (Event TransportSig)) :
  connects (t1 ++ t2) = (connects t1 + connects t2)%nat.
Proof.
  unfold connects, calls. by rewrite map_app, List.filter_app, length_app.
Qed.

Lemma delays_app (t1 t2 : list (Event TransportSig)) :
  delays (t1 ++ t2) = delays t1 ++ delays t2.
Proof. unfold delays, calls. by rewrite map_app, omap_app. Qed.

Lemma sent_app (t1 t2 : list (Event TransportSig)) :
  sent (t1 ++ t2) = sent t1 ++ sent t2.
Proof. unfold sent, calls. by rewrite map_app, omap_app. Qed.

(** The replay on an open connection: the fields stay, and the trace
    is one [WsSend] per address up to the first that raises. *)
Lemma send_subscriptions_run (l : list string) :
  forall (m : TransactionMonitor) (w : W) (url : string),
    websocket m = Some (MkWebSocketClient url true true) ->
    let o := exec tr (send_subscriptions l) m w in
    final o = m /\
    connects (trace o) = 0%nat /\
    (result o = inr tt -> sent (trace o) = map subscription l).
Proof.
  induction l as [|a l IH]; intros m w url Hws; cbv zeta.
  - unfold exec. cbn. done.
  - unfold exec. rewrite send_subscriptions_cons. unfold _send_subscription, client_send.
    unfold_ops. cbn. rewrite Hws. cbn.
    destruct (ws_send tr (subscription a) w) as [[e|[]] w1]; cbn.
    + repeat split. discriminate.
    + destruct (IH m w1 url Hws) as (Hf & Hc & Hs). unfold exec in *.
      repeat split; [exact Hf|exact Hc|].
      intros Hr. specialize (Hs Hr). unfold sent, calls in *. cbn. f_equal. exact Hs.
Qed.

Lemma connect_refused (m : TransactionMonitor) (w w1 : W) (e : exn) :
  ws_connect tr (node_ws_url m) w = (inl e, w1) ->
  exec tr _connect m w
  = MkOutcome (inl e) (set_connected false (connecting m)) w1
              [MkEvent (Sg:=TransportSig) (WsConnect (node_ws_url m)) (Some e)].
Proof.
  intros Hc. unfold exec, _connect. unfold_ops. cbn. by rewrite Hc.
Qed.

Lemma connect_accepted (m : TransactionMonitor) (w w1 : W) :
  ws_connect tr (node_ws_url m) w = (inr tt, w1) ->
  exec tr _connect m w
  = logged (MkEvent (Sg:=TransportSig) (WsConnect (node_ws_url m)) None)
           (and_then (exec tr (send_subscriptions (elements (subscribed_addresses m)))
                           (connected_fields m) w1)
                     connect_handled).
Proof.
  intros Hc. unfold exec, _connect. unfold_ops. cbn. rewrite Hc. cbn.
  rewrite run_try_except. unfold logged, and_then, connect_handled. cbn.
  destruct (run _ _ _ _) as [[e|[]] s' w' t]; cbn; reflexivity.
Qed.

(** [_disconnect] when closing returns, or when there is nothing to
    close: the monitor is left without a client and disconnected. *)
Lemma disconnect_run (m : TransactionMonitor) (w : W) :
  closes tr \/ no_socket m ->
  let o := exec tr _disconnect m w in
  result o = inr tt /\
  final o = disconnected_fields m /\
  connects (trace o) = 0%nat /\ delays (trace o) = [].
Proof.
  intros Hpre. unfold exec, _disconnect. unfold_ops. cbn.
  destruct m as [url [[u sk cn]|] c t r d mx n]; cbn; [|done].
  destruct sk; cbn; [|done].
  destruct Hpre as [Hclose|Hno].
  - destruct (Hclose w) as [w1 ->]. cbn. done.
  - specialize (Hno _ eq_refl). discriminate.
Qed.

(** [_handle_error]: below the maximum the counter is incremented and
    the monitor sleeps [backoff_delay]; at the maximum it stops. *)
Lemma handle_error_run (m : TransactionMonitor) (w : W) (e : exn) :
  closes tr \/ no_socket m ->
  let o := exec tr (_handle_error e) m w in
  let m1 := disconnected_fields m in
  result o = inr tt /\ connects (trace o) = 0%nat /\
  if _reconnect_attempts m <? _max_reconnect_attempts m then
    final o = set_reconnect_attempts (_reconnect_attempts m + 1) m1 /\
    delays (trace o)
    = [Z.min (_reconnect_delay m * 2 ^ (_reconnect_attempts m + 1)) 300]
  else
    final o = set_running false m1 /\ delays (trace o) = [].
Proof.
  intros Hpre. cbv zeta. unfold exec, _handle_error. unfold_ops.
  rewrite run_bind. fold (exec tr _disconnect m w).
  destruct (disconnect_run m w Hpre) as (Hr & Hf & Hc & Hd).
  destruct (exec tr _disconnect m w) as [r s' w' t].
  cbn [result final world trace] in Hr, Hf, Hc, Hd. subst r s'.
  unfold and_then. cbn [result final world trace].
  rewrite connects_app, delays_app, Hc, Hd.
  assert (_reconnect_attempts (disconnected_fields m) = _reconnect_attempts m) as Ha
      by (unfold disconnected_fields; by destruct (websocket m)).
  assert (_max_reconnect_attempts (disconnected_fields m) = _max_reconnect_attempts m)
    as Hm by (unfold disconnected_fields; by destruct (websocket m)).
  assert (_reconnect_delay (disconnected_fields m) = _reconnect_delay m) as Hdl
      by (unfold disconnected_fields; by destruct (websocket m)).
  destruct (_reconnect_attempts m <? _max_reconnect_attempts m) eqn:Hlt;
    cbn; rewrite Ha, Hm, Hlt; cbn; unfold backoff_delay; cbn; rewrite ?Ha, ?Hdl; done.
Qed.

(** One iteration of the loop of [_run] in which connecting raises. *)
Lemma run_loop_refused (fuel : nat) (m : TransactionMonitor) (w w1 : W) (e : exn) :
  _running m = true ->
  ws_connect tr (node_ws_url m) w = (inl e, w1) ->
  let o := exec tr (_handle_error e) (set_connected false (connecting m)) w1 in
  exec tr (_run (S fuel)) m w
  = logged_all (MkEvent (Sg:=TransportSig) (WsConnect (node_ws_url m)) (Some e) :: trace o)
               (exec tr (_run fuel) (final o) (world o)).
Proof.
  intros Hrun Hc. cbv zeta. unfold exec at 1. rewrite run_loop_step. unfold read. cbn.
  rewrite Hrun. rewrite run_bind, run_try_except, run_bind.
  fold (exec tr _connect m w). rewrite (connect_refused m w w1 e Hc).
  unfold and_then at 3. cbn [result final world trace app].
  unfold and_then at 2. cbn [result final world trace app].
  fold (exec tr (_handle_error e) (set_connected false (connecting m)) w1).
  destruct (handle_error_run (set_connected false (connecting m)) w1 e) as (Hr & _).
  { right. intros c Hc'. injection Hc' as <-. reflexivity. }
  destruct (exec tr (_handle_error e) (set_connected false (connecting m)) w1)
    as [r s' w' t]. cbn in Hr. subst r.
  unfold and_then, logged_all. cbn. by rewrite ?app_nil_r.
Qed.

Lemma run_loop_stopped (fuel : nat) (m : TransactionMonitor) (w : W) :
  _running m = false ->
  exec tr (_run (S fuel)) m w = MkOutcome (inr (Some tt)) m w [].
Proof.
  intros Hrun. unfold exec. rewrite run_loop_step. unfold read. cbn. by rewrite Hrun.
Qed.

Lemma connects_connect (url : string) (r : option exn) (t : list (Event TransportSig)) :
  connects (MkEvent (Sg:=TransportSig) (WsConnect url) r :: t) = S (connects t).
Proof. reflexivity. Qed.

Lemma delays_connect (url : string) (r : option exn) (t : list (Event TransportSig)) :
  delays (MkEvent (Sg:=TransportSig) (WsConnect url) r :: t) = delays t.
Proof. reflexivity. Qed.

(** With the counter at [10 - k], [k + 1] refused connections stop the
    monitor. *)
Lemma refused_until_stopped (k : nat) :
  forall (m : TransactionMonitor) (w : W) (fuel : nat),
    configured m -> _running m = true -> refuses tr ->
    _reconnect_attempts m = 10 - Z.of_nat k ->
    (S k < fuel)%nat ->
    let o := exec tr (_run fuel) m w in
    result o = inr (Some tt) /\
    connects (trace o) = S k /\
    length (delays (trace o)) = k /\
    _running (final o) = false /\
    connected (final o) = false /\
    websocket (final o) = None.
Proof.
  induction k as [|k IH]; intros m w fuel [Hd Hmax] Hrun Hrefuses Hatt Hfuel; cbv zeta.
  - destruct fuel as [|[|fuel]]; [lia|lia|].
    destruct (Hrefuses (node_ws_url m) w) as (e & w1 & Hc).
    rewrite (run_loop_refused _ m w w1 e Hrun Hc). cbv zeta.
    destruct (handle_error_run (set_connected false (connecting m)) w1 e)
      as (Hr & Hcon & Hrest).
    { right. intros c Hc'. injection Hc' as <-. reflexivity. }
    cbn [_reconnect_attempts _max_reconnect_attempts set_connected connecting
         set_websocket] in Hrest.
    rewrite Hatt, Hmax in Hrest. cbn in Hrest. destruct Hrest as [Hf Hdel].
    rewrite run_loop_stopped by (by rewrite Hf).
    unfold logged_all. cbn [result final world trace].
    rewrite app_nil_r, connects_connect, delays_connect, Hcon, Hdel, Hf. done.
  - destruct fuel as [|fuel]; [lia|].
    destruct (Hrefuses (node_ws_url m) w) as (e & w1 & Hc).
    rewrite (run_loop_refused _ m w w1 e Hrun Hc). cbv zeta.
    destruct (handle_error_run (set_connected false (connecting m)) w1 e)
      as (Hr & Hcon & Hrest).
    { right. intros c Hc'. injection Hc' as <-. reflexivity. }
    cbn [_reconnect_attempts _max_reconnect_attempts _reconnect_delay set_connected
         connecting set_websocket] in Hrest.
    rewrite Hatt, Hmax in Hrest.
    replace (10 - Z.of_nat (S k) <? 10) with true in Hrest
      by (symmetry; apply Z.ltb_lt; lia).
    destruct Hrest as [Hf Hdel].
    destruct (IH (final (exec tr (_handle_error e) (set_connected false (connecting m)) w1))
                 (world (exec tr (_handle_error e) (set_connected false (connecting m)) w1))
                 fuel) as (Hres & Hcs & Hds & Hstop & Hdis & Hws).
    + by rewrite Hf.
    + by rewrite Hf.
    + exact Hrefuses.
    + rewrite Hf. cbn. lia.
    + lia.
    + unfold logged_all. cbn [result final world trace].
      rewrite <- app_comm_cons, connects_connect, delays_connect, connects_app,
        delays_app, length_app, Hcon, Hdel, Hcs, Hds. done.
Qed.

(** When [websockets.connect] returns, [_connect] leaves the counter
    at 0, whether or not the replay raises afterwards. *)
Lemma connect_resets (m : TransactionMonitor) (w w1 : W) :
  ws_connect tr (node_ws_url m) w = (inr tt, w1) ->
  _reconnect_attempts (final (exec tr _connect m w)) = 0.
Proof.
  intros Hc. rewrite (connect_accepted m w w1 Hc).
  destruct (send_subscriptions_run (elements (subscribed_addresses m))
              (connected_fields m) w1 (node_ws_url m) eq_refl) as (Hf & _).
  unfold logged, and_then, connect_handled. cbn [final result world].
  rewrite Hf. by destruct (result _).
Qed.

End Transport.

Lemma backoff_value (m : TransactionMonitor) (n : Z) :
  configured m ->
  backoff_delay (set_reconnect_attempts n m) = Z.min (5 * 2 ^ n) 300.
Proof. intros [Hd _]. unfold backoff_delay. cbn. by rewrite Hd. Qed.


(** C7.  For a reconnect attempt [n] from 1 to 10, [_handle_error] sets
    the counter to [n] and sleeps [min (5 * 2 ^ n) 300] seconds; the
    delay does not decrease with [n], is at most 300, is 10 for [n = 1]
    and 300 for [n = 6]; and [_connect] leaves the counter at 0 whenever
    the connection is made. *)
Theorem backoff_schedule
        {W : Type} (tr : Transport W) (m : TransactionMonitor) (w : W) (e : exn) (n : Z) :
  configured m ->
  closes tr ->
  1 <= n <= 10 ->
  _reconnect_attempts m = n - 1 ->
  let o := exec tr (_handle_error e) m w in
  (delays (trace o) = [Z.min (5 * 2 ^ n) 300] /\ _reconnect_attempts (final o) = n) /\
  (forall n1 n2, 0 <= n1 <= n2 ->
                 backoff_delay (set_reconnect_attempts n1 m)
                 <= backoff_delay (set_reconnect_attempts n2 m)) /\
  (forall k, backoff_delay (set_reconnect_attempts k m) <= 300) /\
  backoff_delay (set_reconnect_attempts 1 m) = 10 /\
  backoff_delay (set_reconnect_attempts 6 m) = 300 /\
  (forall w0 w1, ws_connect tr (node_ws_url m) w0 = (inr tt, w1) ->
                 _reconnect_attempts (final (exec tr _connect m w0)) = 0).
Proof.
  intros Hconf Hclose Hn Hatt. cbv zeta.
  split; [|split; [|split; [|split; [|split]]]].
  - destruct (handle_error_run tr m w e (or_introl Hclose)) as (_ & _ & Hrest).
    destruct Hconf as [Hd Hmax]. rewrite Hatt, Hmax, Hd in Hrest.
    replace (n - 1 <? 10) with true in Hrest by (symmetry; apply Z.ltb_lt; lia).
    replace (n - 1 + 1) with n in Hrest by lia.
    destruct Hrest as [-> ->]. done.
  - intros n1 n2 Hle. rewrite !backoff_value by done.
    apply Z.min_le_compat_r, Z.mul_le_mono_nonneg_l; [lia|].
    apply Z.pow_le_mono_r; lia.
  - intros k. rewrite backoff_value by done. lia.
  - by rewrite backoff_value.
  - by rewrite backoff_value.
  - intros w0 w1. apply connect_resets.
Qed.

Lemma backoff_schedule_witness :
  delays (trace (exec dead (_handle_error "refused") monitor0 tt)) = [Z.min (5 * 2 ^ 1) 300].
Proof.
  refine (proj1 (proj1 (backoff_schedule dead monitor0 tt "refused"%string 1 _ _ _ _))).
  - split; reflexivity.
  - intros w. by exists w.
  - lia.
  - reflexivity.
Defined.

(** C8.  With every connection refused, the loop of [_run] ends after
    [11 - _reconnect_attempts] connections, the last of which finds the
    counter at 10: [_running] is false and [is_running] returns false.
    From then on subscribing, unsubscribing, [stop] and the loop itself
    make no call and leave [_running] false; [start] sets it again. *)
Theorem stops_after_max_attempts
        {W : Type} (tr : Transport W) (m : TransactionMonitor) (w : W) (fuel : nat) :
  configured m ->
  _running m = true ->
  0 <= _reconnect_attempts m <= 10 ->
  refuses tr ->
  (Z.to_nat (11 - _reconnect_attempts m) < fuel)%nat ->
  let o := exec tr (_run fuel) m w in
  result o = inr (Some tt) /\
  connects (trace o) = Z.to_nat (11 - _reconnect_attempts m) /\
  length (delays (trace o)) = Z.to_nat (10 - _reconnect_attempts m) /\
  _running (final o) = false /\
  (forall w', result (exec tr is_running (final o) w') = inr false) /\
  (forall rs fuel' w',
      let o' := exec tr (bind (serve_all rs) (fun _ => _run fuel')) (final o) w' in
      trace o' = [] /\ _running (final o') = false) /\
  (forall w', let o' := exec tr stop (final o) w' in
              trace o' = [] /\ _running (final o') = false) /\
  (forall w', let o' := exec tr start (final o) w' in
              result o' = inr true /\ _running (final o') = true).
Proof.
  intros Hconf Hrun Hatt Hrefuses Hfuel. cbv zeta.
  destruct (refused_until_stopped tr (Z.to_nat (10 - _reconnect_attempts m)) m w fuel)
    as (Hres & Hcs & Hds & Hstop & Hdis & Hws); [done|done|done|lia|lia|].
  split; [exact Hres|]. split; [rewrite Hcs; lia|]. split; [exact Hds|].
  split; [exact Hstop|].
  set (mf := final (exec tr (_run fuel) m w)) in *.
  split; [|split; [|split]].
  - intros w'. unfold exec, is_running. unfold_ops. cbn. by rewrite Hstop.
  - intros rs fuel' w'. unfold exec. rewrite run_bind.
    fold (exec tr (serve_all rs) mf w'). rewrite serve_all_disconnected by done.
    unfold and_then. cbn [result final world trace app].
    destruct fuel' as [|fuel'].
    + cbn. done.
    + fold (exec tr (_run (S fuel'))
                 (set_subscribed_addresses (track_all rs (subscribed_addresses mf)) mf) w').
      rewrite run_loop_stopped by done. done.
  - intros w'. unfold exec, stop, _disconnect. unfold_ops. cbn. rewrite Hws. done.
  - intros w'. unfold exec, start. unfold_ops. cbn. rewrite Hstop. done.
Qed.

Lemma stops_after_max_attempts_witness :
  _running (final (exec dead (_run 12) (set_running true monitor0) tt)) = false.
Proof.
  refine (proj1 (proj2 (proj2 (proj2
            (stops_after_max_attempts dead (set_running true monitor0) tt 12 _ _ _ _ _))))).
  - split; reflexivity.
  - reflexivity.
  - cbn. lia.
  - intros url w. by exists "refused"%string, w.
  - cbn. lia.
Defined.



End MonitorFacts.

(** ** The collector's other methods *)

Module CollectorPolicyFacts.
Import Collector CollectorPolicy CollectorFacts.

Local Arguments collect_body : simpl never.
Local Arguments collect_from_address : simpl never.
Local Arguments exec : simpl never.

Ltac unfold_ops :=
  unfold self, assign, call, read, modify, await, mbind, coro_bind, mret, coro_ret in *.

Ltac node_step :=
  cbn in *;
  match goal with
  | |- context [get_address_utxos ?n ?a ?w0] =>
      destruct (get_address_utxos n a w0) as [[?e|?utxos] ?w] eqn:?Hfetch
  | |- context [create_raw_transaction ?n ?i ?o ?w0] =>
      destruct (create_raw_transaction n i o w0) as [[?e|?raw] ?w] eqn:?Hcreate
  | |- context [sign_raw_transaction ?n ?r ?k ?w0] =>
      destruct (sign_raw_transaction n r k w0) as [[?e|?signed] ?w] eqn:?Hsign
  | |- context [send_transaction ?n ?r ?w0] =>
      destruct (send_transaction n r w0) as [[?e|?tx] ?w] eqn:?Hsend
  | |- context [if ?b then _ else _] => destruct b eqn:?Htest
  end;
  cbn in *.

Ltac in_list H :=
  repeat (apply elem_of_cons in H as [H|H]; [try discriminate H|]);
  try (by apply elem_of_nil in H).

Lemma elem_of_eq_r {A : Type} (x : A) (l l' : list A) : l = l' -> x ∈ l' -> x ∈ l.
Proof. by intros ->. Qed.

Lemma elem_of_eq_l {A : Type} (x : A) (l l' : list A) : l = l' -> x ∈ l -> x ∈ l'.
Proof. by intros ->. Qed.

Lemma set_flag_back (s : FundsCollector) :
  is_processing s = false -> set_is_processing false (set_is_processing true s) = s.
Proof. destruct s as [m f mn p]. cbn. by intros ->. Qed.

Section Node.
Context {W : Type} (node : Node W).

Lemma collect_keeps_fields (s : FundsCollector) (w : W) (source : string)
      (key : option string) :
  final (exec node (collect_from_address source key) s w) = s.
Proof.
  destruct (is_processing s) eqn:Hp.
  - by rewrite collect_busy.
  - rewrite collect_free by done. unfold wrapped. cbn [final].
    rewrite collect_body_final. by apply set_flag_back.
Qed.

Lemma collect_loop_keeps_fields (keys : gmap string string) (addresses : list string) :
  forall (results : BatchResult) (s : FundsCollector) (w : W),
    final (exec node (collect_loop addresses keys results) s w) = s.
Proof.
  induction addresses as [|a rest IH]; intros results s w.
  - reflexivity.
  - rewrite collect_loop_cons. cbv zeta. unfold logged_all. cbn [final].
    rewrite IH. apply collect_keeps_fields.
Qed.

(** [estimate_collection]: the outcome, branch by branch. *)
Lemma estimate_run (s : FundsCollector) (w : W) (address : string) :
  let o := exec node (estimate_collection address) s w in
  final o = s /\
  calls (trace o) = [GetAddressUtxos address] /\
  match get_address_utxos node address w with
  | (inl e, _) => result o = inr (estimate_failed e address)
  | (inr utxos, _) =>
      let confirmed := List.filter is_confirmed utxos in
      let total := sum_amounts confirmed in
      let can := ((0 <? total - collection_fee s) && (min_collection_amount s <=? total))%float in
      exists est, result o = inr est /\
                  est_address est = address /\ est_error est = None /\
                  can_collect est = (list_truthy confirmed && can) /\
                  (can_collect est = true ->
                   amount_to_send est = Some (total - collection_fee s)%float)
  end.
Proof.
  cbv zeta. unfold exec, estimate_collection; unfold_ops. cbn.
  destruct (get_address_utxos node address w) as [[e|utxos] w1]; cbn; [done|].
  remember (List.filter is_confirmed utxos) as confirmed eqn:Hc.
  destruct utxos as [|u utxos].
  { cbn in Hc. subst confirmed. cbn. repeat split. by eexists. }
  cbn [list_truthy negb]. destruct confirmed as [|c cs]; cbn.
  { repeat split. by eexists. }
  repeat split. eexists. split; [reflexivity|]. cbn.
  repeat split. intros ->. reflexivity.
Qed.

(** Whether the body of [collect_from_address] gets to build a
    transaction, and which. *)
Lemma collect_body_gate (s : FundsCollector) (w : W) (source : string)
      (key : option string) :
  let o := exec node (collect_body source key) s w in
  match get_address_utxos node source w with
  | (inl e, _) => calls (trace o) = [GetAddressUtxos source] /\ result o = inl e
  | (inr utxos, _) =>
      let confirmed := List.filter is_confirmed utxos in
      let total := sum_amounts confirmed in
      if list_truthy confirmed
         && (negb (total <? min_collection_amount s)%float
             && negb (total - collection_fee s <=? 0)%float)
      then exists t,
          calls (trace o)
          = GetAddressUtxos source
              :: CreateRawTransaction (inputs_of confirmed)
                                      {[master_address s := (total - collection_fee s)%float]}
              :: t
      else calls (trace o) = [GetAddressUtxos source] /\ result o = inr None
  end.
Proof.
  cbv zeta. unfold exec, collect_body; unfold_ops. cbn.
  destruct (get_address_utxos node source w) as [[e|utxos] w1]; cbn; [done|].
  remember (List.filter is_confirmed utxos) as confirmed eqn:Hc.
  destruct utxos as [|u utxos].
  { cbn in Hc. subst confirmed. cbn. done. }
  cbn [list_truthy negb]. destruct confirmed as [|c cs]; cbn [list_truthy negb andb].
  { cbn. done. }
  cbn [run].
  destruct (sum_amounts (c :: cs) <? min_collection_amount s)%float; cbn [negb andb run];
    [done|].
  destruct (sum_amounts (c :: cs) - collection_fee s <=? 0)%float; cbn [negb andb run];
    [done|].
  cbn. by eexists.
Qed.


(** A broadcast is the last call of the body and its only broadcast; with
    a key it sends the hex of a signing that completed, without a key the
    raw transaction as built, and then nothing was signed. *)
Lemma collect_body_broadcast (s : FundsCollector) (w : W) (source : string)
      (key : option string) (raw : string) :
  let o := exec node (collect_body source key) s w in
  SendTransaction raw ∈ calls (trace o) ->
  (exists before, calls (trace o) = before ++ [SendTransaction raw] /\
                  forall r, SendTransaction r ∉ before) /\
  if truthy key then
    exists r k w1 w2 sg,
      sign_raw_transaction node r k w1 = (inr sg, w2) /\
      default false (complete sg) = true /\ raw = hex sg /\
      SignRawTransaction r k ∈ calls (trace o)
  else
    (exists i o' w1 w2, create_raw_transaction node i o' w1 = (inr raw, w2)) /\
    forall r k, SignRawTransaction r k ∉ calls (trace o).
Proof.
  cbv zeta. unfold exec, collect_body; unfold_ops.
  destruct (truthy key) eqn:Hkey; repeat node_step; intros Hin; in_list Hin.
  all: injection Hin as ->.
  all: split;
    [ first [ eexists [_; _; _]; split; [reflexivity|]
            | eexists [_; _]; split; [reflexivity|] ];
      intros r' Hr; in_list Hr |].
  - eexists _, _, _, _, _. split; [eassumption|]. split.
    + by apply negb_false_iff in Htest3.
    + split; [reflexivity|]. set_solver.
  - eexists _, _, _, _, _. split; [eassumption|]. split.
    + by apply negb_false_iff in Htest3.
    + split; [reflexivity|]. set_solver.
  - split; [by eexists _, _, _, _|]. intros r' k' Hr. in_list Hr.
  - split; [by eexists _, _, _, _|]. intros r' k' Hr. in_list Hr.
Qed.

End Node.

(** X1.  With the guard free, and when none of the minimum, the confirmed
    total and the amount to send is a NaN, [estimate_collection] and
    [collect_from_address] agree on the same node: when the estimate says
    [can_collect], the collection builds a transaction that pays the
    estimated [amount_to_send] to the master address; when it does not,
    the collection builds nothing and returns no success.  (With a NaN
    the tests of the two methods are no longer complementary.) *)
Theorem estimate_agrees_with_collect
        {W : Type} (node : Node W) (s : FundsCollector) (w : W)
        (address : string) (key : option string) :
  is_processing s = false ->
  (forall utxos w1, get_address_utxos node address w = (inr utxos, w1) -> numbers s utxos) ->
  let est := exec node (estimate_collection address) s w in
  let col := exec node (collect_from_address address key) s w in
  exists e, result est = inr e /\
    (can_collect e = true ->
     exists amt inputs,
       amount_to_send e = Some amt /\
       CreateRawTransaction inputs {[master_address s := amt]} ∈ calls (trace col)) /\
    (can_collect e = false ->
     (forall i o, CreateRawTransaction i o ∉ calls (trace col)) /\
     forall res, result col = inr (Some res) -> success res = false).
Proof.
  intros Hfree Hnum. cbv zeta. rewrite collect_free by done. unfold wrapped.
  cbn [result trace].
  destruct (estimate_run node s w address) as (_ & _ & Hest).
  pose proof (collect_body_gate node (set_is_processing true s) w address key) as Hgate.
  cbv zeta in Hest, Hgate. cbn [collection_fee min_collection_amount master_address
                                 set_is_processing] in Hgate.
  destruct (get_address_utxos node address w) as [[e|utxos] w1].
  - eexists. split; [exact Hest|]. cbn. split; [discriminate|]. intros _.
    destruct Hgate as [Hcalls Hres]. split.
    + intros i o Hin. apply (elem_of_eq_l _ _ _ Hcalls) in Hin. in_list Hin.
    + rewrite Hres. intros res Hr. by injection Hr as <-.
  - destruct (Hnum utxos w1 eq_refl) as (Hmin & Htot & Hamt'). cbv zeta in Hamt'.
    destruct Hest as (est & Hr & _ & _ & Hcan & Hamt). exists est. split; [exact Hr|].
    rewrite (ltb_total 0 _ eq_refl Hamt') in Hcan.
    rewrite (ltb_total _ _ Htot Hmin) in Hgate.
    rewrite negb_involutive in Hgate.
    rewrite (andb_comm (negb _) (min_collection_amount s <=? _)%float) in Hcan.
    rewrite Hcan in *. split.
    + intros Hgo. rewrite Hgo in Hgate. destruct Hgate as [t Ht].
      eexists _, _. split; [by apply Hamt|].
      apply (elem_of_eq_r _ _ _ Ht). apply list_elem_of_further, list_elem_of_here.
    + intros Hno. rewrite Hno in Hgate. destruct Hgate as [Hcalls Hres]. split.
      * intros i o Hin. apply (elem_of_eq_l _ _ _ Hcalls) in Hin. in_list Hin.
      * rewrite Hres. discriminate.
Qed.

Lemma estimate_agrees_with_collect_witness :
  exists e,
    result (exec (scripted funded true "txid") (estimate_collection "B") collector0 tt)
    = inr e /\ can_collect e = true.
Proof.
  destruct (estimate_agrees_with_collect (scripted funded true "txid") collector0 tt "B" None
                                         eq_refl) as (e & He & _).
  - intros utxos w1 [= <- _]. by repeat split.
  - exists e. split; [exact He|].
    vm_compute in He. injection He as <-. reflexivity.
Defined.

(** X2.  [estimate_collection] never raises and awaits the fetch and
    nothing else, whether or not a job is in flight; it writes no field; an
    exception of the fetch becomes the estimate with [can_collect] false
    and that message. *)
Theorem estimate_only_fetches
        {W : Type} (node : Node W) (s : FundsCollector) (w : W) (address : string) :
  let o := exec node (estimate_collection address) s w in
  (exists e, result o = inr e /\ est_address e = address) /\
  calls (trace o) = [GetAddressUtxos address] /\
  final o = s /\
  (forall e w1, get_address_utxos node address w = (inl e, w1) ->
                result o = inr (estimate_failed e address)).
Proof.
  cbv zeta. destruct (estimate_run node s w address) as (Hf & Hc & Hr).
  split; [|split; [exact Hc|split; [exact Hf|]]].
  - destruct (get_address_utxos node address w) as [[e|utxos] w1].
    + eexists. split; [exact Hr|reflexivity].
    + destruct Hr as (est & Hr & Ha & _). by exists est.
  - intros e w1 Heq. by rewrite Heq in Hr.
Qed.

(** What one method call does to the fields. *)
Lemma perform_fields {W : Type} (node : Node W) (op : Operation)
      (s : FundsCollector) (w : W) :
  let s' := final (exec node (perform op) s w) in
  master_address s' = master_address s /\
  is_processing s' = is_processing s /\
  (policy_ok s -> policy_ok s').
Proof.
  cbv zeta. destruct op as [a k|l ks|a|f|v]; unfold exec, perform; unfold_ops.
  - rewrite run_bind. fold (exec node (collect_from_address a k) s w).
    pose proof (collect_keeps_fields node s w a k) as Hf.
    destruct (collect_returns node s w a k) as [r Hr].
    destruct (exec node (collect_from_address a k) s w) as [r' s' w' t]. cbn in Hf, Hr.
    subst. by cbn.
  - rewrite run_bind. unfold collect_multiple.
    fold (exec node (collect_loop l (default ∅ ks) (MkBatchResult (length l) 0 0 [] 0 0)) s w).
    pose proof (collect_loop_keeps_fields node (default ∅ ks) l
                  (MkBatchResult (length l) 0 0 [] 0 0) s w) as Hf.
    destruct (exec node (collect_loop _ _ _) s w) as [[e|r] s' w' t]; cbn in Hf; subst;
      by cbn.
  - rewrite run_bind. fold (exec node (estimate_collection a) s w).
    destruct (estimate_only_fetches node s w a) as ((e & Hr & _) & _ & Hf & _).
    destruct (exec node (estimate_collection a) s w) as [r' s' w' t]. cbn in Hf, Hr.
    subst. by cbn.
  - unfold set_fee. unfold_ops. destruct (f <? 0)%float eqn:Hneg; cbn; [done|].
    split; [done|split; [done|]]. intros [_ Hmin]. by split.
  - unfold set_min_amount. unfold_ops. destruct (v <? 0)%float eqn:Hneg; cbn; [done|].
    split; [done|split; [done|]]. intros [Hfee _]. by split.
Qed.

(** X3.  [set_fee] and [set_min_amount] raise on a value that is [< 0],
    and then write nothing; any other value they write, a NaN included.
    So whatever methods are called, with whatever arguments and answers of
    the node, a fee and a minimum that are not [< 0] stay so, the master
    address stays, and the guard is left as found. *)
Theorem policy_is_kept
        {W : Type} (node : Node W) (ops : list Operation) (s : FundsCollector) (w : W) :
  policy_ok s ->
  let o := exec node (perform_all ops) s w in
  (result o = inr tt /\
   policy_ok (final o) /\
   master_address (final o) = master_address s /\
   is_processing (final o) = is_processing s) /\
  (forall fee s' w',
     setter_outcome (exec node (set_fee fee) s' w') fee
                    "Fee cannot be negative" s' (set_collection_fee fee s') w') /\
  (forall min_amount s' w',
     setter_outcome (exec node (set_min_amount min_amount) s' w') min_amount
                    "Minimum amount cannot be negative" s'
                    (set_min_collection_amount min_amount s') w').
Proof.
  intros Hok. cbv zeta. split; [|split].
  - revert s w Hok. induction ops as [|op ops IH]; intros s w Hok.
    + unfold exec. cbn. done.
    + unfold exec. cbn [perform_all]. unfold_ops. rewrite run_bind, run_try_except.
      fold (exec node (perform op) s w).
      destruct (perform_fields node op s w) as (Hm & Hp & Hpol). cbv zeta in *.
      destruct (exec node (perform op) s w) as [[e|[]] s' w' t]; cbn in Hm, Hp, Hpol;
        unfold and_then; cbn [result final world trace run].
      all: fold (exec node (perform_all ops) s' w').
      all: destruct (IH s' w' (Hpol Hok)) as (Hr & Hok' & Hm' & Hp').
      all: repeat split; try apply Hok'; congruence.
  - intros fee s' w'. unfold setter_outcome, exec, set_fee. unfold_ops.
    by destruct (fee <? 0)%float.
  - intros v s' w'. unfold setter_outcome, exec, set_min_amount. unfold_ops.
    by destruct (v <? 0)%float.
Qed.

Lemma policy_is_kept_witness :
  policy_ok (final (exec (scripted funded true "txid")
                         (perform_all [SetFee (-0.1); Collect "B" None; SetFee 0.01])
                         collector0 tt)).
Proof.
  refine (proj1 (proj2 (proj1 (policy_is_kept (scripted funded true "txid")
                                 [SetFee (-0.1); Collect "B" None; SetFee 0.01]
                                 collector0 tt _)))).
  split; reflexivity.
Defined.



(** X5.  A broadcast is the last call of [collect_from_address] and its
    only broadcast.  With a key, what is sent is the hex of a signing that
    reported [complete]; without a key it is the raw transaction as the
    node built it, and nothing was signed. *)
Theorem broadcast_discipline
        {W : Type} (node : Node W) (s : FundsCollector) (w : W)
        (source : string) (key : option string) (raw : string) :
  let o := exec node (collect_from_address source key) s w in
  SendTransaction raw ∈ calls (trace o) ->
  (exists before, calls (trace o) = before ++ [SendTransaction raw] /\
                  forall r, SendTransaction r ∉ before) /\
  if truthy key then
    exists r k w1 w2 sg,
      sign_raw_transaction node r k w1 = (inr sg, w2) /\
      default false (complete sg) = true /\ raw = hex sg /\
      SignRawTransaction r k ∈ calls (trace o)
  else
    (exists i o' w1 w2, create_raw_transaction node i o' w1 = (inr raw, w2)) /\
    forall r k, SignRawTransaction r k ∉ calls (trace o).
Proof.
  cbv zeta. destruct (is_processing s) eqn:Hp.
  - rewrite collect_busy by done. intros Hin. by apply elem_of_nil in Hin.
  - rewrite collect_free by done. unfold wrapped. cbn [trace].
    apply collect_body_broadcast.
Qed.

Lemma broadcast_discipline_witness :
  exists r k w1 w2 sg,
    sign_raw_transaction (scripted funded true "txid") r k w1 = (inr sg, w2) /\
    default false (complete sg) = true /\ "signed"%string = hex sg.
Proof.
  destruct (broadcast_discipline (scripted funded true "txid") collector0 tt "B"
                                 (Some "key"%string) "signed")
    as (_ & r & k & w1 & w2 & sg & Hs & Hc & Hh & _).
  - vm_compute. do 3 apply list_elem_of_further. apply list_elem_of_here.
  - by exists r, k, w1, w2, sg.
Defined.



Lemma sum_successes_snoc (f : CollectionResult -> option float) (r : CollectionResult)
      (rs : list CollectionResult) :
  sum_successes f (rs ++ [r])
  = if success r then (sum_successes f rs + default 0 (f r))%float else sum_successes f rs.
Proof.
  unfold sum_successes. rewrite List.filter_app. cbn.
  destruct (success r); [|by rewrite app_nil_r].
  by rewrite map_app, fold_left_app.
Qed.

Lemma record_result_books (b : BatchResult) (r : option CollectionResult) :
  books_agree b -> books_agree (record_result b r).
Proof.
  intros [Hc Hf]. destruct r as [res|]; cbn [record_result]; [|done].
  unfold books_agree. destruct (success res) eqn:Hs; cbn [total_collected total_fees collections].
  all: rewrite !sum_successes_snoc, Hs; by rewrite <- Hc, <- Hf.
Qed.

Lemma record_all_books (rs : list (option CollectionResult)) :
  forall b : BatchResult, books_agree b -> books_agree (fold_left record_result rs b).
Proof.
  induction rs as [|r rs IH]; intros b Hb; [done|].
  cbn [fold_left]. by apply IH, record_result_books.
Qed.

(** X7.  In the dictionary [collect_multiple] returns, [total_collected]
    is the sum of the amounts, and [total_fees] the sum of the fees, of the
    successes listed in [collections], added in the order of the list, and
    [successful] is their number. *)
Theorem batch_totals
        {W : Type} (node : Node W) (s : FundsCollector) (w : W)
        (addresses : list string) (private_keys : option (gmap string string)) :
  exists b,
    result (exec node (collect_multiple addresses private_keys) s w) = inr b /\
    total_collected b = sum_successes res_amount (collections b) /\
    total_fees b = sum_successes res_fee (collections b) /\
    successful b = length (List.filter success (collections b)).
Proof.
  unfold collect_multiple.
  destruct (collect_loop_run node (default ∅ private_keys) addresses
              (MkBatchResult (length addresses) 0 0 [] 0 0) s w) as [Hres _].
  eexists. split; [exact Hres|].
  set (rs := map returned (jobs node (default ∅ private_keys) addresses s w)).
  destruct (record_all rs (MkBatchResult (length addresses) 0 0 [] 0 0))
    as (_ & Hs & _ & Hc).
  destruct (record_all_books rs (MkBatchResult (length addresses) 0 0 [] 0 0))
    as [Htc Htf]; [by split|].
  split; [exact Htc|]. split; [exact Htf|].
  cbv zeta in *. rewrite Hc, Hs. cbn [collections successful app Nat.add].
  unfold count. clear. induction rs as [|[r|] rs IH]; cbn; [done| |done].
  destruct (success r); cbn; by rewrite IH.
Qed.

Lemma collect_loop_busy {W : Type} (node : Node W) (keys : gmap string string)
      (s : FundsCollector) (w : W) (addresses : list string) :
  is_processing s = true ->
  forall b : BatchResult,
    let o := exec node (collect_loop addresses keys b) s w in
    result o = inr (MkBatchResult (total b) (successful b)
                                  (failed b + length addresses) (collections b)
                                  (total_collected b) (total_fees b)) /\
    calls (trace o) = repeat (Sleep 2) (length addresses) /\
    final o = s /\ world o = w.
Proof.
  intros Hbusy. induction addresses as [|a rest IH]; intros b; cbv zeta.
  - unfold exec. cbn. rewrite Nat.add_0_r. by destruct b.
  - rewrite collect_loop_cons. cbv zeta. rewrite collect_busy by done.
    unfold returned, logged_all. cbn [result final world trace app].
    destruct (IH (record_result b None)) as (Hr & Hc & Hf & Hw).
    rewrite Hr. split; [|split; [|done]].
    + cbn. do 2 f_equal. lia.
    + unfold calls in *. cbn. f_equal. exact Hc.
Qed.

(** X8.  A batch started while a job is in flight collects nothing: every
    address is counted as failed, [collections] stays empty, the node is
    never called (the loop only sleeps), and the guard stays set. *)
Theorem batch_while_busy
        {W : Type} (node : Node W) (s : FundsCollector) (w : W)
        (addresses : list string) (private_keys : option (gmap string string)) :
  is_processing s = true ->
  let o := exec node (collect_multiple addresses private_keys) s w in
  result o = inr (MkBatchResult (length addresses) 0 (length addresses) [] 0 0) /\
  calls (trace o) = repeat (Sleep 2) (length addresses) /\
  final o = s /\ world o = w.
Proof.
  intros Hbusy. cbv zeta. unfold collect_multiple.
  exact (collect_loop_busy node (default ∅ private_keys) s w addresses Hbusy
                           (MkBatchResult (length addresses) 0 0 [] 0 0)).
Qed.

Lemma batch_while_busy_witness :
  result (exec (scripted funded true "txid") (collect_multiple ["A"; "B"]%string None)
               (set_is_processing true collector0) tt)
  = inr (MkBatchResult 2 0 2 [] 0 0).
Proof.
  refine (proj1 (batch_while_busy (scripted funded true "txid")
                                  (set_is_processing true collector0) tt
                                  ["A"; "B"]%string None _)).
  reflexivity.
Defined.

End CollectorPolicyFacts.

(** ** The monitor, further *)

Module MonitorScenesFacts.
Import Monitor MonitorScenes MonitorFacts.

Local Arguments exec : simpl never.
Local Arguments send_subscriptions : simpl never.
Local Arguments _connect : simpl never.
Local Arguments _listen : simpl never.
Local Arguments _handle_error : simpl never.
Local Arguments _disconnect : simpl never.
Local Arguments _run : simpl never.
Local Arguments Z.pow : simpl never.
Local Arguments Z.mul : simpl never.
Local Arguments Z.add : simpl never.
Local Arguments Z.min : simpl never.
Local Arguments Z.ltb : simpl never.

Ltac unfold_ops :=
  unfold self, assign, call, read, modify, await, mbind, coro_bind, mret, coro_ret in *.

Section Transport.
Context {W : Type} (tr : Transport W).

Lemma start_run (m : TransactionMonitor) (w : W) :
  exec tr start m w
  = if _running m then MkOutcome (inr false) m w []
    else MkOutcome (inr true) (set_running true m) w [].
Proof.
  unfold exec, start. unfold_ops. cbn. by destruct (_running m).
Qed.

(** The loop over the messages of a stream while the monitor runs. *)
Lemma handle_messages_run (messages : list string) :
  forall (m : TransactionMonitor) (w : W),
    _running m = true ->
    let o := exec tr (handle_messages messages) m w in
    result o = inr false /\ final o = m /\
    calls (trace o) = map HandleMessage messages.
Proof.
  induction messages as [|message rest IH]; intros m w Hrun; cbv zeta.
  - unfold exec. by cbn.
  - unfold exec. cbn [handle_messages]. unfold_ops. cbn. rewrite Hrun. cbn.
    destruct (handle_message tr message w) as [[e|[]] w1]; cbn.
    all: destruct (IH m w1 Hrun) as (Hr & Hf & Hc); unfold exec in *.
    all: repeat split; [exact Hr|exact Hf|].
    all: unfold calls in *; cbn; f_equal; exact Hc.
Qed.

Lemma listen_calls (t : list (Event TransportSig)) (messages : list string) :
  calls t = WsListen :: map HandleMessage messages ->
  connects t = 0%nat /\ delays t = [] /\ closings t = 0%nat /\ handled t = messages.
Proof.
  unfold connects, delays, closings, handled. intros ->. cbn.
  induction messages as [|x l IH]; cbn; [done|].
  destruct IH as (? & ? & ? & ->). done.
Qed.

(** [_listen] on an open connection, while the monitor runs. *)
Lemma listen_run (m : TransactionMonitor) (w : W) (url : string) :
  websocket m = Some (MkWebSocketClient url true true) ->
  _running m = true ->
  let o := exec tr _listen m w in
  result o = inr tt /\
  match fst (ws_listen tr w) with
  | inr (messages, ending) =>
      calls (trace o) = WsListen :: map HandleMessage messages /\
      final o = match ending with Some _ => client_lost m | None => m end
  | inl e =>
      calls (trace o) = [WsListen] /\ final o = client_lost m
  end.
Proof.
  intros Hws Hrun. cbv zeta. unfold exec, _listen. unfold_ops. cbn. rewrite Hws. cbn.
  destruct (ws_listen tr w) as [[e|[messages ending]] w1]; cbn.
  - done.
  - rewrite run_bind.
    destruct (handle_messages_run messages m w1 Hrun) as (Hr & Hf & Hc).
    unfold exec in Hr, Hf, Hc.
    destruct (run (Sg:=TransportSig) (transport_env tr) (handle_messages messages) m w1)
      as [r s' w' t]. cbn in Hr, Hf, Hc. subst r s'.
    unfold and_then. cbn [result final world trace].
    destruct ending as [e|]; cbn; rewrite ?app_nil_r; (split; [done|]); (split; [|done]);
      f_equal; exact Hc.
Qed.
End Transport.

(** X9.  [start] never touches the reconnect counter, and on a running
    monitor it does nothing.  So after the monitor has stopped itself with
    the counter at 10, a restart against a transport that still refuses
    ends at the first refused connection, without any delay. *)
Theorem restart_keeps_counter
        {W : Type} (tr : Transport W) (m : TransactionMonitor) (w : W) (fuel : nat) :
  configured m ->
  _running m = false ->
  _reconnect_attempts m = 10 ->
  refuses tr ->
  (1 < fuel)%nat ->
  let o := exec tr (start_and_run fuel) m w in
  (result o = inr (Some tt) /\ connects (trace o) = 1%nat /\ delays (trace o) = [] /\
   _running (final o) = false) /\
  (forall m' w', _reconnect_attempts (final (exec tr start m' w')) = _reconnect_attempts m') /\
  (forall m' w', _running m' = true ->
                 exec tr start m' w' = MkOutcome (inr false) m' w' []).
Proof.
  intros Hconf Hstop Hatt Hrefuses Hfuel. cbv zeta. split; [|split].
  - unfold exec, start_and_run. unfold_ops. rewrite run_bind.
    fold (exec tr start m w). rewrite start_run, Hstop.
    unfold and_then. cbn [result final world trace app].
    fold (exec tr (_run fuel) (set_running true m) w).
    destruct (refused_until_stopped tr 0 (set_running true m) w fuel)
      as (Hr & Hc & Hd & Hs & _); try done.
    repeat split; try done. by destruct (delays _).
  - intros m' w'. rewrite start_run. by destruct (_running m').
  - intros m' w' Hrun. by rewrite start_run, Hrun.
Qed.

Lemma restart_keeps_counter_witness :
  _running (final (exec dead (start_and_run 2) (set_reconnect_attempts 10 monitor0) tt))
  = false.
Proof.
  refine (proj2 (proj2 (proj2 (proj1
            (restart_keeps_counter dead (set_reconnect_attempts 10 monitor0) tt 2
                                   _ _ _ _ _))))).
  - split; reflexivity.
  - reflexivity.
  - reflexivity.
  - intros url w. by exists "refused"%string, w.
  - lia.
Defined.

(** X10.  [stop] clears [_running] whatever the transport does, even
    when closing the connection raises; it connects and sends nothing and
    keeps the tracked set and the counter.  When it returns, the monitor
    has no transport any more, and it returns whenever closing does.  A
    loop that looks at the monitor afterwards ends without a call. *)
Theorem stop_is_safe
        {W : Type} (tr : Transport W) (m : TransactionMonitor) (w : W) :
  let o := exec tr stop m w in
  _running (final o) = false /\
  subscribed_addresses (final o) = subscribed_addresses m /\
  _reconnect_attempts (final o) = _reconnect_attempts m /\
  connects (trace o) = 0%nat /\ sent (trace o) = [] /\
  (result o = inr tt -> has_transport (final o) = false /\ websocket (final o) = None) /\
  (closes tr -> result o = inr tt) /\
  (forall fuel w', exec tr (_run (S fuel)) (final o) w'
                   = MkOutcome (inr (Some tt)) (final o) w' []).
Proof.
  cbv zeta.
  assert (_running (final (exec tr stop m w)) = false) as Hstop.
  { unfold exec, stop, _disconnect. unfold_ops. cbn.
    destruct (websocket m) as [[u sk cn]|]; cbn; [|done].
    destruct sk; cbn; [|done]. by destruct (ws_close tr w) as [[e|[]] w1]. }
  split; [exact Hstop|].
  split; [|split; [|split; [|split; [|split; [|split]]]]].
  7: { intros fuel w'. by apply run_loop_stopped. }
  all: unfold exec, stop, _disconnect; unfold_ops; cbn.
  all: destruct m as [url [[u sk cn]|] c t r d mx n]; cbn; try done.
  all: try (unfold has_transport; cbn; by rewrite andb_false_r).
  all: destruct sk; cbn; try done.
  all: try (destruct (ws_close tr w) as [[e|[]] w1]; cbn; done).
  intros Hclose. destruct (Hclose w) as [w1 ->]. done.
Qed.

(** X11.  On a monitor that is connected through an open client,
    [subscribe_address] tracks the address and then sends its one
    subscription, so that the address stays tracked when the send raises;
    [unsubscribe_address] sends the unsubscription whether or not the
    address was tracked. *)
Theorem subscription_sent_when_online
        {W : Type} (tr : Transport W) (m : TransactionMonitor) (w : W) (a : string) :
  online m ->
  (let o := exec tr (subscribe_address a) m w in
   calls (trace o) = [WsSend (subscription a)] /\
   result o = fst (ws_send tr (subscription a) w) /\
   subscribed_addresses (final o) = {[a]} ∪ subscribed_addresses m) /\
  (let o := exec tr (unsubscribe_address a) m w in
   calls (trace o) = [WsSend (unsubscription a)] /\
   result o = fst (ws_send tr (unsubscription a) w) /\
   forall b, b ∈ subscribed_addresses (final o) <-> b ∈ subscribed_addresses m /\ b <> a).
Proof.
  intros [Hcon [url Hws]]. cbv zeta.
  destruct m as [u0 ws c t r d mx n]. cbn in Hcon, Hws. subst c ws. split.
  - unfold exec, subscribe_address, _send_subscription, client_send. unfold_ops. cbn.
    destruct (ws_send tr (subscription a) w) as [[e|[]] w1]; by cbn.
  - unfold exec, unsubscribe_address, _send_unsubscription, client_send. unfold_ops. cbn.
    case_bool_decide as Hin; cbn.
    + destruct (ws_send tr (unsubscription a) w) as [[e|[]] w1]; cbn;
        (split; [done|split; [done|]]); intros b;
        rewrite elem_of_difference, elem_of_singleton; tauto.
    + destruct (ws_send tr (unsubscription a) w) as [[e|[]] w1]; cbn;
        (split; [done|split; [done|]]); intros b; (split; [|tauto]);
        intros Hb; (split; [done|]); by intros ->.
Qed.

Lemma subscription_sent_when_online_witness :
  calls (trace (exec deaf (subscribe_address "b") watching_online tt))
  = [WsSend (subscription "b")].
Proof.
  refine (proj1 (proj1 (subscription_sent_when_online deaf watching_online tt "b" _))).
  split; [reflexivity|]. by eexists.
Defined.

(** X12.  [_listen] on an open connection never raises.  While the
    monitor runs it hands every message of the stream to
    [_handle_message], in order, whether or not the handling of an earlier
    message raised, and marks the client disconnected exactly when the
    stream ended with an exception.  When the monitor is not running it
    handles no message. *)
Theorem listen_dispatches_in_order
        {W : Type} (tr : Transport W) (m : TransactionMonitor) (w w1 : W) (url : string)
        (messages : list string) (ending : option exn) :
  websocket m = Some (MkWebSocketClient url true true) ->
  ws_listen tr w = (inr (messages, ending), w1) ->
  let o := exec tr _listen m w in
  result o = inr tt /\
  (_running m = true ->
   handled (trace o) = messages /\
   connects (trace o) = 0%nat /\ delays (trace o) = [] /\ closings (trace o) = 0%nat /\
   final o = match ending with Some _ => client_lost m | None => m end) /\
  (_running m = false -> handled (trace o) = []).
Proof.
  intros Hws Hl. cbv zeta. destruct (_running m) eqn:Hrun.
  - destruct (listen_run tr m w url Hws Hrun) as (Hr & Hrest). rewrite Hl in Hrest.
    cbn in Hrest. destruct Hrest as [Hc Hf]. split; [exact Hr|]. split; [|discriminate].
    intros _. destruct (listen_calls _ _ Hc) as (H1 & H2 & H3 & H4). done.
  - unfold exec, _listen. unfold_ops. cbn. rewrite Hws. cbn. rewrite Hl. cbn.
    destruct messages as [|x l]; cbn.
    + destruct ending; cbn; (split; [done|]); split; done.
    + rewrite Hrun. cbn. split; [done|]. split; done.
Qed.

Lemma listen_dispatches_in_order_witness :
  handled (trace (exec chatty _listen watching_online tt)) = ["m1"; "m2"]%string.
Proof.
  refine (proj1 (proj1 (proj2 (listen_dispatches_in_order
            chatty watching_online tt tt _ ["m1"; "m2"]%string (Some "closed"%string)
            _ _)) _)); reflexivity.
Defined.

Section Loops.
Context {W : Type} (tr : Transport W).

Lemma closings_app (t1 t2 : list (Event TransportSig)) :
  closings (t1 ++ t2) = (closings t1 + closings t2)%nat.
Proof.
  unfold closings, calls. by rewrite map_app, List.filter_app, length_app.
Qed.

(** One iteration of the loop in which [_connect] raises and
    [_handle_error] returns. *)
Lemma run_loop_raised (fuel : nat) (m : TransactionMonitor) (w : W) (e : exn) :
  _running m = true ->
  let o1 := exec tr _connect m w in
  let o2 := exec tr (_handle_error e) (final o1) (world o1) in
  result o1 = inl e ->
  result o2 = inr tt ->
  exec tr (_run (S fuel)) m w
  = logged_all (trace o1 ++ trace o2) (exec tr (_run fuel) (final o2) (world o2)).
Proof.
  intros Hrun. cbv zeta. intros H1 H2.
  unfold exec at 1. rewrite run_loop_step. unfold read. cbn. rewrite Hrun.
  rewrite run_bind, run_try_except, run_bind.
  fold (exec tr _connect m w).
  destruct (exec tr _connect m w) as [r1 s1 w1 t1]. cbn in H1, H2 |- *. subst r1.
  unfold and_then at 3. cbn [result final world trace app].
  unfold and_then at 2. cbn [result final world trace app].
  fold (exec tr (_handle_error e) s1 w1).
  destruct (exec tr (_handle_error e) s1 w1) as [r2 s2 w2 t2]. cbn in H2 |- *. subst r2.
  unfold and_then, logged_all. cbn. by rewrite ?app_nil_r, <- ?app_assoc.
Qed.

(** One iteration of the loop in which [_connect] and [_listen] return. *)
Lemma run_loop_listened (fuel : nat) (m : TransactionMonitor) (w : W) :
  _running m = true ->
  let o1 := exec tr _connect m w in
  let o2 := exec tr _listen (final o1) (world o1) in
  result o1 = inr tt ->
  result o2 = inr tt ->
  exec tr (_run (S fuel)) m w
  = logged_all (trace o1 ++ trace o2) (exec tr (_run fuel) (final o2) (world o2)).
Proof.
  intros Hrun. cbv zeta. intros H1 H2.
  unfold exec at 1. rewrite run_loop_step. unfold read. cbn. rewrite Hrun.
  rewrite run_bind, run_try_except, run_bind.
  fold (exec tr _connect m w).
  destruct (exec tr _connect m w) as [r1 s1 w1 t1]. cbn in H1, H2 |- *. subst r1.
  unfold and_then at 3. cbn [result final world trace app].
  fold (exec tr _listen s1 w1).
  destruct (exec tr _listen s1 w1) as [r2 s2 w2 t2]. cbn in H2 |- *. subst r2.
  unfold and_then, logged_all. cbn. by rewrite ?app_nil_r, <- ?app_assoc.
Qed.

(** The replay when every send raises: it ends at the first address. *)
Lemma send_subscriptions_dropped (l : list string) (m : TransactionMonitor) (w : W)
      (url : string) :
  drops_sends tr ->
  l <> [] ->
  websocket m = Some (MkWebSocketClient url true true) ->
  let o := exec tr (send_subscriptions l) m w in
  (exists e, result o = inl e) /\ final o = m /\
  connects (trace o) = 0%nat /\ delays (trace o) = [] /\ closings (trace o) = 0%nat.
Proof.
  intros Hdrop Hne Hws. destruct l as [|a l]; [done|]. cbv zeta.
  unfold exec. rewrite send_subscriptions_cons. unfold _send_subscription, client_send.
  unfold_ops. cbn. rewrite Hws. cbn.
  destruct (Hdrop (subscription a) w) as (e & w1 & ->). cbn. split; [by exists e|done].
Qed.

(** The replay when every send returns. *)
Lemma send_subscriptions_delivered (l : list string) :
  forall (m : TransactionMonitor) (w : W) (url : string),
    delivers tr ->
    websocket m = Some (MkWebSocketClient url true true) ->
    let o := exec tr (send_subscriptions l) m w in
    result o = inr tt /\ final o = m /\
    connects (trace o) = 0%nat /\ delays (trace o) = [] /\ closings (trace o) = 0%nat.
Proof.
  induction l as [|a l IH]; intros m w url Hdel Hws; cbv zeta.
  - unfold exec. by cbn.
  - unfold exec. rewrite send_subscriptions_cons. unfold _send_subscription, client_send.
    unfold_ops. cbn. rewrite Hws. cbn.
    destruct (Hdel (subscription a) w) as (w1 & ->). cbn.
    destruct (IH m w1 url Hdel Hws) as (Hr & Hf & Hc & Hd & Hcl). unfold exec in *.
    repeat split; try done.
Qed.
End Loops.

(** X13.  When the transport accepts the connection but the replay of
    the tracked addresses raises, [_connect] has already reset the counter:
    every round ends with the counter at 1 and a delay of 10 seconds.  The
    delay never grows and the monitor never stops itself, however many
    times this repeats. *)
Theorem failed_replay_never_backs_off
        {W : Type} (tr : Transport W) (fuel : nat) (m : TransactionMonitor) (w : W) :
  configured m ->
  _running m = true ->
  elements (subscribed_addresses m) <> [] ->
  accepts tr -> drops_sends tr -> closes tr ->
  let o := exec tr (_run fuel) m w in
  result o = inr None /\
  _running (final o) = true /\
  connects (trace o) = fuel /\
  delays (trace o) = repeat 10 fuel /\
  ((0 < fuel)%nat -> _reconnect_attempts (final o) = 1).
Proof.
  intros Hconf Hrun Hne Hacc Hdrop Hclose. revert m w Hconf Hrun Hne.
  induction fuel as [|fuel IH]; intros m w [Hd Hmax] Hrun Hne; cbv zeta.
  - unfold exec. cbn. repeat split; [done|lia].
  - destruct (Hacc (node_ws_url m) w) as (w1 & Hc).
    pose proof (connect_accepted tr m w w1 Hc) as Ho1.
    destruct (send_subscriptions_dropped tr (elements (subscribed_addresses m))
                (connected_fields m) w1 (node_ws_url m) Hdrop Hne eq_refl)
      as ((e & Hr) & Hf & Hcs & Hds & _).
    destruct (exec tr (send_subscriptions (elements (subscribed_addresses m)))
                   (connected_fields m) w1) as [r s1 w2 t1] eqn:Hsend.
    cbn [result final trace] in Hr, Hf, Hcs, Hds. subst r s1.
    unfold logged, and_then, connect_handled in Ho1.
    cbn [result final world trace] in Ho1. rewrite app_nil_r in Ho1.
    destruct (handle_error_run tr (set_connected false (connected_fields m)) w2 e
                               (or_introl Hclose)) as (Hr2 & Hcs2 & Hrest).
    cbn [_reconnect_attempts _max_reconnect_attempts _reconnect_delay set_connected
         connected_fields set_reconnect_attempts update_client connecting set_websocket]
      in Hrest.
    rewrite Hmax, Hd in Hrest. change (0 <? 10) with true in Hrest.
    destruct Hrest as [Hf2 Hds2].
    rewrite (run_loop_raised tr fuel m w e Hrun); rewrite Ho1; cbn [result final world trace];
      [|reflexivity|exact Hr2].
    set (o2 := exec tr (_handle_error e) (set_connected false (connected_fields m)) w2) in *.
    destruct (IH (final o2) (world o2)) as (Hres & Hrun' & Hcs' & Hds' & Hatt').
    + rewrite Hf2. split; cbn; unfold disconnected_fields; cbn; done.
    + rewrite Hf2. cbn. unfold disconnected_fields. cbn. exact Hrun.
    + rewrite Hf2. cbn. unfold disconnected_fields. cbn. exact Hne.
    + unfold logged_all. cbn [result final world trace].
      split; [exact Hres|]. split; [exact Hrun'|].
      rewrite <- !app_comm_cons, connects_connect, delays_connect.
      rewrite !connects_app, !delays_app, Hcs, Hds, Hcs2, Hds2, Hcs', Hds'.
      split; [done|]. split; [done|]. intros _.
      destruct fuel as [|fuel'].
      * unfold exec. cbn. rewrite Hf2. reflexivity.
      * apply Hatt'. lia.
Qed.

Lemma failed_replay_never_backs_off_witness :
  delays (trace (exec deaf (_run 20) watching tt)) = repeat 10 20.
Proof.
  refine (proj1 (proj2 (proj2 (proj2
            (failed_replay_never_backs_off deaf 20 watching tt _ _ _ _ _ _))))).
  - split; reflexivity.
  - reflexivity.
  - vm_compute. discriminate.
  - intros url w. by exists w.
  - intros msg w. by exists "send failed"%string, w.
  - intros w. by exists w.
Defined.

(** X14.  When the stream of a connection ends, with or without an
    exception, [_listen] returns and the loop connects again at once:
    against a transport that accepts and delivers, no round sleeps, no
    round closes the connection it leaves behind, and the monitor keeps
    running. *)
Theorem ended_stream_reconnects_at_once
        {W : Type} (tr : Transport W) (fuel : nat) (m : TransactionMonitor) (w : W) :
  _running m = true ->
  accepts tr -> delivers tr ->
  let o := exec tr (_run fuel) m w in
  result o = inr None /\
  _running (final o) = true /\
  connects (trace o) = fuel /\
  delays (trace o) = [] /\
  closings (trace o) = 0%nat.
Proof.
  intros Hrun Hacc Hdel. revert m w Hrun.
  induction fuel as [|fuel IH]; intros m w Hrun; cbv zeta.
  - unfold exec. by cbn.
  - destruct (Hacc (node_ws_url m) w) as (w1 & Hc).
    pose proof (connect_accepted tr m w w1 Hc) as Ho1.
    destruct (send_subscriptions_delivered tr (elements (subscribed_addresses m))
                (connected_fields m) w1 (node_ws_url m) Hdel eq_refl)
      as (Hr & Hf & Hcs & Hds & Hcl).
    destruct (exec tr (send_subscriptions (elements (subscribed_addresses m)))
                   (connected_fields m) w1) as [r s1 w2 t1] eqn:Hsend.
    cbn [result final trace] in Hr, Hf, Hcs, Hds, Hcl. subst r s1.
    unfold logged, and_then, connect_handled in Ho1.
    cbn [result final world trace] in Ho1. rewrite app_nil_r in Ho1.
    destruct (listen_run tr (connected_fields m) w2 (node_ws_url m) eq_refl Hrun)
      as (Hr2 & Hrest).
    assert (exists messages,
               calls (trace (exec tr _listen (connected_fields m) w2))
               = WsListen :: map HandleMessage messages /\
               _running (final (exec tr _listen (connected_fields m) w2)) = true)
      as (messages & Hcalls & Hrun2).
    { destruct (fst (ws_listen tr w2)) as [e|[messages ending]].
      - exists []. destruct Hrest as [-> ->]. done.
      - exists messages. destruct Hrest as [-> ->]. by destruct ending. }
    destruct (listen_calls _ _ Hcalls) as (Hcs2 & Hds2 & Hcl2 & _).
    rewrite (run_loop_listened tr fuel m w Hrun); rewrite Ho1;
      cbn [result final world trace]; [|reflexivity|exact Hr2].
    set (o2 := exec tr _listen (connected_fields m) w2) in *.
    destruct (IH (final o2) (world o2) Hrun2) as (Hres & Hrun' & Hcs' & Hds' & Hcl').
    unfold logged_all. cbn [result final world trace].
    split; [exact Hres|]. split; [exact Hrun'|].
    rewrite <- !app_comm_cons, connects_connect, delays_connect.
    rewrite !connects_app, !delays_app, Hcs, Hds, Hcs2, Hds2, Hcs', Hds'.
    split; [done|]. split; [done|].
    change (closings (MkEvent (Sg:=TransportSig) (WsConnect (node_ws_url m)) None
                              :: (t1 ++ trace o2) ++ trace (exec tr (_run fuel) (final o2) (world o2))))
      with (closings ((t1 ++ trace o2) ++ trace (exec tr (_run fuel) (final o2) (world o2)))).
    by rewrite !closings_app, Hcl, Hcl2, Hcl'.
Qed.

Lemma ended_stream_reconnects_at_once_witness :
  delays (trace (exec chatty (_run 5) watching tt)) = [].
Proof.
  refine (proj1 (proj2 (proj2 (proj2
            (ended_stream_reconnects_at_once chatty 5 watching tt _ _ _))))).
  - reflexivity.
  - intros url w. by exists w.
  - intros msg w. by exists w.
Defined.

End MonitorScenesFacts.

(** ** The handling of one message *)

Module MessageHandlingFacts.
Import MessageHandling.

Ltac unfold_ops :=
  unfold self, call, lift, read, modify, await, mbind, coro_bind, mret, coro_ret in *.

Ltac handler_step :=
  cbn in *;
  match goal with
  | |- context [json_loads ?h ?m] =>
      destruct (json_loads h m) as [?e|?data] eqn:?Hloads
  | |- context [get_transaction ?h ?t ?w0] =>
      destruct (get_transaction h t w0) as [[?e|?info] ?w] eqn:?Hlookup
  | |- context [callback ?h ?ev ?w0] =>
      destruct (callback h ev w0) as [[?e|[]] ?w] eqn:?Hcb
  | |- context [get ?d ?k ?f] =>
      destruct (get d k f) as [?e|?v] eqn:?Hget
  | |- context [if ?b then _ else _] => destruct b eqn:?Htest
  end;
  cbn in *.

Ltac handler_cases :=
  unfold exec, _handle_message, _get_transaction_details; unfold_ops; repeat handler_step.

Ltac in_list H :=
  repeat (apply elem_of_cons in H as [H|H]; [try discriminate H|]);
  try (by apply elem_of_nil in H).

(** X15.  [_handle_message] never raises, whatever the decoder, the node
    and the callback do, and writes no field; it looks up at most one
    transaction and calls the callback at most once; without a registered
    callback it does nothing but decode. *)
Theorem handle_message_never_raises
        {W : Type} (h : Handlers W) (s : Listener) (w : W) (message : string) :
  let o := exec h (_handle_message message) s w in
  result o = inr tt /\ final o = s /\
  (length (lookups (trace o)) <= 1)%nat /\
  (length (deliveries (trace o)) <= 1)%nat /\
  (on_transaction s = false -> calls (trace o) = [JsonLoads message]).
Proof.
  cbv zeta. destruct s as [cb]. handler_cases.
  all: repeat split; cbn; try lia; try done.
  all: intros ->.
  all: repeat match goal with
         | H : _ && _ = true |- _ => apply andb_prop in H as [? ?]
         end; discriminate.
Qed.

(** X16.  Every call of the callback is justified by the message: the
    message decoded, a callback is registered, and either the method is
    [subscribeAddresses], the address and the [tx] entry are true values
    and the event carries that address with the transaction that the
    node's lookup of [tx.txid] returned, itself a true value; or the method
    is [subscribeNewBlock] and the event carries the [data] entry, a true
    value. *)
Theorem deliveries_are_justified
        {W : Type} (h : Handlers W) (s : Listener) (w : W) (message : string)
        (ev : InboundEvent) :
  OnTransaction ev ∈ calls (trace (exec h (_handle_message message) s w)) ->
  on_transaction s = true /\
  exists data method,
    json_loads h message = inr data /\ get data "method" JNull = inr method /\
    match ev with
    | AddressTransaction a info =>
        is_str method "subscribeAddresses" = true /\
        exists ad tx txid w1,
          get data "data" (JObj []) = inr ad /\
          get ad "address" JNull = inr a /\ truth a = true /\
          get ad "tx" (JObj []) = inr tx /\ truth tx = true /\
          get tx "txid" JNull = inr txid /\
          get_transaction h txid w = (inr info, w1) /\ truth info = true
    | NewBlock b =>
        is_str method "subscribeAddresses" = false /\
        is_str method "subscribeNewBlock" = true /\
        get data "data" (JObj []) = inr b /\ truth b = true
    end.
Proof.
  destruct s as [cb]. handler_cases; intros Hin; in_list Hin.
  all: injection Hin as ->.
  all: repeat match goal with
         | H : _ && _ = true |- _ => apply andb_prop in H as [? ?]
         end; subst.
  all: split; [done|]; eexists _, _; split; [reflexivity|]; split; [eassumption|].
  all: try (split; [done|]; eexists _, _, _, _; repeat split; eassumption).
  all: repeat split; first [eassumption|done].
Qed.

Lemma deliveries_are_justified_witness :
  exists data method,
    json_loads scripted_handlers "addr" = inr data /\
    get data "method" JNull = inr method /\
    is_str method "subscribeAddresses" = true.
Proof.
  destruct (deliveries_are_justified
              scripted_handlers (MkListener true) tt "addr"
              (AddressTransaction (JStr "a1") tx_detail))
    as (_ & data & method & Hl & Hm & Hs & _).
  - vm_compute. do 2 apply list_elem_of_further. apply list_elem_of_here.
  - by exists data, method.
Defined.

(** X17.  With a callback registered, a decoded address message with a
    true address is looked up once, by its [txid], and delivered once with
    the transaction found; when the lookup raises or finds a false value
    nothing is delivered.  A decoded block message with true [data] is
    delivered as it is, without a lookup. *)
Theorem messages_are_dispatched
        {W : Type} (h : Handlers W) (w : W) (message : string) :
  (forall a t more,
      json_loads h message = inr (address_message a t more) ->
      truth a = true ->
      let o := exec h (_handle_message message) (MkListener true) w in
      lookups (trace o) = [t] /\
      deliveries (trace o)
      = match fst (get_transaction h t w) with
        | inr info => if truth info then [AddressTransaction a info] else []
        | inl _ => []
        end) /\
  (forall block,
      json_loads h message = inr (block_message block) ->
      truth block = true ->
      let o := exec h (_handle_message message) (MkListener true) w in
      lookups (trace o) = [] /\ deliveries (trace o) = [NewBlock block]).
Proof.
  split.
  - intros a t more Hl Ha. cbv zeta.
    unfold exec, _handle_message, _get_transaction_details; unfold_ops. cbn.
    rewrite Hl. cbn. rewrite Ha. cbn.
    destruct (get_transaction h t w) as [[e|info] w1]; cbn; [done|].
    destruct (truth info); cbn; [|done].
    by destruct (callback h _ w1) as [[e|[]] w2].
  - intros block Hl Hb. cbv zeta.
    unfold exec, _handle_message; unfold_ops. cbn.
    rewrite Hl. cbn. rewrite Hb. cbn.
    by destruct (callback h _ w) as [[e|[]] w2].
Qed.

Lemma messages_are_dispatched_witness :
  deliveries (trace (exec scripted_handlers (_handle_message "addr") (MkListener true) tt))
  = [AddressTransaction (JStr "a1") tx_detail].
Proof.
  refine (proj2 (proj1 (messages_are_dispatched scripted_handlers tt "addr")
                       (JStr "a1") (JStr "t1") [] _ _)); reflexivity.
Defined.

End MessageHandlingFacts.

(** ** The node factory *)

Module FactoryFacts.
Import Factory.

Lemma dict_get_set_eq {A : Type} (k : string) (v : A) (d : list (string * A)) :
  dict_get k (dict_set k v d) = Some v.
Proof.
  induction d as [|[k' v'] d IH]; cbn.
  - by rewrite String.eqb_refl.
  - destruct (String.eqb_spec k' k) as [->|Hne]; cbn.
    + by rewrite String.eqb_refl.
    + by destruct (String.eqb_spec k' k).
Qed.

Lemma dict_get_set_ne {A : Type} (k k' : string) (v : A) (d : list (string * A)) :
  k' <> k -> dict_get k' (dict_set k v d) = dict_get k' d.
Proof.
  intros Hne. induction d as [|[k0 v0] d IH]; cbn.
  - by destruct (String.eqb_spec k k').
  - destruct (String.eqb_spec k0 k) as [->|Hk]; cbn.
    + by destruct (String.eqb_spec k k').
    + by rewrite IH.
Qed.

Lemma dict_get_None {A : Type} (k : string) (d : list (string * A)) :
  dict_get k d = None <-> k ∉ keys d.
Proof.
  unfold keys. induction d as [|[k' v] d IH]; cbn.
  - split; [intros _; apply not_elem_of_nil|done].
  - rewrite not_elem_of_cons. destruct (String.eqb_spec k' k) as [->|Hne].
    + split; [done|]. by intros [? _].
    + rewrite IH. split; [done|]. by intros [_ ?].
Qed.

Lemma keys_dict_set {A : Type} (k : string) (v : A) (d : list (string * A)) :
  keys (dict_set k v d) = if bool_decide (k ∈ keys d) then keys d else keys d ++ [k].
Proof.
  unfold keys. induction d as [|[k' v'] d IH]; cbn.
  - case_bool_decide as H; [by apply elem_of_nil in H|done].
  - destruct (String.eqb_spec k' k) as [->|Hne]; cbn.
    + rewrite bool_decide_eq_true_2; [done|apply list_elem_of_here].
    + rewrite IH. case_bool_decide as H.
      * rewrite bool_decide_eq_true_2; [done|by apply list_elem_of_further].
      * rewrite bool_decide_eq_false_2; [done|].
        rewrite elem_of_cons. intros [->|?]; done.
Qed.

Lemma lookup_union_first (m1 m2 : Config) (k : string) :
  (m1 ∪ m2) !! k = match m1 !! k with Some v => Some v | None => m2 !! k end.
Proof. rewrite lookup_union. by destruct (m1 !! k), (m2 !! k). Qed.

Lemma config_truthy_false (c : option Config) :
  config_truthy c = false -> default ∅ c = ∅.
Proof.
  destruct c as [c|]; cbn; [|done]. case_bool_decide; [done|discriminate].
Qed.

Section Upper.
Variable upper : string -> string.

(** The dictionary [create] has built when it looks for the key: the
    given configuration over the registry's defaults. *)
Lemma create_unfold r coin key config kwargs :
  create_arguments upper r coin key config kwargs =
  match dict_get (upper coin) (_node_classes r) with
  | None => inl (unsupported (upper coin) r)
  | Some cls =>
      let base : Config :=
        default ∅ config ∪ default ∅ (_default_configs r !! upper coin) in
      if str_truthy key
      then inr (cls, <["coin_type"%string := VStr (upper coin)]>
                       (kwargs ∪ <["api_key"%string :=
                                     VStr (default EmptyString key)]> base))
      else match base !! "api_key"%string with
           | Some _ => inr (cls, <["coin_type"%string := VStr (upper coin)]>
                                   (kwargs ∪ base))
           | None => inl no_api_key
           end
  end.
Proof.
  unfold create_arguments. destruct (dict_get _ _) as [cls|]; [|done].
  assert ((match _default_configs r !! upper coin with
           | Some d => d ∪ (∅ : Config)
           | None => ∅
           end) = default ∅ (_default_configs r !! upper coin)) as ->.
  { destruct (_ !! upper coin); cbn; [apply (right_id_L ∅ (∪))|done]. }
  assert ((if config_truthy config
           then default ∅ config ∪ default ∅ (_default_configs r !! upper coin)
           else default ∅ (_default_configs r !! upper coin))
          = default ∅ config ∪ default ∅ (_default_configs r !! upper coin)) as ->.
  { destruct (config_truthy config) eqn:Hc; [done|].
    rewrite (config_truthy_false _ Hc). by rewrite (left_id_L ∅ (∪)). }
  cbn zeta. destruct (str_truthy key); [done|].
  case_bool_decide as Hk.
  - apply elem_of_dom in Hk as [v ->]. done.
  - apply not_elem_of_dom in Hk. by rewrite Hk.
Qed.
End Upper.

(** X18.  [NodeFactory.create] merges its sources by precedence.  When it
    comes to the constructor call, the class is the one registered for the
    upper-cased coin type; the argument [coin_type] is the upper-cased coin
    type whatever the sources say; [api_key] is the [api_key] argument when
    that is a non-empty string, else what [config] or, failing that, the
    registry's defaults say, and it is always present; every other key is
    taken from the keyword arguments, then from [config], then from the
    registry's defaults. *)
Theorem create_merges_by_precedence (upper : string -> string) (r : Registry)
        (coin : string) (key : option string) (config : option Config)
        (kwargs : Config) (cls : NodeClass) (cfg : Config) :
  keyword_arguments kwargs ->
  create_arguments upper r coin key config kwargs = inr (cls, cfg) ->
  let defaults := default ∅ (_default_configs r !! upper coin) in
  dict_get (upper coin) (_node_classes r) = Some cls /\
  cfg !! "coin_type"%string = Some (VStr (upper coin)) /\
  cfg !! "api_key"%string =
    (if str_truthy key then Some (VStr (default EmptyString key))
     else by_precedence "api_key" [default ∅ config; defaults]) /\
  is_Some (cfg !! "api_key"%string) /\
  forall k : string, k <> "coin_type"%string -> k <> "api_key"%string ->
    cfg !! k = by_precedence k [kwargs; default ∅ config; defaults].
Proof.
  intros (_ & Hkw & _). rewrite create_unfold.
  destruct (dict_get _ _) as [cls'|]; [|done]. cbn zeta.
  destruct (str_truthy key) eqn:Hkey.
  - intros [= -> <-]. split; [done|]. split; [by rewrite lookup_insert_eq|].
    assert ((<["coin_type"%string:=VStr (upper coin)]>
               (kwargs ∪ <["api_key"%string:=VStr (default EmptyString key)]>
                  (default ∅ config ∪ default ∅ (_default_configs r !! upper coin))))
              !! "api_key"%string = Some (VStr (default EmptyString key))) as Hk.
    { rewrite lookup_insert_ne by done. rewrite lookup_union_first, Hkw.
      by rewrite lookup_insert_eq. }
    split; [done|]. split; [by rewrite Hk|].
    intros k Hct Hak. rewrite lookup_insert_ne by done.
    rewrite lookup_union_first. cbn. destruct (kwargs !! k); [done|].
    rewrite lookup_insert_ne by done. rewrite lookup_union_first.
    by destruct (default ∅ config !! k), (default ∅ (_default_configs r !! upper coin) !! k).
  - destruct ((default ∅ config ∪ default ∅ (_default_configs r !! upper coin))
                !! "api_key"%string) as [v|] eqn:Hbase; [|done].
    intros [= -> <-]. split; [done|]. split; [by rewrite lookup_insert_eq|].
    assert ((<["coin_type"%string:=VStr (upper coin)]>
               (kwargs ∪ (default ∅ config ∪ default ∅ (_default_configs r !! upper coin))))
              !! "api_key"%string = Some v) as Hk.
    { rewrite lookup_insert_ne by done. by rewrite lookup_union_first, Hkw. }
    split.
    { rewrite Hk. rewrite lookup_union_first in Hbase. cbn.
      by destruct (default ∅ config !! "api_key"%string),
           (default ∅ (_default_configs r !! upper coin) !! "api_key"%string). }
    split; [by rewrite Hk|].
    intros k Hct Hak. rewrite lookup_insert_ne by done.
    rewrite !lookup_union_first. cbn. destruct (kwargs !! k); [done|].
    by destruct (default ∅ config !! k), (default ∅ (_default_configs r !! upper coin) !! k).
Qed.

Lemma create_merges_by_precedence_witness :
  exists cfg,
    create_arguments ascii_upper initial "ltc" (Some "k"%string)
           (Some {[ "network"%string := VStr "testnet" ]})
           {[ "decimals"%string := VInt 6 ]} = inr (LitecoinNode, cfg) /\
    cfg !! "coin_type"%string = Some (VStr "LTC") /\
    cfg !! "api_key"%string = Some (VStr "k") /\
    cfg !! "decimals"%string = Some (VInt 6) /\
    cfg !! "network"%string = Some (VStr "testnet").
Proof.
  assert (exists cfg,
            create_arguments ascii_upper initial "ltc" (Some "k"%string)
                   (Some {[ "network"%string := VStr "testnet" ]})
                   {[ "decimals"%string := VInt 6 ]} = inr (LitecoinNode, cfg))
    as [cfg Hc].
  { rewrite create_unfold. eexists. reflexivity. }
  exists cfg. split; [exact Hc|].
  destruct (create_merges_by_precedence ascii_upper initial "ltc"
              (Some "k"%string) (Some {[ "network"%string := VStr "testnet" ]})
              {[ "decimals"%string := VInt 6 ]} LitecoinNode cfg)
    as (_ & Hct & Hak & _ & Hk).
  - repeat split; by apply lookup_singleton_ne.
  - exact Hc.
  - split; [exact Hct|]. split; [exact Hak|]. split.
    + rewrite Hk by done. cbn [by_precedence]. by rewrite lookup_singleton_eq.
    + rewrite Hk by done. cbn [by_precedence default from_option id].
      rewrite lookup_singleton_ne by done. by rewrite lookup_singleton_eq.
Defined.

Lemma create_arguments_fail (upper : string -> string) (r : Registry)
      (coin : string) (key : option string) (config : option Config)
      (kwargs : Config) (e : exn) :
  create_arguments upper r coin key config kwargs = inl e <->
  ((upper coin ∉ get_supported_coins r) /\ e = unsupported (upper coin) r) \/
  (upper coin ∈ get_supported_coins r /\
   str_truthy key = false /\
   by_precedence "api_key" [default ∅ config; get_coin_config upper r coin] = None /\
   e = no_api_key).
Proof.
  rewrite create_unfold. unfold get_supported_coins, get_coin_config.
  destruct (dict_get (upper coin) (_node_classes r)) as [cls|] eqn:Hcls.
  - assert (upper coin ∈ keys (_node_classes r)) as Hin.
    { destruct (decide (upper coin ∈ keys (_node_classes r))) as [|Hn]; [done|].
      apply dict_get_None in Hn. congruence. }
    cbn zeta. rewrite lookup_union_first. cbn.
    destruct (str_truthy key).
    + split; [done|]. intros [[? _]|(_ & ? & _)]; done.
    + destruct (default ∅ config !! "api_key"%string);
        [split; [done|]; intros [[? _]|(_ & _ & ? & _)]; done|].
      destruct (default ∅ (_default_configs r !! upper coin) !! "api_key"%string).
      * split; [done|]. intros [[? _]|(_ & _ & ? & _)]; done.
      * split.
        -- intros [= <-]. by right.
        -- intros [[? _]|(_ & _ & _ & ->)]; done.
  - apply dict_get_None in Hcls. split.
    + intros [= <-]. by left.
    + intros [[_ ->]|[? _]]; done.
Qed.

(** X19.  The three ways [NodeFactory.create] fails, and no other.  It
    raises exactly when the upper-cased coin type is not among the
    supported coins, with a message that lists those; or when the coin is
    supported, the [api_key] argument is missing or empty, and neither
    [config] nor the coin's default configuration has the key [api_key];
    or when the constructor of the coin's class raises on the merged
    arguments, and then with the constructor's exception.  The three are
    tried in this order. *)
Theorem create_fails_exactly_when {Instance : Type} (upper : string -> string)
        (construct : NodeClass -> Config -> exn + Instance) (r : Registry)
        (coin : string) (key : option string) (config : option Config)
        (kwargs : Config) (e : exn) :
  create upper construct r coin key config kwargs = inl e <->
  ((upper coin ∉ get_supported_coins r) /\ e = unsupported (upper coin) r) \/
  (upper coin ∈ get_supported_coins r /\
   str_truthy key = false /\
   by_precedence "api_key" [default ∅ config; get_coin_config upper r coin] = None /\
   e = no_api_key) \/
  (exists node_class final_config,
      create_arguments upper r coin key config kwargs = inr (node_class, final_config) /\
      construct node_class final_config = inl e).
Proof.
  unfold create.
  pose proof (create_arguments_fail upper r coin key config kwargs) as Hargs.
  destruct (create_arguments upper r coin key config kwargs) as [e0|[cls cfg]].
  - split.
    + intros [= <-]. destruct (proj1 (Hargs e0) eq_refl) as [?|?]; [by left|by right; left].
    + intros [H|[H|(? & ? & [=] & _)]].
      * pose proof (proj2 (Hargs e) (or_introl H)) as [= ->]. done.
      * pose proof (proj2 (Hargs e) (or_intror H)) as [= ->]. done.
  - split.
    + intros Hraise. right. right. by exists cls, cfg.
    + intros [H|[H|(? & ? & [= <- <-] & Hraise)]]; [| |done].
      * assert (@inr exn _ (cls, cfg) = inl e) as Habs by (apply Hargs; by left).
        discriminate Habs.
      * assert (@inr exn _ (cls, cfg) = inl e) as Habs by (apply Hargs; by right).
        discriminate Habs.
Qed.

Lemma create_fails_exactly_when_witness :
  create ascii_upper strict_constructor initial "ltc" (Some "k"%string)
         (Some {[ "blockbook_url"%string := VInt 5 ]}) ∅
  = inl "'int' object has no attribute 'rstrip'"%string.
Proof.
  apply (create_fails_exactly_when ascii_upper strict_constructor initial "ltc").
  right. right. eexists _, _. split.
  - rewrite create_unfold. reflexivity.
  - unfold strict_constructor.
    rewrite lookup_insert_ne by done. rewrite lookup_union_first, lookup_empty.
    rewrite lookup_insert_ne by done. rewrite lookup_union_first.
    cbn [default from_option id]. by rewrite lookup_singleton_eq.
Defined.

(** X20.  The registry as shipped.  On the built-in registry [create]
    comes to the constructor call exactly when the upper-cased coin type is
    [LTC], [DOGE] or [BTC] and an API key is given, as a non-empty [api_key]
    argument or under the key [api_key] of [config]: no default
    configuration supplies one. *)
Theorem builtin_registry_needs_a_key (upper : string -> string) (coin : string)
        (key : option string) (config : option Config) (kwargs : Config) :
  (exists res, create_arguments upper initial coin key config kwargs = inr res) <->
  upper coin ∈ ["LTC"; "DOGE"; "BTC"]%string /\
  (str_truthy key = true \/ is_Some (default ∅ config !! "api_key"%string)).
Proof.
  assert (forall c, c ∈ ["LTC"; "DOGE"; "BTC"]%string ->
            default ∅ (_default_configs initial !! c) !! "api_key"%string = None) as Hdef.
  { intros c Hc. rewrite !elem_of_cons in Hc.
    destruct Hc as [->|[->|[->|Hc]]]; [by vm_compute..|by apply elem_of_nil in Hc]. }
  rewrite create_unfold.
  destruct (dict_get (upper coin) (_node_classes initial)) as [cls|] eqn:Hcls.
  - assert (upper coin ∈ ["LTC"; "DOGE"; "BTC"]%string) as Hin.
    { destruct (decide (upper coin ∈ keys (_node_classes initial))) as [|Hn]; [done|].
      apply dict_get_None in Hn. congruence. }
    cbn zeta. rewrite lookup_union_first, (Hdef _ Hin).
    destruct (str_truthy key).
    + split; [intros _; split; [done|by left]|intros _; by eexists].
    + destruct (default ∅ config !! "api_key"%string) as [v|].
      * split; [intros _; split; [done|by right]|intros _; by eexists].
      * split; [by intros [? ?]|].
        intros (_ & [?|[? ?]]); done.
  - apply dict_get_None in Hcls. split; [by intros [? ?]|]. by intros [? _].
Qed.

(** X21.  [register_coin] followed by [create].  After a coin is
    registered, [create] with a non-empty API key comes to the
    constructor call of the registered class for that symbol, in any
    letter case the two calls agree on after upper-casing; the list of
    supported coins keeps its order, a new symbol going to the end and a
    known one keeping its place;
    the coin's default configuration is the registered one, or the old one
    when none (or an empty one) is given; and every call of [create] for
    another coin that came to its constructor call before does so again,
    with the same class and arguments. *)
Theorem registered_coin_is_created (upper : string -> string) (r : Registry)
        (sym : string) (cls : NodeClass) (cfg : option Config) (key : option string) :
  str_truthy key = true ->
  let r' := register_coin upper sym cls cfg r in
  (forall config kwargs,
      exists c,
        create_arguments upper r' sym key config kwargs = inr (cls, c) /\
        forall (Instance : Type) (construct : NodeClass -> Config -> exn + Instance),
          create upper construct r' sym key config kwargs = construct cls c) /\
  get_supported_coins r' =
    (if bool_decide (upper sym ∈ get_supported_coins r)
     then get_supported_coins r
     else get_supported_coins r ++ [upper sym]) /\
  get_coin_config upper r' sym =
    (if config_truthy cfg then default ∅ cfg else get_coin_config upper r sym) /\
  forall other key' config kwargs res,
    upper other <> upper sym ->
    create_arguments upper r other key' config kwargs = inr res ->
    create_arguments upper r' other key' config kwargs = inr res.
Proof.
  intros Hkey r'. split; [|split; [|split]].
  - intros config kwargs. unfold create. rewrite create_unfold. subst r'.
    cbn [register_coin _node_classes].
    rewrite dict_get_set_eq. cbn zeta. rewrite Hkey. by eexists.
  - apply keys_dict_set.
  - unfold get_coin_config. subst r'. cbn [register_coin _default_configs].
    destruct (config_truthy cfg); [by rewrite lookup_insert_eq|done].
  - intros other key' config kwargs res Hne. rewrite !create_unfold.
    subst r'. cbn [register_coin _node_classes _default_configs].
    rewrite dict_get_set_ne by done.
    destruct (dict_get (upper other) (_node_classes r)); [|done].
    destruct (config_truthy cfg); [|done].
    by rewrite lookup_insert_ne.
Qed.

Lemma registered_coin_is_created_witness :
  exists c,
    create_arguments ascii_upper
           (register_coin ascii_upper "xmr" (Custom "MoneroNode") None initial)
           "Xmr" (Some "k"%string) None ∅ = inr (Custom "MoneroNode", c).
Proof.
  destruct (proj1 (registered_coin_is_created ascii_upper initial "xmr" (Custom "MoneroNode")
                     None (Some "k"%string) eq_refl) None ∅) as (c & Hc & _).
  by exists c.
Defined.

End FactoryFacts.

(** ** The RPC client and the node's calls through it *)

Module RpcFacts.
Import MessageHandling Rpc.

Ltac unfold_ops :=
  unfold lift, read, modify, await, mbind, coro_bind, mret, coro_ret in *.

Section Python.
Variable py : Runtime.

Lemma contains_error_dict (v : json) : contains py "error" (error_dict v) = inr true.
Proof. done. Qed.

Lemma item_error_dict (v : json) : item py (error_dict v) "error" = inr v.
Proof. done. Qed.

Lemma contains_obj (fields : list (string * json)) :
  contains py "error" (JObj fields) = inr false <-> assoc "error" fields = None.
Proof.
  cbn. case_bool_decide as H.
  - split; [done|]. intros Hn. rewrite Hn in H. by destruct H.
  - split; [|done]. intros _. destruct (assoc "error" fields); [|done].
    destruct H. by eexists.
Qed.

Section Http.
Context {W : Type}.
Variable http : forall c : HttpCall, W -> (exn + HttpResp c) * W.

Ltac call_step :=
  cbn in *;
  match goal with
  | |- context [http (Post ?u ?h ?p) ?w0] =>
      destruct (http (Post u h p) w0) as [[?e|[|?status]] ?w] eqn:?Hpost
  | |- context [http ResponseJson ?w0] =>
      destruct (http ResponseJson w0) as [[?e|[|?body]] ?w] eqn:?Hjson
  | |- context [http ResponseText ?w0] =>
      destruct (http ResponseText w0) as [[?e|[|?text]] ?w] eqn:?Htext
  | |- context [contains py ?k ?v] =>
      destruct (contains py k v) as [?e|[|]] eqn:?Hin
  | |- context [item py ?v ?k] =>
      destruct (item py v k) as [?e|?err] eqn:?Hitem
  | |- context [is_none ?v] => destruct (is_none v) eqn:?Hnone
  | |- context [(?a =? ?b)%Z] => destruct (Z.eqb_spec a b)
  end;
  cbn in *.

Ltac call_cases :=
  unfold the_call, call; unfold_ops; repeat call_step.

(** What [call] returns: an error dictionary of its own, whose [error]
    is never [None], or the decoded body of a 200 answer, unchanged. *)
Lemma call_returns method params c w :
  let o := the_call py http method params c w in
  exists r,
    result o = inr r /\
    session (final o) = true /\ rpc_url (final o) = rpc_url c /\
    headers (final o) = headers c /\
    ((exists v, r = error_dict v /\ is_none v = false) \/
     (answered http (rpc_url c) (headers c) (payload_of method (default [] params)) w r /\
      (contains py "error" r = inr false \/ item py r "error" = inr JNull))).
Proof.
  cbv zeta. destruct c as [url hs [|]]. 
  all: call_cases.
  all: eexists; split; [reflexivity|]; repeat (split; [reflexivity|]).
  all: try (left; eexists; split; [reflexivity|]; first [done|eassumption]).
  all: right; subst; (split; [by eexists _, _|]).
  all: first [by left | right].
  all: destruct err; first [done|discriminate].
Qed.

(** What [call] makes of a 200 answer with body [body]. *)
Lemma call_answered method params c w body :
  answered http (rpc_url c) (headers c) (payload_of method (default [] params)) w body ->
  result (the_call py http method params c w) =
  inr (match contains py "error" body with
       | inl e => error_dict (JStr e)
       | inr false => body
       | inr true =>
           match item py body "error" with
           | inl e => error_dict (JStr e)
           | inr v => if is_none v then body else error_dict v
           end
       end).
Proof.
  intros (w1 & w2 & Hp & Hj). destruct c as [url hs [|]]; cbn in Hp.
  all: unfold the_call, call; unfold_ops; cbn.
  all: rewrite Hp; cbn; rewrite Hj; cbn.
  all: destruct (contains py "error" body) as [e|[|]]; cbn; [done| |done].
  all: destruct (item py body "error") as [e|v]; cbn; [done|].
  all: by destruct (is_none v).
Qed.

(** [call] posts once, and reads the answer at most once. *)
Lemma call_posts_once method params c w :
  exists rest,
    calls (trace (the_call py http method params c w)) =
    Post (rpc_url c) (headers c) (payload_of method (default [] params)) :: rest /\
    (length rest <= 1)%nat.
Proof.
  destruct c as [url hs [|]].
  all: call_cases.
  all: eexists; split; [reflexivity|]; cbn; lia.
Qed.
End Http.

Section Node.
Context {W : Type}.
Variable rpc : forall c : NodeCall, W -> (exn + NodeResp c) * W.

Ltac node_step :=
  cbn in *;
  match goal with
  | |- context [rpc (RpcCall ?m ?p) ?w0] =>
      destruct (rpc (RpcCall m p) w0) as [[?e|?answer] ?w] eqn:?Hrpc
  | |- context [contains py ?k ?v] =>
      destruct (contains py k v) as [?e|[|]] eqn:?Hin
  | |- context [item py ?v ?k] =>
      destruct (item py v k) as [?e|?err] eqn:?Hitem
  | |- context [get_or py ?v ?k ?f] =>
      destruct (get_or py v k f) as [?e|?x] eqn:?Hget
  end;
  cbn in *.

Lemma get_or_obj (v : json) (key : string) (fallback x : json) :
  get_or py v key fallback = inr x ->
  exists fields, v = JObj fields /\ x = default fallback (assoc key fields).
Proof. destruct v; cbn; try done. intros [= <-]. by eexists. Qed.

Lemma send_returns (tx : json) (s : LitecoinNode) (w : W) (txid : json) :
  result (the_node rpc (send_transaction py tx) s w) = inr txid <->
  rpc_client s = true /\
  exists fields w1,
    rpc (RpcCall "sendrawtransaction" (Some [tx])) w = (inr (JObj fields), w1) /\
    assoc "error" fields = None /\
    txid = default JNull (assoc "result" fields).
Proof.
  destruct s as [[|] net]; unfold the_node, send_transaction; unfold_ops; cbn.
  2: { split; [done|]. by intros [? _]. }
  destruct (rpc (RpcCall "sendrawtransaction" (Some [tx])) w) as [[e|answer] w1] eqn:Hrpc; cbn.
  { split; [done|]. by intros (_ & ? & ? & ? & _). }
  destruct (contains py "error" answer) as [e|[|]] eqn:Hin; cbn.
  - split; [done|]. intros (_ & fields & ? & [= -> ->] & Hn & _).
    apply contains_obj in Hn. congruence.
  - destruct (item py answer "error"); cbn.
    all: split; [done|]; intros (_ & fields & ? & [= -> ->] & Hn & _).
    all: apply contains_obj in Hn; congruence.
  - destruct (get_or py answer "result" JNull) as [e|x] eqn:Hget; cbn.
    + split; [done|]. intros (_ & fields & ? & [= -> ->] & _). done.
    + apply get_or_obj in Hget as (fields & -> & ->). split.
      * intros [= <-]. split; [done|]. eexists _, _. split; [done|].
        split; [by apply contains_obj|done].
      * by intros (_ & fields' & ? & [= <- <-] & _ & ->).
Qed.

Lemma send_raises (tx : json) (s : LitecoinNode) (w w1 : W) (answer v : json) :
  rpc_client s = true ->
  rpc (RpcCall "sendrawtransaction" (Some [tx])) w = (inr answer, w1) ->
  contains py "error" answer = inr true ->
  item py answer "error" = inr v ->
  result (the_node rpc (send_transaction py tx) s w) = inl (rpc_error py v).
Proof.
  destruct s as [[|] net]; [|done]. intros _ Hrpc Hin Hitem.
  unfold the_node, send_transaction; unfold_ops; cbn.
  rewrite Hrpc; cbn. rewrite Hin; cbn. by rewrite Hitem.
Qed.
End Node.
End Python.

(** X22.  [RPCClient.call] never raises.  Whatever the HTTP session does
    (answer, time out, raise), [call] returns a value, leaves a session on
    the client and its URL and headers as they were, posts the request
    exactly once and reads the answer at most once.  What it returns is
    either a dictionary with the single key [error], whose value is never
    [None], or the decoded body of an answer with status 200, unchanged;
    such a body has no [error], or an [error] that is [None]. *)
Theorem call_never_raises {W : Type} (py : Runtime)
        (http : forall c : HttpCall, W -> (exn + HttpResp c) * W)
        (method : string) (params : option (list json)) (c : RPCClient) (w : W) :
  let o := the_call py http method params c w in
  let request := payload_of method (default [] params) in
  (exists r,
     result o = inr r /\
     ((exists v, r = error_dict v /\ v <> JNull) \/
      (answered http (rpc_url c) (headers c) request w r /\
       (contains py "error" r = inr false \/ item py r "error" = inr JNull)))) /\
  session (final o) = true /\ rpc_url (final o) = rpc_url c /\
  headers (final o) = headers c /\
  exists rest,
    calls (trace o) = Post (rpc_url c) (headers c) request :: rest /\
    (length rest <= 1)%nat.
Proof.
  cbv zeta.
  destruct (call_returns py http method params c w) as (r & Hr & Hs & Hu & Hh & Hcases).
  split; [|split; [done|split; [done|split; [done|apply call_posts_once]]]].
  exists r. split; [done|]. destruct Hcases as [(v & -> & Hv)|?]; [left|by right].
  exists v. split; [done|]. by intros ->.
Qed.

(** X23.  When [LitecoinNode.send_transaction] returns.  It returns
    exactly when the node has an RPC client and the client's answer is a
    dictionary without the key [error]; what it returns is the answer's
    [result], or [None] when the answer has none.  An answer that has the
    key [error] makes it raise [RPC error: ...] with that value, whatever
    the value is. *)
Theorem send_transaction_needs_no_error_key {W : Type} (py : Runtime)
        (rpc : forall c : NodeCall, W -> (exn + NodeResp c) * W)
        (tx : json) (s : LitecoinNode) (w : W) :
  let o := the_node rpc (send_transaction py tx) s w in
  let answer := rpc (RpcCall "sendrawtransaction" (Some [tx])) w in
  (forall txid,
     result o = inr txid <->
     rpc_client s = true /\
     exists fields w1,
       answer = (inr (JObj fields), w1) /\
       assoc "error" fields = None /\
       txid = default JNull (assoc "result" fields)) /\
  (forall fields v w1,
     rpc_client s = true ->
     answer = (inr (JObj fields), w1) ->
     assoc "error" fields = Some v ->
     result o = inl (rpc_error py v)) /\
  final o = s.
Proof.
  cbv zeta. split; [|split].
  - intros txid. apply send_returns.
  - intros fields v w1 Hc Hrpc Hv. apply (send_raises py rpc tx s w w1 (JObj fields) v Hc Hrpc).
    + cbn. rewrite Hv. by rewrite bool_decide_eq_true_2.
    + cbn. by rewrite Hv.
  - destruct s as [[|] net]; unfold the_node, send_transaction; unfold_ops; cbn; [|done].
    destruct (rpc _ w) as [[e|answer] w1]; cbn; [done|].
    destruct (contains py "error" answer) as [e|[|]]; cbn; [done| |].
    + by destruct (item py answer "error").
    + by destruct (get_or py answer "result" JNull).
Qed.

(** X24.  [send_transaction] through [RPCClient.call].  With the node's
    client talking to an HTTP session, [send_transaction] returns exactly
    when the node has a client, the request [sendrawtransaction] is
    answered with status 200, and the decoded body is a dictionary without
    the key [error]; it then returns the body's [result] ([None] when
    there is none).  A 200 answer whose body has the key [error] makes it
    raise [RPC error: ...] with the value of the key, also when that value
    is [None]. *)
Theorem send_through_client {W : Type} (py : Runtime)
        (http : forall c : HttpCall, W -> (exn + HttpResp c) * W)
        (tx : json) (node : LitecoinNode) (c : RPCClient) (w : W) :
  let o := the_node (client_env py http) (send_transaction py tx) node (c, w) in
  let exchange :=
    answered http (rpc_url c) (headers c) (payload_of "sendrawtransaction" [tx]) w in
  (forall txid,
     result o = inr txid <->
     rpc_client node = true /\
     exists fields,
       exchange (JObj fields) /\
       assoc "error" fields = None /\
       txid = default JNull (assoc "result" fields)) /\
  (forall fields v,
     rpc_client node = true ->
     exchange (JObj fields) ->
     assoc "error" fields = Some v ->
     result o = inl (rpc_error py v)).
Proof.
  cbv zeta. split.
  - intros txid. rewrite send_returns. split.
    + intros (Hc & fields & w1 & Hrpc & Hn & ->). split; [done|].
      exists fields. split; [|done].
      unfold client_env in Hrpc. cbn [fst snd] in Hrpc. injection Hrpc as Hres _.
      destruct (call_returns py http "sendrawtransaction" (Some [tx]) c w)
        as (r & Hr & _ & _ & _ & Hcases).
      cbv zeta in Hr. rewrite Hr in Hres. injection Hres as ->.
      destruct Hcases as [(v & Hv & _)|[Ha _]]; [|done].
      injection Hv as ->. cbn in Hn. done.
    + intros (Hc & fields & Hex & Hn & ->). split; [done|].
      eexists fields, _. split; [|done].
      unfold client_env. cbn [fst snd]. rewrite (call_answered py http "sendrawtransaction" (Some [tx]) c w (JObj fields) Hex).
      apply contains_obj with (py:=py) in Hn. by rewrite Hn.
  - intros fields v Hc Hex Hv.
    pose proof (call_answered py http "sendrawtransaction" (Some [tx]) c w (JObj fields) Hex) as Hcall.
    assert (contains py "error" (JObj fields) = inr true) as Hin.
    { cbn. rewrite Hv. by rewrite bool_decide_eq_true_2. }
    assert (item py (JObj fields) "error" = inr v) as Hitem.
    { cbn. by rewrite Hv. }
    rewrite Hin, Hitem in Hcall.
    eapply (send_raises py (client_env py http) tx node (c, w) _
              (if is_none v then JObj fields else error_dict v) v Hc).
    + unfold client_env. cbn [fst snd]. by rewrite Hcall.
    + by destruct (is_none v).
    + by destruct (is_none v).
Qed.

Lemma send_through_client_witness :
  result (the_node (client_env plain_runtime
                      (one_exchange 200
                         (JObj [("result", JStr "txid"); ("error", JNull);
                                ("id", JStr "node_manager")]%string) ""))
                   (send_transaction plain_runtime (JStr "hex"))
                   (MkLitecoinNode true "mainnet") (client0, tt))
  = inl "RPC error: None"%string.
Proof.
  refine (proj2 (send_through_client plain_runtime _ (JStr "hex") (MkLitecoinNode true "mainnet")
                   client0 tt)
                [("result", JStr "txid"); ("error", JNull); ("id", JStr "node_manager")]%string
                JNull eq_refl _ eq_refl).
  by eexists tt, tt.
Defined.

(** X25.  What [LitecoinNode.sign_raw_transaction] returns.  It returns
    exactly when the node has an RPC client, the client's answer to
    [signrawtransactionwithkey] (asked with the transaction and the list of
    keys, empty when none is given) is a dictionary without the key
    [error], and the answer's [result], taken as the empty dictionary when
    absent, is a dictionary; the three entries returned are those of that
    dictionary, with the defaults [''], [False] and [[]].  So an answer
    without [result] is returned as an empty, incomplete signature rather
    than raised. *)
Theorem sign_returns_defaults {W : Type} (py : Runtime)
        (rpc : forall c : NodeCall, W -> (exn + NodeResp c) * W)
        (raw : json) (keys : option (list json)) (s : LitecoinNode) (w : W) :
  let o := the_node rpc (sign_raw_transaction py raw keys) s w in
  let answer :=
    rpc (RpcCall "signrawtransactionwithkey" (Some [raw; JArr (default [] keys)])) w in
  (forall sg,
     result o = inr sg <->
     rpc_client s = true /\
     exists fields w1 signed_data,
       answer = (inr (JObj fields), w1) /\
       assoc "error" fields = None /\
       default (JObj []) (assoc "result" fields) = JObj signed_data /\
       sg = MkSigned (default (JStr "") (assoc "hex" signed_data))
                     (default (JBool false) (assoc "complete" signed_data))
                     (default (JArr []) (assoc "errors" signed_data))) /\
  (forall fields w1,
     rpc_client s = true ->
     answer = (inr (JObj fields), w1) ->
     assoc "error" fields = None -> assoc "result" fields = None ->
     result o = inr (MkSigned (JStr "") (JBool false) (JArr []))).
Proof.
  cbv zeta. split.
  - intros sg.
    destruct s as [[|] net]; unfold the_node, sign_raw_transaction; unfold_ops; cbn.
    2: { split; [done|]. by intros [? _]. }
    destruct (rpc _ w) as [[e|answer] w1] eqn:Hrpc; cbn.
    { split; [done|]. by intros (_ & ? & ? & ? & ? & _). }
    destruct (contains py "error" answer) as [e|[|]] eqn:Hin; cbn.
    + split; [done|]. intros (_ & fields & ? & ? & [= -> ->] & Hn & _).
      apply contains_obj with (py:=py) in Hn. congruence.
    + destruct (item py answer "error"); cbn.
      all: split; [done|]; intros (_ & fields & ? & ? & [= -> ->] & Hn & _).
      all: apply contains_obj with (py:=py) in Hn; congruence.
    + destruct answer as [| | | | |fields]; cbn in *;
        try (split; [done|]; by intros (_ & ? & ? & ? & ? & _)).
      destruct (default (JObj []) (assoc "result" fields)) as [| | | | |sd] eqn:Hsd; cbn.
      all: try (split; [done|]; by intros (_ & ? & ? & ? & [= <- <-] & _ & ? & _); congruence).
      all: try (split; [done|];
                intros (_ & ? & ? & ? & [= <- <-] & _ & Hd & _); congruence).
      split.
      * intros [= <-]. split; [done|]. eexists fields, _, sd.
        split; [done|]. split; [by apply (contains_obj py)|]. done.
      * intros (_ & fields' & ? & sd' & [= <- <-] & _ & Hd & ->).
        rewrite Hsd in Hd. by injection Hd as <-.
  - intros fields w1 Hc Hrpc Herr Hres.
    destruct s as [[|] net]; [|done].
    unfold the_node, sign_raw_transaction; unfold_ops; cbn.
    rewrite Hrpc; cbn. rewrite Herr; cbn. by rewrite Hres.
Qed.

(** X28.  [RPCClient.batch_call].  An empty batch returns the empty list
    without a request and without opening a session.  A batch raises only
    while its requests are built, when one of the calls has no [method]
    (or is not a dictionary), and then nothing is posted.  Otherwise it
    never raises: it posts the numbered requests once, in the order of the
    calls, and returns the decoded body of a 200 answer as it is, or else
    one error dictionary for each call, all with the same text. *)
Theorem batch_call_shape {W : Type} (py : Runtime)
        (http : forall c : HttpCall, W -> (exn + HttpResp c) * W)
        (batch : list json) (c : RPCClient) (w : W) :
  let o := run (Sg:=HttpSig) http (batch_call py batch) c w in
  (batch = [] -> o = MkOutcome (inr (JArr [])) c w []) /\
  (forall e, result o = inl e ->
     trace o = [] /\ final o = c /\
     Exists (fun call => item py call "method" = inl e) batch) /\
  (forall requests,
     batch <> [] -> build_payload py 0 batch = inr requests ->
     length requests = length batch /\
     session (final o) = true /\
     (exists rest,
        calls (Sg:=HttpSig) (trace o)
        = Post (rpc_url c) (headers c) (JArr requests) :: rest /\
        (length rest <= 1)%nat) /\
     exists r,
       result o = inr r /\
       ((exists w1 w2,
           http (Post (rpc_url c) (headers c) (JArr requests)) w
           = (inr (Replied 200%Z), w1) /\
           http ResponseJson w1 = (inr (Replied r), w2)) \/
        (exists text, r = JArr (repeat (error_dict (JStr text)) (length batch))))).
Proof.
  cbv zeta.
  assert (forall i cs e, build_payload py i cs = inl e ->
            Exists (fun call => item py call "method" = inl e) cs) as Hbad.
  { intros i cs. revert i. induction cs as [|call cs IH]; intros i e; cbn; [done|].
    destruct (item py call "method") as [e'|m] eqn:Hitem.
    - intros [= <-]. by left.
    - destruct call; cbn in Hitem; try done. cbn.
      destruct (build_payload py (S i) cs) as [e'|tl] eqn:Htl; [|done].
      intros [= <-]. right. by eapply IH. }
  assert (forall i cs rs, build_payload py i cs = inr rs -> length rs = length cs) as Hlen.
  { intros i cs. revert i. induction cs as [|call cs IH]; intros i rs; cbn.
    - by intros [= <-].
    - destruct (item py call "method"); [done|].
      destruct (get_or py call "params" (JArr [])); [done|].
      destruct (build_payload py (S i) cs) as [|tl] eqn:Htl; [done|].
      intros [= <-]. cbn. f_equal. by eapply IH. }
  assert (forall (v : json), map (fun _ : json => error_dict v) batch
                             = repeat (error_dict v) (length batch)) as Hrep.
  { intros v. induction batch as [|? ? IH]; cbn; [done|]. by rewrite IH. }
  split; [by intros ->|].
  destruct batch as [|call batch']; [by split; [intros e [=]|intros ? []]|].
  unfold batch_call. cbv iota.
  remember (call :: batch') as cs eqn:Hcs. unfold_ops.
  destruct (build_payload py 0 cs) as [e0|requests] eqn:Hbuild.
  - split.
    + cbn. intros e [= <-]. split; [done|]. split; [done|]. by eapply Hbad.
    + by intros ? _ [=].
  - assert (length requests = length cs) as Hl by by eapply Hlen.
    unfold errors_for.
    destruct c as [url hs [|]]; cbn;
      repeat (match goal with
                 | |- context [http (Post ?u ?h ?p) ?w0] =>
                     destruct (http (Post u h p) w0) as [[?e|[|?status]] ?w] eqn:?Hpost
                 | |- context [http ResponseJson ?w0] =>
                     destruct (http ResponseJson w0) as [[?e|[|?body]] ?w] eqn:?Hjson
                 | |- context [http ResponseText ?w0] =>
                     destruct (http ResponseText w0) as [[?e|[|?text]] ?w] eqn:?Htext
                 | |- context [(?a =? ?b)%Z] => destruct (Z.eqb_spec a b)
                 end; cbn).
    all: (split; [by intros ? [=]|]).
    all: intros ? _ [= <-].
    all: split; [exact Hl|]; split; [done|].
    all: (split; [eexists; split; [reflexivity|]; cbn; lia|]).
    all: eexists; split; [reflexivity|].
    all: try (right; eexists; by rewrite Hrep).
    all: subst; left; by eexists _, _.
Qed.

(** X29.  [get_blockchain_info] never raises and asks the client at most
    once.  It returns the [result] of the client's answer ([{}] when the
    answer has none) only when the answer is a dictionary without the key
    [error]; when the answer has the key [error], whatever its value, or
    when the node has no client, it returns the fixed dictionary for the
    node's network with zero blocks; any exception becomes
    [{'error': str(e)}].  It writes no field of the node. *)
Theorem blockchain_info_never_raises {W : Type} (py : Runtime)
        (rpc : forall c : NodeCall, W -> (exn + NodeResp c) * W)
        (s : LitecoinNode) (w : W) :
  let o := the_node rpc (get_blockchain_info py) s w in
  let answer := fst (rpc (RpcCall "getblockchaininfo" (Some [])) w) in
  final o = s /\
  (calls (Sg:=NodeSig) (trace o)
   = if rpc_client s then [RpcCall "getblockchaininfo" (Some [])] else []) /\
  exists r,
    result o = inr r /\
    (rpc_client s = false -> r = no_blockchain_info (network s)) /\
    (forall fields,
       rpc_client s = true -> answer = inr (JObj fields) ->
       r = match assoc "error" fields with
           | Some _ => no_blockchain_info (network s)
           | None => default (JObj []) (assoc "result" fields)
           end) /\
    (forall e, rpc_client s = true -> answer = inl e -> r = error_dict (JStr e)).
Proof.
  cbv zeta. destruct s as [[|] net]; unfold the_node, get_blockchain_info; unfold_ops; cbn.
  2: { split; [done|]. split; [done|]. eexists. split; [reflexivity|]. by repeat split. }
  destruct (rpc (RpcCall "getblockchaininfo" (Some [])) w) as [[e|answer] w1]; cbn.
  { split; [done|]. split; [done|]. eexists. split; [reflexivity|].
    split; [done|]. split; [done|]. by intros ? _ [= <-]. }
  destruct answer as [|b|q|str|items|fields]; cbn.
  all: try (split; [done|]; split; [done|]; eexists; split; [reflexivity|];
            split; [done|]; split; [done|]; done).
  - destruct (bool_decide (is_Some (String.index 0 "error" str))); cbn.
    all: split; [done|]; split; [done|]; eexists; split; [reflexivity|].
    all: split; [done|]; split; [done|]; done.
  - destruct (existsb (fun j => is_str j "error") items); cbn.
    all: split; [done|]; split; [done|]; eexists; split; [reflexivity|].
    all: split; [done|]; split; [done|]; done.
  - destruct (assoc "error" fields) as [v|] eqn:Herr; cbn.
    + split; [done|]. split; [done|]. eexists. split; [reflexivity|].
      split; [done|]. split; [|done]. intros ? _ [= <-]. by rewrite Herr.
    + split; [done|]. split; [done|]. eexists. split; [reflexivity|].
      split; [done|]. split; [|done]. intros ? _ [= <-]. by rewrite Herr.
Qed.

End RpcFacts.

(** ** The node's helpers over its own methods *)

Module BaseNodeFacts.
Import MessageHandling Factory FactoryFacts BaseNode.

Lemma dict_get_set {A : Type} (k k' : string) (v : A) (d : list (string * A)) :
  dict_get k' (dict_set k v d) = if String.eqb k k' then Some v else dict_get k' d.
Proof.
  destruct (String.eqb_spec k k') as [->|Hne].
  - apply dict_get_set_eq.
  - apply dict_get_set_ne. congruence.
Qed.

Lemma dict_get_snoc {A : Type} (k k' : string) (v : A) (d : list (string * A)) :
  dict_get k' (d ++ [(k, v)]) =
  match dict_get k' d with
  | Some x => Some x
  | None => if String.eqb k k' then Some v else None
  end.
Proof.
  induction d as [|[k0 v0] d IH]; cbn; [done|].
  by destruct (String.eqb k0 k').
Qed.

Lemma NoDup_keys_dict_set {A : Type} (k : string) (v : A) (d : list (string * A)) :
  NoDup (keys d) -> NoDup (keys (dict_set k v d)).
Proof.
  intros Hd. rewrite keys_dict_set. case_bool_decide as Hk; [done|].
  apply NoDup_app. split; [done|]. split; [|apply NoDup_singleton].
  intros x Hx Hx'. apply list_elem_of_singleton in Hx' as ->. done.
Qed.

Lemma elem_of_keys_reverse {A : Type} (a : string) (l : list (string * A)) :
  a ∈ keys (reverse l) <-> a ∈ keys l.
Proof.
  unfold keys. rewrite !list_elem_of_In, !in_map_iff.
  split; intros (x & Hx & Hin); exists x; (split; [done|]).
  all: apply list_elem_of_In; apply list_elem_of_In in Hin.
  - by apply elem_of_reverse.
  - by apply elem_of_reverse.
Qed.

Section Node.
Context {W : Type}.
Variable node : forall c : BaseCall, W -> (exn + BaseResp c) * W.

Lemma keys_answers (addresses : list string) (w : W) :
  keys (answers node addresses w) = addresses.
Proof.
  unfold keys. revert w. induction addresses as [|a rest IH]; intros w; cbn; [done|].
  by rewrite IH.
Qed.

Lemma last_answer_None (a : string) (addresses : list string) (w : W) :
  last_answer a (answers node addresses w) = None <-> a ∉ addresses.
Proof.
  unfold last_answer. rewrite dict_get_None, elem_of_keys_reverse.
  by rewrite keys_answers.
Qed.

Lemma balances_loop_run (addresses : list string) (results0 : list (string * json)) (w : W) :
  let o := exec node (balances_loop addresses results0) w in
  exists results,
    result o = inr results /\
    calls (trace o) = map GetBalance addresses /\
    (NoDup (keys results0) -> NoDup (keys results)) /\
    forall a, dict_get a results =
              match last_answer a (answers node addresses w) with
              | Some v => Some v
              | None => dict_get a results0
              end.
Proof.
  cbv zeta. revert results0 w.
  induction addresses as [|a rest IH]; intros results0 w.
  - exists results0. by repeat split.
  - unfold exec. cbn [balances_loop]. unfold call, await. cbn [bind try_except run].
    destruct (node (GetBalance a) w) as [[e|balance] w1] eqn:Hnode; cbn [fst snd].
    all: cbn [bind try_except].
    all: match goal with
         | |- context [run node (balances_loop _ ?r) tt ?w'] =>
             destruct (IH r w') as (results & Hres & Hcalls & Hnd & Hget)
         end.
    all: unfold exec in Hres, Hcalls.
    all: exists results; split; [exact Hres|].
    all: split; [cbn; f_equal; exact Hcalls|].
    all: split; [intros ?; by apply Hnd, NoDup_keys_dict_set|].
    all: intros a'; rewrite Hget; unfold last_answer; cbn [answers].
    all: rewrite Hnode; cbn [fst snd]; rewrite reverse_cons, dict_get_snoc.
    all: fold (last_answer a' (answers node rest w1)).
    all: destruct (last_answer a' (answers node rest w1)); [done|].
    all: rewrite dict_get_set; by destruct (String.eqb a a').
Qed.
End Node.

(** X26.  [batch_get_balances] answers for every address.  Whatever
    [get_balance] does, the batch never raises; it awaits [get_balance]
    once for each address of the list, in order; the dictionary it returns
    has exactly the addresses of the list as keys, each once; and the entry
    of an address is what the last call about it gave: the balance, or
    [{'error': str(e)}] when that call raised. *)
Theorem batch_balances_complete {W : Type}
        (node : forall c : BaseCall, W -> (exn + BaseResp c) * W)
        (addresses : list string) (w : W) :
  let o := exec node (batch_get_balances addresses) w in
  exists results,
    result o = inr results /\
    calls (trace o) = map GetBalance addresses /\
    NoDup (keys results) /\
    (forall a, a ∈ keys results <-> a ∈ addresses) /\
    forall a, dict_get a results = last_answer a (answers node addresses w).
Proof.
  cbv zeta. unfold batch_get_balances.
  destruct (balances_loop_run node addresses [] w) as (results & Hres & Hcalls & Hnd & Hget).
  assert (forall a, dict_get a results = last_answer a (answers node addresses w)) as Hget'.
  { intros a. rewrite Hget. by destruct (last_answer a _). }
  exists results. split; [done|]. split; [done|].
  split; [apply Hnd, NoDup_nil_2|]. split; [|done].
  intros a. destruct (decide (a ∈ keys results)) as [Hin|Hout].
  - split; [intros _|done].
    destruct (decide (a ∈ addresses)) as [|Hn]; [done|].
    apply last_answer_None with (node:=node) (w:=w) in Hn.
    rewrite <- Hget' in Hn. by apply dict_get_None in Hn.
  - split; [done|]. intros Ha. exfalso.
    apply dict_get_None in Hout. rewrite Hget' in Hout.
    by apply last_answer_None in Hout.
Qed.

(** X27.  [get_transaction_history] never raises.  It awaits
    [get_address_info] once and returns a value whatever comes back.  When
    the information is a dictionary whose [transactions] is a list, the
    value is a prefix of that list: its first [limit] items for a
    non-negative [limit] (all of them when there are fewer), all but the
    last [-limit] for a negative one.  When the call raises, when the
    information is not a dictionary, or when it has no [transactions], the
    value is the empty list. *)
Theorem history_is_a_prefix {W : Type}
        (node : forall c : BaseCall, W -> (exn + BaseResp c) * W)
        (address : string) (limit : Z) (w : W) :
  let o := exec node (get_transaction_history address limit) w in
  let info := fst (node (GetAddressInfo address) w) in
  calls (trace o) = [GetAddressInfo address] /\
  exists r,
    result o = inr r /\
    (forall fields txs,
       info = inr (JObj fields) -> assoc "transactions" fields = Some (JArr txs) ->
       exists kept,
         r = JArr kept /\ kept `prefix_of` txs /\
         Z.of_nat (length kept) =
           (if (0 <=? limit)%Z then Z.min limit (Z.of_nat (length txs))
            else Z.max 0 (Z.of_nat (length txs) + limit))%Z) /\
    ((forall fields, info = inr (JObj fields) -> assoc "transactions" fields = None) ->
     r = JArr []).
Proof.
  cbv zeta. unfold exec, get_transaction_history, call, lift, await.
  cbn [bind try_except run].
  destruct (node (GetAddressInfo address) w) as [[e|info] w1]; cbn [fst snd].
  - cbn. split; [done|]. eexists. split; [reflexivity|]. by split.
  - destruct info as [| | | | |fields]; cbn.
    all: try (split; [done|]; eexists; split; [reflexivity|]; by split).
    destruct (assoc "transactions" fields) as [[| | | |txs|]|] eqn:Htx; cbn.
    all: split; [done|]; eexists; split; [reflexivity|].
    all: split; [intros ? ? [= <-] Ht; rewrite Htx in Ht; try discriminate Ht
                |intros Hnone; try (specialize (Hnone _ eq_refl); congruence)].
    all: try done.
    injection Ht as <-. eexists. split; [reflexivity|].
    unfold slice_to. destruct (Z.leb_spec 0 limit).
    + split; [apply prefix_take|]. rewrite length_take. lia.
    + split; [apply prefix_take|]. rewrite length_take. lia.
    + unfold slice_to. destruct (0 <=? limit)%Z; by rewrite take_nil.
Qed.

End BaseNodeFacts.
